(** * fast-orm: query compilation, connection discipline, model creation
      and migration ordering

    A shallow embedding of the TypeScript sources of fast-orm
    (QueryBuilder, Connection, Model, MigrationRunner) together with the
    properties stated about them.  Definitions follow the source text; every
    exception thrown by the JavaScript code is an explicit [Throw]. *)

From Stdlib Require Import ZArith Ascii.
From stdpp Require Import base option list strings gmap sorting.

Set Warnings "-register-all".
Local Open Scope Z_scope.

(** ** JavaScript values and completions *)

Module Js.

(** The values that travel through the builder as SQL parameters. *)
Inductive value : Type :=
| VUndefined
| VNull
| VBool (b : bool)
| VNum (n : Z)
| VStr (s : string)
| VArr (xs : list value).

(** A thrown exception. *)
Inductive exn : Type :=
| TypeError (msg : string)
| Error (msg : string).

(** The completion of a call: a normal return or a throw. *)
Inductive result (A : Type) : Type :=
| Ok (a : A)
| Throw (e : exn).
Arguments Ok {A} a.
Arguments Throw {A} e.

Definition isOk {A} (r : result A) : bool :=
  match r with Ok _ => true | Throw _ => false end.

(** [Array.prototype.join] on an array of strings. *)
Fixpoint join (sep : string) (parts : list string) : string :=
  match parts with
  | [] => ""
  | [p] => p
  | p :: ps => p +:+ sep +:+ join sep ps
  end.

(** [v[i]] for a value [v]: a [TypeError] on [null] and [undefined], the
    element of an array or the one-character string of a string when the
    index is in range, and [undefined] everywhere else.  (A string is its
    sequence of code units, one character each; so are all texts here.) *)
Definition index (v : value) (i : nat) : result value :=
  match v with
  | VUndefined | VNull => Throw (TypeError "Cannot read properties of null or undefined")
  | VArr xs => Ok (default VUndefined (xs !! i))
  | VStr s =>
      Ok (match String.get i s with
          | Some c => VStr (String c EmptyString)
          | None => VUndefined
          end)
  | VBool _ | VNum _ => Ok VUndefined
  end.

(** [v.map(f)] exists on arrays only; on any other value the call throws. *)
Definition elements (v : value) : result (list value) :=
  match v with
  | VArr xs => Ok xs
  | VUndefined | VNull => Throw (TypeError "Cannot read properties of null or undefined")
  | _ => Throw (TypeError "value.map is not a function")
  end.

(** A plain object: its own enumerable properties in property order. *)
Definition object : Type := list (string * value).

(** [Object.keys(o)] and [Object.values(o)] *)
Definition keys (o : object) : list string := map fst o.
Definition values (o : object) : list value := map snd o.

(** [o[key]] *)
Fixpoint getProp (key : string) (o : object) : value :=
  match o with
  | [] => VUndefined
  | (k, v) :: o' => if bool_decide (k = key) then v else getProp key o'
  end.

(** [o[key] = v]: an existing property keeps its place, a new one is added
    last. *)
Fixpoint setProp (key : string) (v : value) (o : object) : object :=
  match o with
  | [] => [(key, v)]
  | (k, w) :: o' =>
      if bool_decide (k = key) then (k, v) :: o' else (k, w) :: setProp key v o'
  end.

(** Number of occurrences of the character [c] in [s]. *)
Fixpoint countChar (c : ascii) (s : string) : nat :=
  match s with
  | EmptyString => 0%nat
  | String d s' => ((if Ascii.eqb d c then 1 else 0) + countChar c s')%nat
  end.

End Js.

Import Js.

(** ** QueryBuilder *)

Module QueryBuilder.

Inductive Boolean : Type := AND | OR.

Definition keyword (b : Boolean) : string :=
  match b with AND => "AND" | OR => "OR" end.

(** [WhereClause | WhereGroup].  The source type also lists a tag
    ['nested'], which no method of the builder ever constructs and which
    [buildWhereClause] has no branch for; the three tags that are built are
    the constructors here. *)
Inductive WhereClause : Type :=
| Basic (boolean : Boolean) (column operator : string) (value : value)
| Group (boolean : Boolean) (clauses : list WhereClause)
| Raw (boolean : Boolean) (sql : string) (params : list value).

Definition boolean (c : WhereClause) : Boolean :=
  match c with
  | Basic b _ _ _ | Group b _ | Raw b _ _ => b
  end.

Definition setBoolean (b : Boolean) (c : WhereClause) : WhereClause :=
  match c with
  | Basic _ col op v => Basic b col op v
  | Group _ cs => Group b cs
  | Raw _ s ps => Raw b s ps
  end.

Inductive Direction : Type := ASC | DESC.

Definition directionText (d : Direction) : string :=
  match d with ASC => "ASC" | DESC => "DESC" end.

Inductive JoinType : Type := INNER | LEFT | RIGHT.

Definition joinTypeText (t : JoinType) : string :=
  match t with INNER => "INNER" | LEFT => "LEFT" | RIGHT => "RIGHT" end.

Record JoinClause : Type := mkJoin {
  joinType : JoinType;
  joinTable : string;
  joinOn : string;
  joinParams : list value
}.

(** The fields of a [QueryBuilder] instance that compilation reads (the
    [connection] field is only used by the terminal operations). *)
Record QueryBuilder : Type := mkBuilder {
  tableName : string;
  selectColumns : list string;
  whereClauses : list WhereClause;
  limitValue : option Z;
  offsetValue : option Z;
  orderByConditions : list (string * Direction);
  groupByColumns : list string;
  havingConditions : list WhereClause;
  joinClauses : list JoinClause;
  currentWhereGroup : option (list WhereClause)
}.

(** [new QueryBuilder(tableName, connection)] *)
Definition new (table : string) : QueryBuilder :=
  {| tableName := table; selectColumns := ["*"]; whereClauses := [];
     limitValue := None; offsetValue := None; orderByConditions := [];
     groupByColumns := []; havingConditions := []; joinClauses := [];
     currentWhereGroup := None |}.

(** *** Internal SQL building *)

(** The operator part of a basic clause and the parameters it pushes. *)
Definition operatorPart (operator : string) (v : value)
  : result (string * list value) :=
  if bool_decide (operator = "IN") || bool_decide (operator = "NOT IN") then
    match elements v with
    | Ok xs =>
        Ok (operator +:+ " (" +:+ join ", " (map (fun _ => "?") xs) +:+ ")", xs)
    | Throw e => Throw e
    end
  else if bool_decide (operator = "BETWEEN") || bool_decide (operator = "NOT BETWEEN") then
    match index v 0, index v 1 with
    | Ok lo, Ok hi => Ok (operator +:+ " ? AND ?", [lo; hi])
    | Throw e, _ | _, Throw e => Throw e
    end
  else if bool_decide (operator = "IS NULL") || bool_decide (operator = "IS NOT NULL") then
    Ok (operator, [])
  else
    Ok (operator, [v]).

(** [clauses.forEach((clause, index) => ...)] as [buildWhereClause] uses it:
    the callback pushes one entry to [parts] and some values to [params] at
    every clause, or throws, which ends the loop. *)
Definition forEach
    (callback : WhereClause -> nat -> result (string * list value))
  : list WhereClause -> nat -> list string -> list value ->
    result (list string * list value) :=
  fix loop (cs : list WhereClause) (index : nat)
      (parts : list string) (params : list value) {struct cs} :=
    match cs with
    | [] => Ok (parts, params)
    | clause :: rest =>
        match callback clause index with
        | Ok (part, pushed) =>
            loop rest (S index) (parts ++ [part]) (params ++ pushed)
        | Throw e => Throw e
        end
    end.

(** The frame of [buildWhereClause]: two fresh arrays, the loop, and
    [{ sql: parts.join(' '), params }]. *)
Definition buildWith
    (callback : WhereClause -> nat -> result (string * list value))
    (clauses : list WhereClause) : result (string * list value) :=
  match forEach callback clauses 0%nat [] [] with
  | Ok (parts, params) => Ok (join " " parts, params)
  | Throw e => Throw e
  end.

(** The body of the [forEach] callback of [buildWhereClause]: the text it
    pushes to [parts] and the values it pushes to [params].  A group calls
    [this.buildWhereClause] on its own clauses. *)
Fixpoint callback (clause : WhereClause) (index : nat) {struct clause}
  : result (string * list value) :=
  let boolean :=
    if Nat.eqb index 0 then "" else keyword (boolean clause) +:+ " " in
  match clause with
  | Basic _ column operator v =>
      match operatorPart operator v with
      | Ok (opPart, pushed) =>
          Ok (boolean +:+ column +:+ " " +:+ opPart, pushed)
      | Throw e => Throw e
      end
  | Group _ inner =>
      match buildWith callback inner with
      | Ok (nestedSql, nestedParams) =>
          Ok (boolean +:+ "(" +:+ nestedSql +:+ ")", nestedParams)
      | Throw e => Throw e
      end
  | Raw _ sql ps =>
      Ok (boolean +:+ "(" +:+ sql +:+ ")", ps)
  end.

(** [buildWhereClause(clauses)] *)
Definition buildWhereClause (clauses : list WhereClause)
  : result (string * list value) :=
  buildWith callback clauses.

(** *** The builder as a mutable object

    A method runs on the instance [this], may assign its fields, and
    returns or throws; what a throw leaves assigned stays assigned. *)

Definition M (A : Type) : Type := QueryBuilder -> result A * QueryBuilder.

Definition ret {A} (a : A) : M A := fun this => (Ok a, this).

Definition bind {A B} (m : M A) (k : A -> M B) : M B :=
  fun this =>
    match m this with
    | (Ok a, this') => k a this'
    | (Throw e, this') => (Throw e, this')
    end.

Definition throw {A} (e : exn) : M A := fun this => (Throw e, this).

(** Read a field of [this]. *)
Definition gets {A} (field : QueryBuilder -> A) : M A :=
  fun this => (Ok (field this), this).

(** Assign fields of [this]. *)
Definition modify (f : QueryBuilder -> QueryBuilder) : M unit :=
  fun this => (Ok tt, f this).

(** A pure computation that may throw. *)
Definition lift {A} (r : result A) : M A := fun this => (r, this).

Declare Scope builder_scope.
Delimit Scope builder_scope with builder.
Notation "x <- m ;; k" := (bind m (fun x => k))
  (at level 100, m at next level, right associativity) : builder_scope.
Notation "m ;; k" := (bind m (fun _ => k))
  (at level 100, right associativity) : builder_scope.
Local Open Scope builder_scope.

Definition set_selectColumns (v : list string) (b : QueryBuilder) :=
  mkBuilder (tableName b) v (whereClauses b) (limitValue b) (offsetValue b)
    (orderByConditions b) (groupByColumns b) (havingConditions b)
    (joinClauses b) (currentWhereGroup b).
Definition set_whereClauses (v : list WhereClause) (b : QueryBuilder) :=
  mkBuilder (tableName b) (selectColumns b) v (limitValue b) (offsetValue b)
    (orderByConditions b) (groupByColumns b) (havingConditions b)
    (joinClauses b) (currentWhereGroup b).
Definition set_limitValue (v : option Z) (b : QueryBuilder) :=
  mkBuilder (tableName b) (selectColumns b) (whereClauses b) v (offsetValue b)
    (orderByConditions b) (groupByColumns b) (havingConditions b)
    (joinClauses b) (currentWhereGroup b).
Definition set_offsetValue (v : option Z) (b : QueryBuilder) :=
  mkBuilder (tableName b) (selectColumns b) (whereClauses b) (limitValue b) v
    (orderByConditions b) (groupByColumns b) (havingConditions b)
    (joinClauses b) (currentWhereGroup b).
Definition set_orderByConditions (v : list (string * Direction)) (b : QueryBuilder) :=
  mkBuilder (tableName b) (selectColumns b) (whereClauses b) (limitValue b)
    (offsetValue b) v (groupByColumns b) (havingConditions b)
    (joinClauses b) (currentWhereGroup b).
Definition set_groupByColumns (v : list string) (b : QueryBuilder) :=
  mkBuilder (tableName b) (selectColumns b) (whereClauses b) (limitValue b)
    (offsetValue b) (orderByConditions b) v (havingConditions b)
    (joinClauses b) (currentWhereGroup b).
Definition set_havingConditions (v : list WhereClause) (b : QueryBuilder) :=
  mkBuilder (tableName b) (selectColumns b) (whereClauses b) (limitValue b)
    (offsetValue b) (orderByConditions b) (groupByColumns b) v
    (joinClauses b) (currentWhereGroup b).
Definition set_joinClauses (v : list JoinClause) (b : QueryBuilder) :=
  mkBuilder (tableName b) (selectColumns b) (whereClauses b) (limitValue b)
    (offsetValue b) (orderByConditions b) (groupByColumns b)
    (havingConditions b) v (currentWhereGroup b).
Definition set_currentWhereGroup (v : option (list WhereClause)) (b : QueryBuilder) :=
  mkBuilder (tableName b) (selectColumns b) (whereClauses b) (limitValue b)
    (offsetValue b) (orderByConditions b) (groupByColumns b)
    (havingConditions b) (joinClauses b) v.

(** *** Query modifiers *)

(** [select(...columns)] *)
Definition select (columns : list string) : M unit :=
  modify (set_selectColumns (if bool_decide (columns = []) then ["*"] else columns)).

(** [addWhere(clause)]: an array, also an empty one, is truthy. *)
Definition addWhere (clause : WhereClause) : M unit :=
  fun this =>
    match currentWhereGroup this with
    | Some group => (Ok tt, set_currentWhereGroup (Some (group ++ [clause])) this)
    | None => (Ok tt, set_whereClauses (whereClauses this ++ [clause]) this)
    end.

Definition isUndefined (v : value) : bool :=
  match v with VUndefined => true | _ => false end.

(** A fresh builder on [table] whose [currentWhereGroup] is the empty
    array: what a callback is handed to collect its clauses in. *)
Definition nestedBuilder (table : string) : QueryBuilder :=
  set_currentWhereGroup (Some []) (new table).

(** The callback branch shared by [where] and [orWhere]. *)
Definition whereCallback (b : Boolean) (callback : M unit) : M unit :=
  fun this =>
    match callback (nestedBuilder (tableName this)) with
    | (Throw e, _) => (Throw e, this)
    | (Ok _, nestedBuilder') =>
        match currentWhereGroup nestedBuilder' with
        | None => (Throw (TypeError "Cannot read properties of null (reading 'length')"), this)
        | Some group =>
            if (0 <? length group)%nat
            then addWhere (Group b group) this
            else (Ok tt, this)
        end
    end.

(** The string branch shared by [where] and [orWhere]: nothing is added when
    the value is [undefined]. *)
Definition whereBasic (b : Boolean) (column operator : string) (v : value) : M unit :=
  if isUndefined v then ret tt else addWhere (Basic b column operator v).

(** [where(column, operator, value)] and [where(callback)] *)
Definition where_ (column operator : string) (v : value) : M unit :=
  whereBasic AND column operator v.
Definition where_cb (callback : M unit) : M unit := whereCallback AND callback.

(** [orWhere(column, operator, value)] and [orWhere(callback)] *)
Definition orWhere (column operator : string) (v : value) : M unit :=
  whereBasic OR column operator v.
Definition orWhere_cb (callback : M unit) : M unit := whereCallback OR callback.

Definition whereIn (column : string) (values : list value) : M unit :=
  addWhere (Basic AND column "IN" (VArr values)).
Definition orWhereIn (column : string) (values : list value) : M unit :=
  addWhere (Basic OR column "IN" (VArr values)).
Definition whereNotIn (column : string) (values : list value) : M unit :=
  addWhere (Basic AND column "NOT IN" (VArr values)).
Definition orWhereNotIn (column : string) (values : list value) : M unit :=
  addWhere (Basic OR column "NOT IN" (VArr values)).
Definition whereNull (column : string) : M unit :=
  addWhere (Basic AND column "IS NULL" VNull).
Definition orWhereNull (column : string) : M unit :=
  addWhere (Basic OR column "IS NULL" VNull).
Definition whereNotNull (column : string) : M unit :=
  addWhere (Basic AND column "IS NOT NULL" VNull).
Definition orWhereNotNull (column : string) : M unit :=
  addWhere (Basic OR column "IS NOT NULL" VNull).
Definition whereBetween (column : string) (min max : value) : M unit :=
  addWhere (Basic AND column "BETWEEN" (VArr [min; max])).
Definition orWhereBetween (column : string) (min max : value) : M unit :=
  addWhere (Basic OR column "BETWEEN" (VArr [min; max])).
Definition whereNotBetween (column : string) (min max : value) : M unit :=
  addWhere (Basic AND column "NOT BETWEEN" (VArr [min; max])).
Definition orWhereNotBetween (column : string) (min max : value) : M unit :=
  addWhere (Basic OR column "NOT BETWEEN" (VArr [min; max])).
Definition whereRaw (sql : string) (params : list value) : M unit :=
  addWhere (Raw AND sql params).
Definition orWhereRaw (sql : string) (params : list value) : M unit :=
  addWhere (Raw OR sql params).

(** *** Joins *)

(** The [onCondition] argument of [addJoin]: SQL text or a callback. *)
Inductive JoinCondition : Type :=
| OnSql (sql : string)
| OnCallback (callback : M unit).

(** [addJoin(type, table, onCondition, onParams = [])] *)
Definition addJoin (type : JoinType) (table : string)
    (onCondition : JoinCondition) (onParams : list value) : M unit :=
  fun this =>
    let compiled :=
      match onCondition with
      | OnSql sql => Ok (sql, onParams)
      | OnCallback callback =>
          match callback (nestedBuilder table) with
          | (Throw e, _) => Throw e
          | (Ok _, joinBuilder') =>
              match currentWhereGroup joinBuilder' with
              | None => Throw (TypeError "Cannot read properties of null (reading 'forEach')")
              | Some group => buildWhereClause group
              end
          end
      end in
    match compiled with
    | Throw e => (Throw e, this)
    | Ok (conditionSql, conditionParams) =>
        (Ok tt,
         set_joinClauses
           (joinClauses this ++ [mkJoin type table conditionSql conditionParams])
           this)
    end.

(** The first argument of [innerJoin], [leftJoin] and [rightJoin]. *)
Inductive JoinFirst : Type :=
| FirstColumn (column : string)
| FirstCallback (callback : M unit).

(** [!s] for an optional string argument. *)
Definition falsy (s : option string) : bool :=
  match s with
  | None => true
  | Some t => bool_decide (t = "")
  end.

Definition joinMethod (type : JoinType) (table : string) (firstColumn : JoinFirst)
    (operator secondColumn : option string) : M unit :=
  match firstColumn with
  | FirstCallback callback => addJoin type table (OnCallback callback) []
  | FirstColumn first =>
      if falsy operator || falsy secondColumn then
        throw (Error "For string-based join, operator and secondColumn are required.")
      else
        addJoin type table
          (OnSql (first +:+ " " +:+ default "" operator +:+ " " +:+ default "" secondColumn))
          []
  end.

Definition rightJoin := joinMethod RIGHT.

Definition limit (count : Z) : M unit := modify (set_limitValue (Some count)).
Definition offset (count : Z) : M unit := modify (set_offsetValue (Some count)).

Definition orderBy (column : string) (direction : Direction) : M unit :=
  fun this =>
    (Ok tt, set_orderByConditions (orderByConditions this ++ [(column, direction)]) this).

Definition groupBy (columns : list string) : M unit :=
  modify (set_groupByColumns columns).

Definition having (column operator : string) (v : value) : M unit :=
  fun this =>
    (Ok tt, set_havingConditions (havingConditions this ++ [Basic AND column operator v]) this).

(** *** buildSql *)

(** [clause.column], [clause.operator] and [clause.value] read from a
    clause of any tag; a field the tag does not carry reads [undefined],
    which a template literal prints as the text undefined. *)
Definition columnText (c : WhereClause) : string :=
  match c with Basic _ column _ _ => column | _ => "undefined" end.
Definition operatorText (c : WhereClause) : string :=
  match c with Basic _ _ operator _ => operator | _ => "undefined" end.
Definition valueOf (c : WhereClause) : value :=
  match c with Basic _ _ _ v => v | _ => VUndefined end.

(** [buildSql()]: the local [sql] and [params] are threaded through the
    sections of the statement in the order the source appends them. *)
Definition buildSql : M (string * list value) :=
  cols <- gets selectColumns;;
  table <- gets tableName;;
  let sql := "SELECT " +:+ join ", " cols +:+ " FROM " +:+ table in
  let params : list value := [] in
  (* JOINs *)
  joins <- gets joinClauses;;
  let '(sql, params) :=
    foldl (fun '(sql, params) j =>
             (sql +:+ " " +:+ joinTypeText (joinType j) +:+ " JOIN " +:+ joinTable j
                  +:+ " ON " +:+ joinOn j,
              params ++ joinParams j))
          (sql, params) joins in
  (* WHERE clauses *)
  wheres <- gets whereClauses;;
  acc <-
    (if (0 <? length wheres)%nat then
       compiled <- lift (buildWhereClause wheres);;
       let '(whereSql, whereParams) := compiled in
       ret (sql +:+ " WHERE " +:+ whereSql, params ++ whereParams)
     else ret (sql, params));;
  let '(sql, params) := acc in
  (* GROUP BY *)
  groups <- gets groupByColumns;;
  let sql :=
    if (0 <? length groups)%nat
    then sql +:+ " GROUP BY " +:+ join ", " groups else sql in
  (* HAVING clauses *)
  havings <- gets havingConditions;;
  let '(sql, params) :=
    if (0 <? length havings)%nat then
      let '(havingParts, params) :=
        foldl (fun '(havingParts, params) h =>
                 (havingParts ++ [columnText h +:+ " " +:+ operatorText h +:+ " ?"],
                  params ++ [valueOf h]))
              ([], params) havings in
      (sql +:+ " HAVING " +:+ join " AND " havingParts, params)
    else (sql, params) in
  (* ORDER BY *)
  orders <- gets orderByConditions;;
  let sql :=
    if (0 <? length orders)%nat then
      sql +:+ " ORDER BY " +:+
        join ", " (map (fun o => fst o +:+ " " +:+ directionText (snd o)) orders)
    else sql in
  (* LIMIT & OFFSET *)
  limitV <- gets limitValue;;
  let '(sql, params) :=
    match limitV with
    | Some n => (sql +:+ " LIMIT ?", params ++ [VNum n])
    | None => (sql, params)
    end in
  offsetV <- gets offsetValue;;
  let '(sql, params) :=
    match offsetV with
    | Some n => (sql +:+ " OFFSET ?", params ++ [VNum n])
    | None => (sql, params)
    end in
  ret (sql, params).

End QueryBuilder.

(** ** Connection *)

Module Connection.

(** Pools and pooled connections of the driver are opaque handles. *)
Definition Pool : Type := nat.
Definition PoolConnection : Type := nat.

(** [QueryResult = RowDataPacket[] | ResultSetHeader] *)
Inductive QueryResult : Type :=
| Rows (rows : list object)
| Header (insertId affectedRows : Z).

(** What the connection does to the driver, in order: a successful
    [pool.getConnection()], a call of [connection.execute(sql, params)], a
    [connection.release()]. *)
Inductive event : Type :=
| Checkout (p : Pool) (c : PoolConnection)
| Execute (c : PoolConnection) (sql : string) (params : option (list value))
| Release (c : PoolConnection).

(** The driver: whether a checkout succeeds and what a statement returns
    may depend on everything that happened before. *)
Record Driver : Type := mkDriver {
  getConnection : Pool -> list event -> result PoolConnection;
  execute : PoolConnection -> string -> option (list value) -> list event ->
            result QueryResult
}.

(** An asynchronous method: it extends the history and settles. *)
Definition IO (A : Type) : Type := list event -> result A * list event.

Record Connection : Type := mkConnection {
  pool : option Pool;
  transactionalConnection : option PoolConnection;
  isTransactionConnection : bool
}.

(** The constructor argument: pool options, from which [mysql.createPool]
    makes the pool, or an open connection (the one with an [execute]). *)
Inductive ConfigOrConnection : Type :=
| PoolOptions (createPool : Pool)
| OpenConnection (c : PoolConnection).

(** [new Connection(configOrConnection)] *)
Definition new (configOrConnection : ConfigOrConnection) : Connection :=
  match configOrConnection with
  | OpenConnection c =>
      {| pool := None; transactionalConnection := Some c;
         isTransactionConnection := true |}
  | PoolOptions p =>
      {| pool := Some p; transactionalConnection := None;
         isTransactionConnection := false |}
  end.

Section WithDriver.
Variable driver : Driver.

(** [getActiveConnection()] *)
Definition getActiveConnection (this : Connection) : IO PoolConnection :=
  fun history =>
    match isTransactionConnection this, transactionalConnection this with
    | true, Some c => (Ok c, history)
    | _, _ =>
        match pool this with
        | Some p =>
            match getConnection driver p history with
            | Ok c => (Ok c, history ++ [Checkout p c])
            | Throw e => (Throw e, history)
            end
        | None =>
            (Throw (Error "No active database connection or pool available."),
             history)
        end
    end.

(** [releaseConnection(connection)] *)
Definition releaseConnection (this : Connection)
    (connection : option PoolConnection) (history : list event) : list event :=
  match isTransactionConnection this, connection with
  | false, Some c => history ++ [Release c]
  | _, _ => history
  end.

(** [query(sql, params)]: the [try] block, then the [finally] block on
    both ways out of it. *)
Definition query (this : Connection) (sql : string)
    (params : option (list value)) : IO QueryResult :=
  fun history =>
    let '(connection, completion, history) :=
      match getActiveConnection this history with
      | (Throw e, history) => (None, Throw e, history)
      | (Ok c, history) =>
          (Some c, execute driver c sql params history,
           history ++ [Execute c sql params])
      end in
    let history :=
      if negb (isTransactionConnection this)
      then releaseConnection this connection history
      else history in
    (completion, history).

End WithDriver.

(** [end()]: the pool, when there is one, is shut down and forgotten. *)
Definition end_ (this : Connection) : Connection :=
  match pool this with
  | Some _ =>
      {| pool := None; transactionalConnection := transactionalConnection this;
         isTransactionConnection := isTransactionConnection this |}
  | None => this
  end.

End Connection.

(** ** Model *)

Module Model.

Import Connection.

(** Objects in memory.  A property of an object holds a value of its own,
    or a reference to a nested array: a cell of the memory, which whoever
    holds the reference can change in place, and which two objects can
    share. *)
Definition loc : Type := nat.

Inductive field : Type :=
| Plain (v : value)
| Nested (l : loc).

(** An object as a hook finds it: its own properties, and the memory its
    nested values live in. *)
Record Stored : Type := mkStored {
  fields : list (string * field);
  memory : list value
}.

(** What a property holds at the moment: the value of a reference is what
    its cell holds. *)
Definition read (memory : list value) (f : field) : value :=
  match f with
  | Plain v => v
  | Nested l => default VUndefined (memory !! l)
  end.

(** The object as it reads at the moment: what [Object.keys],
    [Object.values] and the driver find. *)
Definition current (o : Stored) : object :=
  map (fun kf => (kf.1, read (memory o) kf.2)) (fields o).

(** An object that holds its values itself, such as a row the driver
    returned. *)
Definition stored (o : object) : Stored :=
  {| fields := map (fun kv => (kv.1, Plain kv.2)) o; memory := [] |}.

(** [o[key] = f] on the properties of an object: an existing property
    keeps its place, a new one is added last. *)
Fixpoint setField (key : string) (f : field) (fs : list (string * field))
  : list (string * field) :=
  match fs with
  | [] => [(key, f)]
  | (k, g) :: fs' =>
      if bool_decide (k = key) then (k, f) :: fs' else (k, g) :: setField key f fs'
  end.

(** [instance[key] = v] *)
Definition assign (key : string) (v : value) (instance : Stored) : Stored :=
  {| fields := setField key (Plain v) (fields instance); memory := memory instance |}.

(** A hook receives the instance, may assign its properties and change in
    place the nested values it reaches through them, and settles. *)
Definition ModelHook : Type := Stored -> result unit * Stored.

Inductive HookType : Type :=
| beforeCreate | afterCreate | beforeUpdate | afterUpdate
| beforeDelete | afterDelete.

Global Instance HookType_eq_dec : EqDecision HookType.
Proof. solve_decision. Defined.

Record Model : Type := mkModel {
  tableName : string;
  _connection : option Connection;
  hooks : HookType -> option (list ModelHook)
}.

(** [addHook(type, hook)] *)
Definition addHook (type : HookType) (hook : ModelHook) (this : Model) : Model :=
  {| tableName := tableName this;
     _connection := _connection this;
     hooks := fun t =>
       if decide (t = type)
       then Some (default [] (hooks this type) ++ [hook])
       else hooks this t |}.

(** The [connection] getter. *)
Definition connection (this : Model) : result Connection :=
  match _connection this with
  | Some c => Ok c
  | None => Throw (Error "Database connection has not been set for this model.")
  end.

(** The [for ... of] loop of [runHooks]: each hook is awaited in turn on
    the same instance; a rejection ends the loop. *)
Fixpoint runHookList (hs : list ModelHook) (instance : Stored)
  : result unit * Stored :=
  match hs with
  | [] => (Ok tt, instance)
  | hook :: rest =>
      match hook instance with
      | (Ok _, instance') => runHookList rest instance'
      | (Throw e, instance') => (Throw e, instance')
      end
  end.

(** [runHooks(type, instance)] *)
Definition runHooks (this : Model) (type : HookType) (instance : Stored)
  : result unit * Stored :=
  match hooks this type with
  | Some hs => runHookList hs instance
  | None => (Ok tt, instance)
  end.

(** [result.insertId]: an array of rows has no such property. *)
Definition insertId (r : QueryResult) : value :=
  match r with
  | Header id _ => VNum id
  | Rows _ => VUndefined
  end.

(** The text of the INSERT statement [create] builds from [data]. *)
Definition insertSql (table : string) (data : object) : string :=
  let columns := join ", " (keys data) in
  let placeholders := join ", " (map (fun _ => "?") (keys data)) in
  "INSERT INTO " +:+ table +:+ " (" +:+ columns +:+ ") VALUES (" +:+ placeholders +:+ ")".

Section WithDriver.
Variable driver : Driver.

(** [create(data)]: the draft is a copy of [data] that shares its nested
    values; the columns and the values of the INSERT are read from [data]
    after the beforeCreate hooks have run. *)
Definition create (this : Model) (data : Stored) : IO Stored :=
  fun history =>
    let newInstance := {| fields := fields data; memory := memory data |} in
    match runHooks this beforeCreate newInstance with
    | (Throw e, _) => (Throw e, history)
    | (Ok _, newInstance) =>
        let data := {| fields := fields data; memory := memory newInstance |} in
        let sql := insertSql (tableName this) (current data) in
        let values := values (current data) in
        match connection this with
        | Throw e => (Throw e, history)
        | Ok conn =>
            match query driver conn sql (Some values) history with
            | (Throw e, history) => (Throw e, history)
            | (Ok result, history) =>
                let newInstance := assign "id" (insertId result) newInstance in
                match runHooks this afterCreate newInstance with
                | (Throw e, _) => (Throw e, history)
                | (Ok _, newInstance) => (Ok newInstance, history)
                end
            end
        end
    end.

End WithDriver.

End Model.

(** ** MigrationRunner *)

Module MigrationRunner.

(** [String.prototype.endsWith] *)
Definition endsWith (s suffix : string) : bool :=
  let n := String.length s in
  let m := String.length suffix in
  (m <=? n)%nat && String.eqb (String.substring (n - m) m s) suffix.

(** [path.parse(file).name] for a file name that ends in [.ts] or [.js]:
    the name without its extension; a name that is nothing but the
    extension is a dot file and has no extension to drop. *)
Definition parseName (file : string) : string :=
  let n := String.length file in
  if (n <=? 3)%nat then file else String.substring 0 (n - 3) file.

(** [String.le] is the order of [Array.prototype.sort()] on strings, and of
    [ORDER BY name ASC] under a binary collation: code units compared left
    to right. *)

Section WithDatabase.

(** The state of the user's tables, which the [up] and [down] procedures
    of the migrations work on. *)
Context {U : Type}.

(** What a migration file exports. *)
Record MigrationModule : Type := mkModule {
  moduleUp : U -> result unit * U;
  moduleDown : U -> result unit * U
}.

Record Migration : Type := mkMigration {
  name : string;
  up : U -> result unit * U;
  down : U -> result unit * U
}.

(** The migrations directory: what [fs.readdir] lists and what [require]
    gives for a file of the directory. *)
Record Directory : Type := mkDirectory {
  readdir : list string;
  require : string -> result MigrationModule
}.

(** What the runner does, in order: it calls a migration's [up] or [down],
    issues the INSERT or DELETE on the ledger for a name, or warns that a
    name has no file. *)
Inductive event : Type :=
| RunUp (n : string)
| InsertRow (n : string)
| RunDown (n : string)
| DeleteRow (n : string)
| Warn (n : string).

Global Instance event_eq_dec : EqDecision event.
Proof. solve_decision. Defined.

(** The database and the history of the run.  [ledger] holds the [name]
    column of the rows of [_fastorm_migrations], in row order. *)
Record World : Type := mkWorld {
  ledger : list string;
  user : U;
  history : list event
}.

Definition IO (A : Type) : Type := World -> result A * World.

(** The [migrationFiles] of [loadMigrations]: the [.ts] and [.js] files of
    the directory, sorted. *)
Definition migrationFiles (dir : Directory) : list string :=
  merge_sort String.le
    (filter (fun file => endsWith file ".ts" || endsWith file ".js" = true)
            (readdir dir)).

(** [loadMigrations()]: a file that fails to load is reported and left
    out. *)
Definition loadMigrations (dir : Directory) : list Migration :=
  foldl (fun migrations file =>
           match require dir file with
           | Ok migrationModule =>
               migrations ++
                 [mkMigration (parseName file) (moduleUp migrationModule)
                    (moduleDown migrationModule)]
           | Throw _ => migrations
           end)
        [] (migrationFiles dir).

(** [getRanMigrations()]: SELECT name ... ORDER BY name ASC *)
Definition getRanMigrations (w : World) : list string :=
  merge_sort String.le (ledger w).

(** INSERT INTO _fastorm_migrations (name) VALUES (?): the column is
    UNIQUE, so a name that has a row is refused. *)
Definition insertRow (n : string) : IO unit :=
  fun w =>
    let h := history w ++ [InsertRow n] in
    if bool_decide (n ∈ ledger w)
    then (Throw (Error "Duplicate entry for key name"), mkWorld (ledger w) (user w) h)
    else (Ok tt, mkWorld (ledger w ++ [n]) (user w) h).

(** DELETE FROM _fastorm_migrations WHERE name = ? *)
Definition deleteRow (n : string) : IO unit :=
  fun w =>
    (Ok tt,
     mkWorld (filter (fun m => m ≠ n) (ledger w)) (user w)
       (history w ++ [DeleteRow n])).

(** Calling a migration procedure on the connection. *)
Definition call (ev : event) (proc : U -> result unit * U) : IO unit :=
  fun w =>
    let '(completion, u) := proc (user w) in
    (completion, mkWorld (ledger w) u (history w ++ [ev])).

Definition warn (n : string) : IO unit :=
  fun w => (Ok tt, mkWorld (ledger w) (user w) (history w ++ [Warn n])).

(** The [for ... of] loop of [migrateUp]. *)
Fixpoint upLoop (availableMigrations : list Migration)
    (ranMigrations : list string) : IO unit :=
  fun w =>
    match availableMigrations with
    | [] => (Ok tt, w)
    | migration :: rest =>
        if bool_decide (name migration ∈ ranMigrations)
        then upLoop rest ranMigrations w
        else
          match call (RunUp (name migration)) (up migration) w with
          | (Throw e, w) => (Throw e, w)
          | (Ok _, w) =>
              match insertRow (name migration) w with
              | (Throw e, w) => (Throw e, w)
              | (Ok _, w) => upLoop rest ranMigrations w
              end
          end
    end.

(** [migrateUp()] *)
Definition migrateUp (dir : Directory) : IO unit :=
  fun w =>
    let availableMigrations := loadMigrations dir in
    let ranMigrations := getRanMigrations w in
    upLoop availableMigrations ranMigrations w.

(** [a.slice(0, end)] *)
Definition slice0 {A} (a : list A) (end_ : Z) : list A :=
  let len := Z.of_nat (length a) in
  let final := if end_ <? 0 then Z.max (len + end_) 0 else Z.min end_ len in
  take (Z.to_nat final) a.

(** Setting the entries in turn on a map: a later entry replaces an earlier
    one with the same key. *)
Definition newMapFrom (acc : gmap string Migration)
    (entries : list (string * Migration)) : gmap string Migration :=
  foldl (fun m kv => <[kv.1 := kv.2]> m) acc entries.

(** [new Map(entries)] *)
Definition newMap (entries : list (string * Migration)) : gmap string Migration :=
  newMapFrom ∅ entries.

(** The [for ... of] loop of [migrateDown]. *)
Fixpoint downLoop (availableMigrationsMap : gmap string Migration)
    (migrationsToRollback : list string) : IO unit :=
  fun w =>
    match migrationsToRollback with
    | [] => (Ok tt, w)
    | migrationName :: rest =>
        match availableMigrationsMap !! migrationName with
        | Some migration =>
            match call (RunDown (name migration)) (down migration) w with
            | (Throw e, w) => (Throw e, w)
            | (Ok _, w) =>
                match deleteRow (name migration) w with
                | (Throw e, w) => (Throw e, w)
                | (Ok _, w) => downLoop availableMigrationsMap rest w
                end
            end
        | None =>
            match warn migrationName w with
            | (Throw e, w) => (Throw e, w)
            | (Ok _, w) => downLoop availableMigrationsMap rest w
            end
        end
    end.

(** The names [migrateDown(steps)] selects. *)
Definition migrationsToRollback (ranMigrations : list string) (steps : Z)
  : list string :=
  slice0 (reverse ranMigrations) steps.

Definition availableMigrationsMap (dir : Directory) : gmap string Migration :=
  newMap (map (fun m => (name m, m)) (loadMigrations dir)).

(** [migrateDown(steps)] *)
Definition migrateDown (dir : Directory) (steps : Z) : IO unit :=
  fun w =>
    let ranMigrations := getRanMigrations w in
    if bool_decide (length ranMigrations = 0%nat) then (Ok tt, w)
    else
      downLoop (availableMigrationsMap dir)
        (migrationsToRollback ranMigrations steps) w.

End WithDatabase.

Arguments MigrationModule : clear implicits.
Arguments Migration : clear implicits.
Arguments Directory : clear implicits.
Arguments World : clear implicits.

End MigrationRunner.

(** ** QueryBuilder: terminal operations *)

Module Terminal.

Import QueryBuilder Connection.

(** An asynchronous method of the builder: it may assign fields of [this],
    extends the history of the driver, and settles. *)
Definition Async (A : Type) : Type :=
  QueryBuilder -> list event -> result A * QueryBuilder * list event.

(** [results[0] || null] *)
Definition firstRow (results : QueryResult) : option object :=
  match results with
  | Rows (row :: _) => Some row
  | _ => None
  end.

(** [result[0]?.field] *)
Definition firstField (field : string) (results : QueryResult) : value :=
  match results with
  | Rows (row :: _) => getProp field row
  | _ => VUndefined
  end.

(** Whether a value counts as true in a condition. *)
Definition truthy (v : value) : bool :=
  match v with
  | VUndefined | VNull => false
  | VBool b => b
  | VNum n => negb (n =? 0)
  | VStr s => negb (bool_decide (s = ""))
  | VArr _ => true
  end.

(** [v || 0] *)
Definition orZero (v : value) : value := if truthy v then v else VNum 0.

Section WithConnection.

(** The driver, and the [connection] field the builder is constructed
    with. *)
Variable driver : Driver.
Variable connection : Connection.

(** [get()] *)
Definition get : Async QueryResult :=
  fun this history =>
    match buildSql this with
    | (Throw e, this) => (Throw e, this, history)
    | (Ok (sql, params), this) =>
        let '(completion, history) :=
          query driver connection sql (Some params) history in
        (completion, this, history)
    end.

(** [getRaw()] *)
Definition getRaw : Async QueryResult := get.

(** [first()] *)
Definition first : Async (option object) :=
  fun this history =>
    let this := (limit 1 this).2 in
    match get this history with
    | (Throw e, this, history) => (Throw e, this, history)
    | (Ok results, this, history) => (Ok (firstRow results), this, history)
    end.

(** The body shared by [count], [sum] and [avg]: the select list is
    assigned, the statement runs, and the field is read off the first
    row. *)
Definition aggregate (expression field : string) : Async value :=
  fun this history =>
    let this := set_selectColumns [expression +:+ " as " +:+ field] this in
    match getRaw this history with
    | (Throw e, this, history) => (Throw e, this, history)
    | (Ok results, this, history) =>
        (Ok (orZero (firstField field results)), this, history)
    end.

(** [count(column = '*')] *)
Definition count (column : option string) : Async value :=
  aggregate ("COUNT(" +:+ default "*" column +:+ ")") "count".

(** [sum(column)] *)
Definition sum (column : string) : Async value :=
  aggregate ("SUM(" +:+ column +:+ ")") "sum".

(** [avg(column)] *)
Definition avg (column : string) : Async value :=
  aggregate ("AVG(" +:+ column +:+ ")") "avg".

End WithConnection.

End Terminal.

(** ** Model: reading, updating and deleting *)

Module ModelCrud.

Import QueryBuilder Connection Model Terminal.

(** [{ ...existing, ...data }] on the properties of two objects. *)
Definition merge (existing data : list (string * field)) : list (string * field) :=
  foldl (fun o kf => setField kf.1 kf.2 o) existing data.

(** [result.affectedRows > 0]: an array of rows has no such property. *)
Definition affected (r : QueryResult) : bool :=
  match r with
  | Header _ affectedRows => 0 <? affectedRows
  | Rows _ => false
  end.

(** The text of the UPDATE statement [update] builds from [data]. *)
Definition updateSql (table : string) (data : object) : string :=
  let setClauses := join ", " (map (fun key => key +:+ " = ?") (keys data)) in
  "UPDATE " +:+ table +:+ " SET " +:+ setClauses +:+ " WHERE id = ?".

(** The text of the DELETE statement of [delete]. *)
Definition deleteSql (table : string) : string :=
  "DELETE FROM " +:+ table +:+ " WHERE id = ?".

Section WithDriver.
Variable driver : Driver.

(** [findById(id)] *)
Definition findById (this : Model) (id : Z) : IO (option object) :=
  fun history =>
    match connection this with
    | Throw e => (Throw e, history)
    | Ok conn =>
        let builder :=
          (where_ "id" "=" (VNum id) (QueryBuilder.new (Model.tableName this))).2 in
        let '(completion, _, history) := first driver conn builder history in
        (completion, history)
    end.

(** [findAll()] *)
Definition findAll (this : Model) : IO QueryResult :=
  fun history =>
    match connection this with
    | Throw e => (Throw e, history)
    | Ok conn =>
        let '(completion, _, history) :=
          get driver conn (QueryBuilder.new (Model.tableName this)) history in
        (completion, history)
    end.

(** [update(id, data)]: the instance handed to the hooks has the
    properties of the record with those of [data] laid over them, and
    shares the nested values of [data]; the columns and the values of the
    UPDATE are read from [data] after the beforeUpdate hooks have run. *)
Definition update (this : Model) (id : Z) (data : Stored) : IO bool :=
  fun history =>
    match findById this id history with
    | (Throw e, history) => (Throw e, history)
    | (Ok None, history) => (Ok false, history)
    | (Ok (Some existingInstance), history) =>
        let updatedInstance :=
          {| fields := merge (fields (stored existingInstance)) (fields data);
             memory := memory data |} in
        match runHooks this beforeUpdate updatedInstance with
        | (Throw e, _) => (Throw e, history)
        | (Ok _, updatedInstance) =>
            let data := {| fields := fields data; memory := memory updatedInstance |} in
            let sql := updateSql (Model.tableName this) (current data) in
            let values := values (current data) ++ [VNum id] in
            match connection this with
            | Throw e => (Throw e, history)
            | Ok conn =>
                match query driver conn sql (Some values) history with
                | (Throw e, history) => (Throw e, history)
                | (Ok result, history) =>
                    if affected result then
                      match runHooks this afterUpdate updatedInstance with
                      | (Throw e, _) => (Throw e, history)
                      | (Ok _, _) => (Ok true, history)
                      end
                    else (Ok false, history)
                end
            end
        end
    end.

(** [delete(id)] *)
Definition delete (this : Model) (id : Z) : IO bool :=
  fun history =>
    match findById this id history with
    | (Throw e, history) => (Throw e, history)
    | (Ok None, history) => (Ok false, history)
    | (Ok (Some instanceToDelete), history) =>
        match runHooks this beforeDelete (stored instanceToDelete) with
        | (Throw e, _) => (Throw e, history)
        | (Ok _, instanceToDelete) =>
            let sql := deleteSql (Model.tableName this) in
            match connection this with
            | Throw e => (Throw e, history)
            | Ok conn =>
                match query driver conn sql (Some [VNum id]) history with
                | (Throw e, history) => (Throw e, history)
                | (Ok result, history) =>
                    if affected result then
                      match runHooks this afterDelete instanceToDelete with
                      | (Throw e, _) => (Throw e, history)
                      | (Ok _, _) => (Ok true, history)
                      end
                    else (Ok false, history)
                end
            end
        end
    end.

End WithDriver.

End ModelCrud.

(** ** FastOrm: transactions *)

Module FastOrm.

Import Connection.

Section WithDriver.
Variable driver : Driver.

(** The driver's [beginTransaction()], [commit()] and [rollback()] on a
    pooled connection are the statements START TRANSACTION, COMMIT and
    ROLLBACK sent on that connection. *)
Definition statement (c : PoolConnection) (sql : string) : IO unit :=
  fun history =>
    (match execute driver c sql None history with
     | Ok _ => Ok tt
     | Throw e => Throw e
     end,
     history ++ [Execute c sql None]).

(** [Connection.beginTransaction()] *)
Definition beginTransaction (this : Connection) : IO PoolConnection :=
  fun history =>
    if isTransactionConnection this then
      (Throw (Error "Cannot begin a transaction from a transactional connection."),
       history)
    else
      match getActiveConnection driver this history with
      | (Throw e, history) => (Throw e, history)
      | (Ok connection, history) =>
          match statement connection "START TRANSACTION" history with
          | (Throw e, history) => (Throw e, history)
          | (Ok _, history) => (Ok connection, history)
          end
      end.

(** [Connection.commitTransaction(connection)] *)
Definition commitTransaction (connection : PoolConnection) : IO unit :=
  statement connection "COMMIT".

(** [Connection.rollbackTransaction(connection)] *)
Definition rollbackTransaction (connection : PoolConnection) : IO unit :=
  statement connection "ROLLBACK".

(** [FastOrm] holds the pool-backed connection its constructor makes. *)
Record FastOrm : Type := mkFastOrm { connection : Connection }.

(** [new FastOrm(config)] *)
Definition new (createPool : Pool) : FastOrm :=
  {| connection := Connection.new (PoolOptions createPool) |}.

(** [transaction(callback)]: the [try] block, the [catch] block on a
    throw, and the [finally] block on every way out.  The callback is
    handed the transaction-bound connection (the models it is handed with
    it are models on that connection). *)
Definition transaction {R : Type} (this : FastOrm)
    (callback : Connection -> IO R) : IO R :=
  fun history =>
    (* try *)
    let '(conn, completion, history) :=
      match beginTransaction (connection this) history with
      | (Throw e, history) => (None, Throw e, history)
      | (Ok conn, history) =>
          let trxConnection := Connection.new (OpenConnection conn) in
          match callback trxConnection history with
          | (Throw e, history) => (Some conn, Throw e, history)
          | (Ok result, history) =>
              match commitTransaction conn history with
              | (Throw e, history) => (Some conn, Throw e, history)
              | (Ok _, history) => (Some conn, Ok result, history)
              end
          end
      end in
    (* catch *)
    let '(completion, history) :=
      match completion, conn with
      | Throw e, Some conn =>
          match rollbackTransaction conn history with
          | (Throw e', history) => (Throw e', history)
          | (Ok _, history) => (Throw e, history)
          end
      | _, _ => (completion, history)
      end in
    (* finally *)
    let history :=
      match conn with
      | Some conn => releaseConnection (connection this) (Some conn) history
      | None => history
      end in
    (completion, history).

(** [disconnect()] *)
Definition disconnect (this : FastOrm) : FastOrm :=
  {| connection := end_ (connection this) |}.

End WithDriver.

End FastOrm.

(** ** MigrationRunner: new migration files *)

Module MigrationFiles.

(** [s.replace(/[-:.]/g, "")] *)
Fixpoint stripSeparators (s : string) : string :=
  match s with
  | EmptyString => EmptyString
  | String a s' =>
      if bool_decide (a = "-"%char) || bool_decide (a = ":"%char)
         || bool_decide (a = "."%char)
      then stripSeparators s'
      else String a (stripSeparators s')
  end.

(** The [timestamp] of [createMigrationFile], from the text that
    [new Date().toISOString()] gives. *)
Definition timestamp (iso : string) : string :=
  String.substring 0 14 (stripSeparators iso).

(** The [fileName] of [createMigrationFile]. *)
Definition fileName (iso name : string) : string :=
  timestamp iso +:+ "_" +:+ name +:+ ".ts".

(** A POSIX path, resolved and normalized: its segments from the root
    down. *)
Definition path : Type := list string.

(** [s.split("/")] *)
Fixpoint split (s : string) : list string :=
  match s with
  | EmptyString => [EmptyString]
  | String a s' =>
      if Ascii.eqb a "/" then EmptyString :: split s'
      else match split s' with
           | segment :: rest => String a segment :: rest
           | [] => [String a EmptyString]
           end
  end.

(** One segment followed from a path, as [path.join] normalizes: an empty
    segment and [.] stay where they are, [..] goes to the parent, and the
    parent of the root is the root. *)
Definition follow (p : path) (segment : string) : path :=
  if bool_decide (segment = "" ∨ segment = ".") then p
  else if bool_decide (segment = "..") then removelast p
  else p ++ [segment].

(** [path.join(dir, fileName)] for the directory that resolves to [dir]. *)
Definition pathJoin (dir : path) (fileName : string) : path :=
  foldl follow dir (split fileName).

(** The file system: the directories and the files there are, by path.
    The root is a directory. *)
Record FileSystem : Type := mkFileSystem {
  directories : list path;
  files : list path
}.

Definition isDirectory (fs : FileSystem) (p : path) : bool :=
  bool_decide (p = [] ∨ p ∈ directories fs).

(** The path and the paths above it, the root left out. *)
Definition upTo (p : path) : list path :=
  map (fun n => take n p) (seq 1 (length p)).

(** Whether a file is where a directory is needed: at [p] or above it. *)
Definition blocked (fs : FileSystem) (p : path) : bool :=
  bool_decide (Exists (fun q => q ∈ files fs) (upTo p)).

(** [fs.mkdir(dir, { recursive: true })]: the directory and the missing
    directories above it are made; a file in the way makes it fail. *)
Definition mkdir (dir : path) (fs : FileSystem) : result unit * FileSystem :=
  if blocked fs dir then (Throw (Error "EEXIST"), fs)
  else
    (Ok tt,
     {| directories :=
          directories fs ++ filter (fun q => q ∉ directories fs) (upTo dir);
        files := files fs |}).

(** [fs.writeFile(p, data)]: the file is made, or written over; the
    directory it is in has to be there. *)
Definition writeFile (p : path) (fs : FileSystem) : result unit * FileSystem :=
  if isDirectory fs p then (Throw (Error "EISDIR"), fs)
  else if isDirectory fs (removelast p) then
    (Ok tt,
     {| directories := directories fs;
        files := if bool_decide (p ∈ files fs) then files fs else files fs ++ [p] |})
  else if blocked fs (removelast p) then (Throw (Error "ENOTDIR"), fs)
  else (Throw (Error "ENOENT"), fs).

(** [fs.readdir(dir)]: the names of what is in the directory. *)
Definition readdir (dir : path) (fs : FileSystem) : list string :=
  omap (fun p => if bool_decide (p ≠ [] ∧ removelast p = dir) then last p else None)
       (directories fs ++ files fs).

(** [createMigrationFile(name)] at the time [iso], for the runner whose
    [migrationsDir] resolves to the path given: the directory is made,
    then the file written; the path returned is the path of the file. *)
Definition createMigrationFile (migrationsDir : path) (iso name : string)
    (fs : FileSystem) : result path * FileSystem :=
  let filePath := pathJoin migrationsDir (fileName iso name) in
  match mkdir migrationsDir fs with
  | (Throw e, fs) => (Throw e, fs)
  | (Ok _, fs) =>
      match writeFile filePath fs with
      | (Throw e, fs) => (Throw e, fs)
      | (Ok _, fs) => (Ok filePath, fs)
      end
  end.

End MigrationFiles.

(** ** TypeMapper *)

Module TypeMapper.

(** [toLowerCase] on one code unit below 256: the letters A to Z and the
    capital letters of Latin-1. *)
Definition lowerChar (a : ascii) : ascii :=
  let n := N_of_ascii a in
  if ((65 <=? n) && (n <=? 90) ||
      (192 <=? n) && (n <=? 222) && negb (n =? 215))%N
  then ascii_of_N (n + 32)
  else a.

(** [s.toLowerCase()] *)
Fixpoint toLowerCase (s : string) : string :=
  match s with
  | EmptyString => EmptyString
  | String a s' => String (lowerChar a) (toLowerCase s')
  end.

(** [mapMySQLTypeToTypeScriptType(mysqlType, isNullable)] *)
Definition mapMySQLTypeToTypeScriptType (mysqlType isNullable : string) : string :=
  let t := toLowerCase mysqlType in
  let tsType :=
    if bool_decide (t ∈ ["int"; "tinyint"; "smallint"; "mediumint"; "bigint";
                         "float"; "double"; "decimal"])
    then "number"
    else if bool_decide (t ∈ ["char"; "varchar"; "text"; "tinytext"; "mediumtext";
                              "longtext"; "enum"; "set"])
    then "string"
    else if bool_decide (t ∈ ["date"; "datetime"; "timestamp"])
    then "Date"
    else if bool_decide (t ∈ ["boolean"; "bool"])
    then "boolean"
    else if bool_decide (t = "json")
    then "any"
    else "any" in
  if bool_decide (isNullable = "YES") then tsType +:+ " | null" else tsType.

End TypeMapper.

(** ** ModelGenerator: class names *)

Module ModelGenerator.

(** [\w]: a letter, a digit or an underscore. *)
Definition isWord (a : ascii) : bool :=
  let n := N_of_ascii a in
  ((65 <=? n) && (n <=? 90) || (97 <=? n) && (n <=? 122) ||
   (48 <=? n) && (n <=? 57) || (n =? 95))%N.

(** [c.toUpperCase()] for a word character [c]. *)
Definition upperChar (a : ascii) : ascii :=
  let n := N_of_ascii a in
  if ((97 <=? n) && (n <=? 122))%N then ascii_of_N (n - 32) else a.

(** [str.replace(/_(\w)/g, (_, c) => c.toUpperCase())]: the matches are
    found left to right and do not overlap. *)
Fixpoint replaceUnderscores (s : string) : string :=
  match s with
  | EmptyString => EmptyString
  | String a s' =>
      match s' with
      | String c s'' =>
          if bool_decide (a = "_"%char) && isWord c
          then String (upperChar c) (replaceUnderscores s'')
          else String a (replaceUnderscores s')
      | EmptyString => String a EmptyString
      end
  end.

(** [str.replace(/^\w/, (c) => c.toUpperCase())] *)
Definition capitalize (s : string) : string :=
  match s with
  | String a s' => if isWord a then String (upperChar a) s' else s
  | EmptyString => EmptyString
  end.

(** [toPascalCase(str)] *)
Definition toPascalCase (str : string) : string :=
  capitalize (replaceUnderscores str).

(** The file name [writeModelFile] writes the model of a table to, in the
    output directory. *)
Definition modelFileName (tableName : string) : string :=
  toPascalCase tableName +:+ ".ts".

End ModelGenerator.

(** * Vocabulary of the properties *)

Module QueryBuilderSpec.
Import QueryBuilder.

(** Number of [?] placeholders in SQL text. *)
Definition placeholders (sql : string) : nat := countChar "?" sql.

(** The operators [buildWhereClause] writes placeholders for. *)
Definition special (operator : string) : bool :=
  bool_decide (operator = "IN") || bool_decide (operator = "NOT IN") ||
  bool_decide (operator = "BETWEEN") || bool_decide (operator = "NOT BETWEEN") ||
  bool_decide (operator = "IS NULL") || bool_decide (operator = "IS NOT NULL").

(** Number of basic clauses, at any depth, whose operator is none of
    those. *)
Fixpoint plainBasics (c : WhereClause) : nat :=
  match c with
  | Basic _ _ operator _ => if special operator then 0%nat else 1%nat
  | Group _ inner => sum_list (map plainBasics inner)
  | Raw _ _ _ => 0%nat
  end.

(** A clause whose column and operator texts hold no [?] and whose raw
    fragments hold as many [?] as they have parameters, at any depth. *)
Fixpoint balanced (c : WhereClause) : bool :=
  match c with
  | Basic _ column operator _ =>
      Nat.eqb (placeholders column) 0 && Nat.eqb (placeholders operator) 0
  | Group _ inner => forallb balanced inner
  | Raw _ sql ps => Nat.eqb (placeholders sql) (length ps)
  end.

(** The text and parameters of one clause without any conjunction in front:
    a basic clause is its column and operator part, a group is its compiled
    clauses in parentheses, a raw clause is its SQL in parentheses. *)
Definition clauseBody (c : WhereClause) : result (string * list value) :=
  match c with
  | Basic _ column operator v =>
      match operatorPart operator v with
      | Ok (opPart, pushed) => Ok (column +:+ " " +:+ opPart, pushed)
      | Throw e => Throw e
      end
  | Group _ inner =>
      match buildWhereClause inner with
      | Ok (nestedSql, nestedParams) => Ok ("(" +:+ nestedSql +:+ ")", nestedParams)
      | Throw e => Throw e
      end
  | Raw _ sql ps => Ok ("(" +:+ sql +:+ ")", ps)
  end.

(** What precedes a clause at position [index] of its sequence. *)
Definition conjunction (index : nat) (c : WhereClause) : string :=
  if Nat.eqb index 0 then "" else keyword (boolean c) +:+ " ".

(** Evaluate the placeholder count of the string literals of the goal. *)
Ltac literal_placeholders :=
  repeat match goal with
         | |- context [placeholders (String ?a ?s)] =>
             let n := eval vm_compute in (placeholders (String a s)) in
             change (placeholders (String a s)) with n
         end.

End QueryBuilderSpec.

Module ConnectionSpec.
Import Connection.

(** The connections checked out of a pool, and the connections released,
    in a stretch of history, in order. *)
Definition checkouts (evs : list event) : list PoolConnection :=
  omap (λ ev, match ev with Checkout _ c => Some c | _ => None end) evs.
Definition releases (evs : list event) : list PoolConnection :=
  omap (λ ev, match ev with Release c => Some c | _ => None end) evs.
Definition executions (evs : list event) : list PoolConnection :=
  omap (λ ev, match ev with Execute c _ _ => Some c | _ => None end) evs.

(** The statements executed in a stretch of history. *)
Definition statements (evs : list event) : list (string * option (list value)) :=
  omap (λ ev, match ev with Execute _ sql ps => Some (sql, ps) | _ => None end) evs.

(** *** Example drivers

    Both hand out connection 3; one refuses every statement, the other
    answers every statement with insert id 7 and one affected row. *)
Definition refusing : Driver :=
  mkDriver (λ _ _, Ok 3%nat) (λ _ _ _ _, Throw (Error "ER_PARSE_ERROR")).
Definition accepting : Driver :=
  mkDriver (λ _ _, Ok 3%nat) (λ _ _ _ _, Ok (Header 7 1)).

End ConnectionSpec.

(** ** Model: objects that share a nested value *)

Module ModelSpec.
Import Model.

(** The property [key] of an object, if it has one. *)
Fixpoint getField (key : string) (fs : list (string * field)) : option field :=
  match fs with
  | [] => None
  | (k, f) :: fs' => if bool_decide (k = key) then Some f else getField key fs'
  end.

(** The hook [instance => { instance[key].push(v) }]: it appends to the
    array the property refers to, in place. *)
Definition push (key : string) (v : value) : ModelHook :=
  λ instance,
    match getField key (fields instance) with
    | Some (Nested l) =>
        match memory instance !! l with
        | Some (VArr xs) =>
            (Ok tt, mkStored (fields instance) (<[l := VArr (xs ++ [v])]> (memory instance)))
        | _ => (Throw (TypeError "push is not a function"), instance)
        end
    | _ => (Throw (TypeError "push is not a function"), instance)
    end.

(** A post with a title and an array of tags. *)
Definition post : Stored :=
  mkStored [("title", Plain (VStr "t")); ("tags", Nested 0%nat)] [VArr [VStr "a"]].

End ModelSpec.

Module MigrationRunnerSpec.
Import MigrationRunner.

(** The history of applying the migrations named [names] one after the
    other: each [up] is followed at once by the INSERT of its ledger row. *)
Definition upEvents (names : list string) : list event :=
  names ≫= λ n, [RunUp n; InsertRow n].

(** The history of rolling back the ledger entries [names] one after the
    other with the definitions of [defs]: [down] and the DELETE of the row
    for an entry that has a definition, a warning for one that has none. *)
Definition downEvents {U} (defs : gmap string (Migration U)) (names : list string)
  : list event :=
  names ≫= λ n,
    match defs !! n with
    | Some _ => [RunDown n; DeleteRow n]
    | None => [Warn n]
    end.

(** The entries among [names] that have a definition. *)
Definition defined {U} (defs : gmap string (Migration U)) (names : list string)
  : list string :=
  filter (λ n, is_Some (defs !! n)) names.

(** The files of the directory that [loadMigrations] loads, in its order. *)
Definition loadedFiles {U} (dir : Directory U) : list string :=
  filter (λ file, isOk (require dir file) = true) (migrationFiles dir).

(** The migrations of [available] that [migrateUp] has to apply on a
    ledger [applied]. *)
Definition pending {U} (available : list (Migration U)) (applied : list string)
  : list (Migration U) :=
  filter (λ m, name m ∉ applied) available.

(** *** Example directories

    Their migrations work on no table at all and never fail. *)

Definition idle : unit → result unit * unit := λ u, (Ok tt, u).

(** Three migrations and a file that is none, listed out of order. *)
Definition threeFiles : Directory unit :=
  mkDirectory ["003_c.ts"; "001_a.ts"; "notes.md"; "002_b.ts"]
    (λ _, Ok (mkModule idle idle)).

(** The same directory after the file of the second migration was lost. *)
Definition twoOfThree : Directory unit :=
  mkDirectory ["003_c.ts"; "001_a.ts"; "notes.md"]
    (λ _, Ok (mkModule idle idle)).

(** Procedures run one after the other on the user's tables, each on the
    state the one before left; the first that fails ends the run. *)
Fixpoint runAll {U} (procs : list (U → result unit * U)) (u : U) : result unit * U :=
  match procs with
  | [] => (Ok tt, u)
  | proc :: rest =>
      match proc u with
      | (Ok _, u') => runAll rest u'
      | (Throw e, u') => (Throw e, u')
      end
  end.

(** The [down] procedures of the entries among [names] that have a
    definition, in the order of [names]. *)
Definition downsOf {U} (defs : gmap string (Migration U)) (names : list string)
  : list (U → result unit * U) :=
  omap (λ n, down <$> defs !! n) names.

(** A procedure that writes one line to a log and returns; a directory
    whose migrations log their runs, and whose user tables are that log. *)
Definition record (line : string) : list string → result unit * list string :=
  λ log, (Ok tt, log ++ [line]).

Definition recording (files : list string) : Directory (list string) :=
  mkDirectory files
    (λ file, Ok (mkModule (record ("up " +:+ parseName file))
                          (record ("down " +:+ parseName file)))).

(** A database with an empty ledger and an empty log. *)
Definition start : World (list string) := mkWorld [] [] [].

(** The same with three ledger rows, written out of order. *)
Definition threeRows : World (list string) :=
  mkWorld ["002_b"; "001_a"; "003_c"] [] [].

(** Three migrations and a file that is none, listed out of order, and the
    same directory after the file of the second migration was lost. *)
Definition threeLogged : Directory (list string) :=
  recording ["003_c.ts"; "001_a.ts"; "notes.md"; "002_b.ts"].
Definition twoOfThreeLogged : Directory (list string) :=
  recording ["003_c.ts"; "001_a.ts"; "notes.md"].

(** Two migrations made in the same second, the name of one a prefix of
    the name of the other. *)
Definition twoFiles : Directory (list string) :=
  recording ["20240101120000_users.ts"; "20240101120000_users-roles.ts"].

(** Three migrations whose second [up] writes to the log and then fails. *)
Definition brokenUp : Directory (list string) :=
  mkDirectory ["001_a.ts"; "002_b.ts"; "003_c.ts"]
    (λ file, if String.eqb file "002_b.ts"
             then Ok (mkModule (λ log, (Throw (Error "up failed"), log ++ ["up 002_b, in part"]))
                               (record "down 002_b"))
             else Ok (mkModule (record ("up " +:+ parseName file))
                               (record ("down " +:+ parseName file)))).

Global Arguments downEvents : simpl never.
Global Arguments defined : simpl never.

End MigrationRunnerSpec.

Module CompileSpec.
Import QueryBuilder QueryBuilderSpec.

(** Whether a value is an array, and whether it is [null] or
    [undefined]. *)
Definition isArray (v : value) : bool :=
  match v with VArr _ => true | _ => false end.
Definition nullish (v : value) : bool :=
  match v with VUndefined | VNull => true | _ => false end.

(** A clause whose values [buildWhereClause] can read: an array under IN
    and NOT IN, anything but [null] and [undefined] under BETWEEN and NOT
    BETWEEN, at any depth. *)
Fixpoint wellTyped (c : WhereClause) : bool :=
  match c with
  | Basic _ _ operator v =>
      if bool_decide (operator = "IN") || bool_decide (operator = "NOT IN")
      then isArray v
      else if bool_decide (operator = "BETWEEN")
              || bool_decide (operator = "NOT BETWEEN")
      then negb (nullish v)
      else true
  | Group _ inner => forallb wellTyped inner
  | Raw _ _ _ => true
  end.

(** The sections of a SELECT statement, each with the blank that sets it
    off, and empty when the builder has nothing for it. *)
Definition selectText (this : QueryBuilder) : string :=
  "SELECT " +:+ join ", " (selectColumns this) +:+ " FROM " +:+ tableName this.

Definition joinText (j : JoinClause) : string :=
  " " +:+ joinTypeText (joinType j) +:+ " JOIN " +:+ joinTable j +:+ " ON " +:+ joinOn j.

Definition joinsText (this : QueryBuilder) : string :=
  foldr String.append "" (map joinText (joinClauses this)).

Definition groupByText (this : QueryBuilder) : string :=
  match groupByColumns this with
  | [] => ""
  | columns => " GROUP BY " +:+ join ", " columns
  end.

Definition havingText (this : QueryBuilder) : string :=
  match havingConditions this with
  | [] => ""
  | conditions =>
      " HAVING " +:+
      join " AND " (map (λ h, columnText h +:+ " " +:+ operatorText h +:+ " ?") conditions)
  end.

Definition orderByText (this : QueryBuilder) : string :=
  match orderByConditions this with
  | [] => ""
  | conditions =>
      " ORDER BY " +:+
      join ", " (map (λ o, o.1 +:+ " " +:+ directionText o.2) conditions)
  end.

Definition limitText (this : QueryBuilder) : string :=
  match limitValue this with Some _ => " LIMIT ?" | None => "" end.

Definition offsetText (this : QueryBuilder) : string :=
  match offsetValue this with Some _ => " OFFSET ?" | None => "" end.

(** The WHERE section and its parameters. *)
Definition whereSection (this : QueryBuilder) : result (string * list value) :=
  match whereClauses this with
  | [] => Ok ("", [])
  | clauses =>
      match buildWhereClause clauses with
      | Ok (whereSql, whereParams) => Ok (" WHERE " +:+ whereSql, whereParams)
      | Throw e => Throw e
      end
  end.

(** The parameters of the sections other than WHERE. *)
Definition joinsParams (this : QueryBuilder) : list value :=
  concat (map joinParams (joinClauses this)).
Definition havingParams (this : QueryBuilder) : list value :=
  map valueOf (havingConditions this).
Definition pagingParams (this : QueryBuilder) : list value :=
  match limitValue this with Some n => [VNum n] | None => [] end ++
  match offsetValue this with Some n => [VNum n] | None => [] end.

(** Text without a [?]. *)
Definition unmarked (s : string) : bool := Nat.eqb (placeholders s) 0.

(** A plan whose identifiers hold no [?], whose joins have as many [?] in
    their ON text as they have parameters, and whose predicates are
    balanced and use none of the ordinary comparison operators. *)
Definition markedOnlyForParameters (this : QueryBuilder) : bool :=
  unmarked (tableName this) &&
  forallb unmarked (selectColumns this) &&
  forallb (λ j, unmarked (joinTable j) &&
                Nat.eqb (placeholders (joinOn j)) (length (joinParams j)))
          (joinClauses this) &&
  forallb (λ c, balanced c && Nat.eqb (plainBasics c) 0) (whereClauses this) &&
  forallb unmarked (groupByColumns this) &&
  forallb (λ h, unmarked (columnText h) && unmarked (operatorText h))
          (havingConditions this) &&
  forallb (λ o, unmarked o.1) (orderByConditions this).

(** The calls of a chain that cannot throw. *)
Inductive call : Type :=
| Select (columns : list string)
| AddWhere (clause : WhereClause)
| Limit (count : Z)
| Offset (count : Z)
| OrderBy (column : string) (direction : Direction)
| GroupBy (columns : list string)
| Having (column operator : string) (v : value).

Definition run (c : call) : M unit :=
  match c with
  | Select columns => select columns
  | AddWhere clause => addWhere clause
  | Limit count => limit count
  | Offset count => offset count
  | OrderBy column direction => orderBy column direction
  | GroupBy columns => groupBy columns
  | Having column operator v => having column operator v
  end.

(** The part of the plan a call writes to. *)
Inductive part : Type :=
| Columns | Predicates | LimitPart | OffsetPart | Ordering | Grouping | HavingPart.

Definition writes (c : call) : part :=
  match c with
  | Select _ => Columns
  | AddWhere _ => Predicates
  | Limit _ => LimitPart
  | Offset _ => OffsetPart
  | OrderBy _ _ => Ordering
  | GroupBy _ => Grouping
  | Having _ _ _ => HavingPart
  end.

End CompileSpec.

Module TerminalSpec.
Import Connection.

(** *** Example drivers

    Both hand out connection 3; one answers every statement with the one
    row of user 5, the other with no row. *)
Definition userRow : object := [("id", VNum 5); ("name", VStr "x")].
Definition answering : Driver :=
  mkDriver (λ _ _, Ok 3%nat) (λ _ _ _ _, Ok (Rows [userRow])).
Definition empty : Driver :=
  mkDriver (λ _ _, Ok 3%nat) (λ _ _ _ _, Ok (Rows [])).

(** A connection on pool 0. *)
Definition pooled : Connection := new (PoolOptions 0%nat).

End TerminalSpec.


(** ** MigrationRunner: example directories *)

Module LedgerSpec.
Import MigrationRunner MigrationRunnerSpec.

(** A procedure that fails and changes nothing. *)
Definition failing : unit → result unit * unit :=
  λ u, (Throw (Error "down failed"), u).

(** One migration compiled next to its source: two files, one name. *)
Definition sharedName : Directory (list string) := recording ["a.ts"; "a.js"].

(** Three migrations, the [down] of the second one failing. *)
Definition brokenDown : Directory unit :=
  mkDirectory ["001_a.ts"; "002_b.ts"; "003_c.ts"]
    (λ file, if String.eqb file "002_b.ts"
             then Ok (mkModule idle failing)
             else Ok (mkModule idle idle)).

End LedgerSpec.


(** ** MigrationRunner: the time of a new migration file *)

Module MigrationFilesSpec.

Definition isDigit (a : ascii) : bool :=
  let n := N_of_ascii a in ((48 <=? n) && (n <=? 57))%N.

(** A text of [n] digits. *)
Fixpoint digits (n : nat) (s : string) : bool :=
  match n, s with
  | O, EmptyString => true
  | S n', String a s' => isDigit a && digits n' s'
  | _, _ => false
  end.

(** The text [Date.prototype.toISOString()] gives for a date of the years
    0000 to 9999: [YYYY-MM-DDTHH:mm:ss.sssZ]. *)
Definition toISOString (year month day hours minutes seconds millis : string)
  : string :=
  year +:+ "-" +:+ month +:+ "-" +:+ day +:+ "T" +:+
  hours +:+ ":" +:+ minutes +:+ ":" +:+ seconds +:+ "." +:+ millis +:+ "Z".

(** A text with no [/] in it. *)
Definition plain (s : string) : bool := Nat.eqb (countChar "/" s) 0.

End MigrationFilesSpec.


(** ** TypeMapper and ModelGenerator: kinds of text *)

Module TextSpec.

(** Every character of [s] is one of [p]. *)
Fixpoint allChars (p : ascii → bool) (s : string) : bool :=
  match s with
  | EmptyString => true
  | String a s' => p a && allChars p s'
  end.

Definition isLower (a : ascii) : bool :=
  let n := N_of_ascii a in ((97 <=? n) && (n <=? 122))%N.

(** A letter A to Z or a to z. *)
Definition isLetter (a : ascii) : bool :=
  let n := N_of_ascii a in
  ((65 <=? n) && (n <=? 90) || (97 <=? n) && (n <=? 122))%N.

(** A letter or a digit. *)
Definition isAlnum (a : ascii) : bool :=
  let n := N_of_ascii a in
  ((65 <=? n) && (n <=? 90) || (97 <=? n) && (n <=? 122) ||
   (48 <=? n) && (n <=? 57))%N.

(** A word of a snake_case name: letters and digits, at least one. *)
Definition word (s : string) : bool :=
  match s with
  | EmptyString => false
  | _ => allChars isAlnum s
  end.

End TextSpec.


(** * Properties *)

(** ** Strings *)

Module StringFacts.

Lemma append_cons (a : ascii) (s t : string) :
  String a s +:+ t = String a (s +:+ t).
Proof. reflexivity. Qed.

Lemma append_assoc (s t u : string) : (s +:+ t) +:+ u = s +:+ t +:+ u.
Proof.
  induction s as [|a s IH]; [done|]. by rewrite !append_cons, IH.
Qed.

Lemma countChar_append (c : ascii) (s t : string) :
  countChar c (s +:+ t) = (countChar c s + countChar c t)%nat.
Proof.
  induction s as [|a s IH]; [done|].
  rewrite append_cons. simpl. rewrite IH. lia.
Qed.

Lemma join_cons (sep p : string) (ps : list string) :
  ps ≠ [] → join sep (p :: ps) = p +:+ sep +:+ join sep ps.
Proof. by destruct ps. Qed.

End StringFacts.

(** ** QueryBuilder: the compiled WHERE clause and [buildSql] *)

Module QueryBuilderFacts.
Import QueryBuilder QueryBuilderSpec StringFacts.
Local Open Scope builder_scope.

Lemma conjunction_succ (index : nat) (c : WhereClause) (text : string) :
  conjunction (S index) c +:+ text = keyword (boolean c) +:+ " " +:+ text.
Proof. unfold conjunction. simpl. by rewrite append_assoc. Qed.

Lemma callback_body (c : WhereClause) (index : nat) :
  callback c index =
  match clauseBody c with
  | Ok (text, pushed) => Ok (conjunction index c +:+ text, pushed)
  | Throw e => Throw e
  end.
Proof.
  destruct c as [b column operator v|b inner|b sql ps]; simpl.
  - unfold conjunction. destruct (operatorPart operator v) as [[opPart pushed]|e]; done.
  - unfold conjunction, buildWhereClause.
    destruct (buildWith callback inner) as [[nestedSql nestedParams]|e]; done.
  - done.
Qed.

Lemma clauseBody_setBoolean (b : Boolean) (c : WhereClause) :
  clauseBody (setBoolean b c) = clauseBody c.
Proof. by destruct c. Qed.

Lemma forEach_unfold cb c cs index parts params :
  forEach cb (c :: cs) index parts params =
  match cb c index with
  | Ok (part, pushed) => forEach cb cs (S index) (parts ++ [part]) (params ++ pushed)
  | Throw e => Throw e
  end.
Proof. reflexivity. Qed.

(** The loop past the first position: every clause contributes its keyword,
    a space and its body, and the loop returns exactly when every body is
    defined. *)
Lemma forEach_tail (cs : list WhereClause) :
  ∀ index parts params parts' params',
    forEach callback cs (S index) parts params = Ok (parts', params') ↔
    ∃ rest : list (string * list value),
      Forall2 (λ d r, clauseBody d = Ok r) cs rest ∧
      parts' = parts ++ zip_with (λ d r, keyword (boolean d) +:+ " " +:+ r.1) cs rest ∧
      params' = params ++ concat (rest.*2).
Proof.
  induction cs as [|c cs IH]; intros index parts params parts' params'.
  - simpl. split.
    + intros [= <- <-]. exists []. split; [constructor|]. simpl. by rewrite !app_nil_r.
    + intros (rest & Hrest & -> & ->). apply Forall2_nil_inv_l in Hrest as ->.
      simpl. by rewrite !app_nil_r.
  - rewrite forEach_unfold, callback_body. split.
    + destruct (clauseBody c) as [[text pushed]|e] eqn:Hc; [|done].
      intros (rest & Hrest & -> & ->)%IH.
      exists ((text, pushed) :: rest). split; [by constructor|].
      simpl. by rewrite conjunction_succ, <- !app_assoc.
    + intros (rest & Hrest & -> & ->).
      apply Forall2_cons_inv_l in Hrest as ([text pushed] & rest' & Hc & Hrest & ->).
      rewrite Hc. apply IH. exists rest'. split; [done|].
      simpl. by rewrite conjunction_succ, <- !app_assoc.
Qed.

Lemma buildWhereClause_cons (c : WhereClause) (cs : list WhereClause) sql params :
  buildWhereClause (c :: cs) = Ok (sql, params) ↔
  ∃ (first : string * list value) (rest : list (string * list value)),
    clauseBody c = Ok first ∧
    Forall2 (λ d r, clauseBody d = Ok r) cs rest ∧
    sql = join " " (first.1 :: zip_with (λ d r, keyword (boolean d) +:+ " " +:+ r.1) cs rest) ∧
    params = first.2 ++ concat (rest.*2).
Proof.
  unfold buildWhereClause, buildWith. rewrite forEach_unfold, callback_body.
  split.
  - destruct (clauseBody c) as [[text pushed]|e] eqn:Hc; [|done].
    destruct (forEach _ _ _ _ _) as [[parts' params']|e] eqn:Hloop; [|done].
    intros [= <- <-]. apply forEach_tail in Hloop as (rest & Hrest & -> & ->).
    by exists (text, pushed), rest.
  - intros ([text pushed] & rest & Hc & Hrest & -> & ->). rewrite Hc.
    pose proof (proj2 (forEach_tail cs 0 ([] ++ [conjunction 0 c +:+ text]) ([] ++ pushed) _ _)
                  (ex_intro _ rest (conj Hrest (conj eq_refl eq_refl)))) as ->.
    done.
Qed.


Lemma buildWhereClause_setBoolean (b : Boolean) (c : WhereClause) (cs : list WhereClause) :
  buildWhereClause (setBoolean b c :: cs) = buildWhereClause (c :: cs).
Proof.
  unfold buildWhereClause, buildWith.
  by rewrite !forEach_unfold, !callback_body, clauseBody_setBoolean.
Qed.

Lemma whereBasic_defined (b : Boolean) (column operator : string) (v : value) this :
  v ≠ VUndefined →
  whereBasic b column operator v this = addWhere (Basic b column operator v) this.
Proof. intros Hv. unfold whereBasic. by destruct v. Qed.

(** Induction on a clause with the hypothesis available for every clause
    of a group. *)
Lemma WhereClause_nested_ind (P : WhereClause → Prop) :
  (∀ b column operator v, P (Basic b column operator v)) →
  (∀ b inner, Forall P inner → P (Group b inner)) →
  (∀ b sql ps, P (Raw b sql ps)) →
  ∀ c, P c.
Proof.
  intros Hbasic Hgroup Hraw. fix IH 1.
  intros [b column operator v|b inner|b sql ps]; [apply Hbasic| |apply Hraw].
  apply Hgroup. induction inner as [|c inner IHinner]; constructor; [apply IH|apply IHinner].
Qed.

Lemma placeholders_append (s t : string) :
  placeholders (s +:+ t) = (placeholders s + placeholders t)%nat.
Proof. apply countChar_append. Qed.

Lemma placeholders_join (sep : string) (parts : list string) :
  placeholders sep = 0%nat →
  placeholders (join sep parts) = sum_list (map placeholders parts).
Proof.
  intros Hsep. induction parts as [|p parts IH]; [done|].
  destruct parts as [|q parts]; [simpl; lia|].
  rewrite join_cons by done. rewrite !placeholders_append, Hsep, IH. simpl. lia.
Qed.

Lemma placeholders_marks (sep : string) (xs : list value) :
  placeholders sep = 0%nat →
  placeholders (join sep (map (λ _, "?") xs)) = length xs.
Proof.
  intros Hsep. rewrite placeholders_join by done.
  induction xs as [|x xs IH]; [done|]. simpl. by rewrite IH.
Qed.

Lemma operatorPart_placeholders (operator : string) (v : value) text pushed :
  placeholders operator = 0%nat →
  operatorPart operator v = Ok (text, pushed) →
  (placeholders text + (if special operator then 0 else 1))%nat = length pushed.
Proof.
  intros Hop. unfold operatorPart, special.
  repeat case_bool_decide; simpl;
    try (destruct (elements v) as [xs|e]; [|done]);
    try (destruct (index v 0) as [lo|e]; [|done];
         destruct (index v 1) as [hi|e']; [|done]);
    intros [= <- <-];
    rewrite ?placeholders_append, ?Hop, ?placeholders_marks by done;
    literal_placeholders; simpl; lia.
Qed.

Lemma keyword_placeholders (b : Boolean) : placeholders (keyword b) = 0%nat.
Proof. by destruct b. Qed.

(** What the compiled clauses of a sequence add up to, given what each
    clause body adds up to. *)
Lemma sequence_placeholders (cs : list WhereClause) :
  Forall (λ c, balanced c = true → ∀ text pushed,
               clauseBody c = Ok (text, pushed) →
               (placeholders text + plainBasics c)%nat = length pushed) cs →
  forallb balanced cs = true →
  ∀ sql params,
    buildWhereClause cs = Ok (sql, params) →
    (placeholders sql + sum_list (map plainBasics cs))%nat = length params.
Proof.
  intros Hall Hbal sql params.
  destruct cs as [|c cs]; [by intros [= <- <-]|].
  intros ([text pushed] & rest & Hc & Hrest & -> & ->)%buildWhereClause_cons.
  apply Forall_cons in Hall as [Hc' Hall]. simpl in Hbal.
  apply andb_prop in Hbal as [Hbc Hbal].
  specialize (Hc' Hbc _ _ Hc).
  rewrite placeholders_join by done. rewrite length_app. simpl in *.
  enough (sum_list (map placeholders
             (zip_with (λ d r, keyword (boolean d) +:+ " " +:+ r.1) cs rest))
          + sum_list (map plainBasics cs) = length (concat rest.*2))%nat by lia.
  clear Hc Hc' Hbc text pushed c.
  induction Hrest as [|d [t p] cs rest Hd Hrest IH]; [done|].
  apply Forall_cons in Hall as [Hd' Hall]. simpl in Hbal.
  apply andb_prop in Hbal as [Hbd Hbal].
  specialize (Hd' Hbd _ _ Hd). specialize (IH Hall Hbal). simpl in *.
  rewrite !placeholders_append, keyword_placeholders, length_app.
  literal_placeholders. unfold fmap in *. lia.
Qed.

Lemma clauseBody_placeholders (c : WhereClause) :
  balanced c = true →
  ∀ text pushed,
    clauseBody c = Ok (text, pushed) →
    (placeholders text + plainBasics c)%nat = length pushed.
Proof.
  induction c as [b column operator v|b inner IH|b sql ps] using WhereClause_nested_ind;
    intros Hbal text pushed; simpl in *.
  - apply andb_prop in Hbal as [Hcol%Nat.eqb_eq Hop%Nat.eqb_eq].
    destruct (operatorPart operator v) as [[opPart ps]|e] eqn:Hpart; [|done].
    intros [= <- <-]. rewrite !placeholders_append, Hcol. literal_placeholders.
    pose proof (operatorPart_placeholders _ _ _ _ Hop Hpart). lia.
  - destruct (buildWhereClause inner) as [[nestedSql nestedParams]|e] eqn:Hinner; [|done].
    intros [= <- <-]. rewrite !placeholders_append. literal_placeholders.
    pose proof (sequence_placeholders inner IH Hbal _ _ Hinner). lia.
  - intros [= <- <-]. apply Nat.eqb_eq in Hbal. rewrite !placeholders_append.
    literal_placeholders. lia.
Qed.

(** Every basic clause with an ordinary comparison operator pushes a
    parameter and writes no placeholder for it: on balanced clauses the
    parameters outnumber the placeholders by the number of such clauses. *)
Lemma placeholder_deficit (cs : list WhereClause) (sql : string) (params : list value) :
  forallb balanced cs = true →
  buildWhereClause cs = Ok (sql, params) →
  (placeholders sql + sum_list (map plainBasics cs))%nat = length params.
Proof.
  intros Hbal. apply sequence_placeholders; [|done].
  apply Forall_forall. intros c _. apply clauseBody_placeholders.
Qed.

(** Claim C1 says that the compiled SQL has exactly one placeholder for
    every parameter, in the same order.  The code departs from it on the
    plainest input: the one-clause sequence that [where("age", ">", 18)]
    builds compiles to the text [age >] with the parameter list [18], and
    [buildSql] gives a statement with no placeholder at all for its one
    parameter.  ([placeholder_deficit] above gives the size of the gap for
    every balanced sequence.) *)
Theorem plain_comparison_has_parameter_without_placeholder :
  buildWhereClause [Basic AND "age" ">" (VNum 18)] = Ok ("age >", [VNum 18]) ∧
  ((where_ "age" ">" (VNum 18);; buildSql) (new "users")).1 =
    Ok ("SELECT * FROM users WHERE age >", [VNum 18]) ∧
  placeholders "SELECT * FROM users WHERE age >" = 0%nat ∧
  length [VNum 18] = 1%nat.
Proof. repeat split; by vm_compute. Qed.

(** Claim C2 gives the SQL and the parameters of the chain
    [where("age", ">", 18)], [orWhere("vip", "=", true)],
    [whereIn("status", ["active", "pending"])] on table users.  The code
    returns the parameters of the claim, and a statement that has no
    placeholder after [>] and after [=]: it is not the SQL of the claim. *)
Theorem example_scenario_compiles_without_placeholders :
  ((where_ "age" ">" (VNum 18);; orWhere "vip" "=" (VBool true);;
    whereIn "status" [VStr "active"; VStr "pending"];; buildSql) (new "users")).1 =
  Ok ("SELECT * FROM users WHERE age > OR vip = AND status IN (?, ?)",
      [VNum 18; VBool true; VStr "active"; VStr "pending"]) ∧
  "SELECT * FROM users WHERE age > OR vip = AND status IN (?, ?)" ≠
  "SELECT * FROM users WHERE age > ? OR vip = ? AND status IN (?, ?)".
Proof. split; [by vm_compute|done]. Qed.

(** Claim C3: in a non-empty sequence of clauses the first clause is
    rendered as its body alone, whatever its boolean field is, and every
    later clause as its own keyword, a space and its body; the pieces are
    joined by single spaces, and the compiler returns exactly when every
    body is defined.  For [where(c1, op1, v1)] followed by
    [orWhere(c2, op2, v2)], with both values defined, the clause reads
    body, space, OR, space, body. *)
Theorem where_sequence_conjunctions
    (c : WhereClause) (cs : list WhereClause) (table c1 op1 c2 op2 : string)
    (v1 v2 : value) :
  (∀ sql params,
     buildWhereClause (c :: cs) = Ok (sql, params) ↔
     ∃ (first : string * list value) (rest : list (string * list value)),
       clauseBody c = Ok first ∧
       Forall2 (λ d r, clauseBody d = Ok r) cs rest ∧
       sql = join " " (first.1 ::
               zip_with (λ d r, keyword (boolean d) +:+ " " +:+ r.1) cs rest) ∧
       params = first.2 ++ concat (rest.*2)) ∧
  (∀ b, buildWhereClause (setBoolean b c :: cs) = buildWhereClause (c :: cs)) ∧
  (v1 ≠ VUndefined → v2 ≠ VUndefined →
   ∀ text1 pushed1 text2 pushed2,
     operatorPart op1 v1 = Ok (text1, pushed1) →
     operatorPart op2 v2 = Ok (text2, pushed2) →
     let this := ((where_ c1 op1 v1;; orWhere c2 op2 v2) (new table)).2 in
     whereClauses this = [Basic AND c1 op1 v1; Basic OR c2 op2 v2] ∧
     buildWhereClause (whereClauses this) =
       Ok ((c1 +:+ " " +:+ text1) +:+ " " +:+ "OR" +:+ " " +:+ (c2 +:+ " " +:+ text2),
           pushed1 ++ pushed2)).
Proof.
  split; [intros sql params; apply buildWhereClause_cons|].
  split; [intros b; apply buildWhereClause_setBoolean|].
  intros Hv1 Hv2 text1 pushed1 text2 pushed2 H1 H2 this.
  assert (whereClauses this = [Basic AND c1 op1 v1; Basic OR c2 op2 v2]) as Hthis.
  { subst this. unfold where_, orWhere, bind.
    rewrite (whereBasic_defined AND) by done. simpl.
    rewrite (whereBasic_defined OR) by done. done. }
  split; [done|]. rewrite Hthis.
  apply buildWhereClause_cons.
  exists (c1 +:+ " " +:+ text1, pushed1), [(c2 +:+ " " +:+ text2, pushed2)].
  split; [simpl; by rewrite H1|].
  split; [constructor; [simpl; by rewrite H2|constructor]|].
  split; [done|]. simpl. by rewrite app_nil_r.
Qed.

Lemma where_sequence_conjunctions_witness :
  VArr [VNum 18; VNum 30] ≠ VUndefined ∧ VNull ≠ VUndefined ∧
  buildWhereClause
    (whereClauses ((where_ "age" "BETWEEN" (VArr [VNum 18; VNum 30]);;
                    orWhere "vip" "IS NULL" VNull) (new "users")).2) =
  Ok ("age BETWEEN ? AND ? OR vip IS NULL", [VNum 18; VNum 30]).
Proof.
  split; [done|]. split; [done|].
  refine (proj2 (proj2 (proj2 (where_sequence_conjunctions
            (Raw AND "1" []) [] "users" "age" "BETWEEN" "vip" "IS NULL"
            (VArr [VNum 18; VNum 30]) VNull))
          _ _ "BETWEEN ? AND ?" [VNum 18; VNum 30] "IS NULL" [] eq_refl eq_refl)); done.
Defined.

(** Claim C7: when the callback leaves the nested builder's sequence
    empty, [where(callback)] and [orWhere(callback)] leave the builder as it
    was and settle as the callback did, so [buildSql] after the call gives
    what it gave before; and a call that returns with the builder changed
    has appended one group, made of the non-empty sequence the callback
    collected. *)
Theorem empty_callback_adds_nothing
    (b : Boolean) (callback : M unit) (this : QueryBuilder) :
  let nested := callback (nestedBuilder (tableName this)) in
  (currentWhereGroup nested.2 = Some [] →
   whereCallback b callback this = (nested.1, this) ∧
   (where_cb callback this).2 = this ∧
   (orWhere_cb callback this).2 = this ∧
   (nested.1 = Ok tt →
    (where_cb callback;; buildSql) this = buildSql this ∧
    (orWhere_cb callback;; buildSql) this = buildSql this)) ∧
  (∀ this', whereCallback b callback this = (Ok tt, this') → this' ≠ this →
   ∃ group, currentWhereGroup nested.2 = Some group ∧ group ≠ [] ∧
            this' = (addWhere (Group b group) this).2).
Proof.
  intros nested. split.
  - intros Hempty.
    assert (∀ b', whereCallback b' callback this = (nested.1, this)) as Hrun.
    { intros b'. unfold whereCallback. fold nested.
      destruct nested as [[[]|e] nested']; simpl in *; [|done].
      by rewrite Hempty. }
    split; [apply Hrun|]. unfold where_cb, orWhere_cb. rewrite !Hrun.
    split; [done|]. split; [done|]. intros Hok.
    unfold bind. rewrite !Hrun, Hok. done.
  - intros this' Hrun Hne. unfold whereCallback in Hrun. fold nested in Hrun.
    destruct nested as [[[]|e] nested']; simpl in *; [|done].
    destruct (currentWhereGroup nested') as [group|]; [|done].
    destruct group as [|g group]; simpl in Hrun; [by simplify_eq|].
    exists (g :: group). split; [done|]. split; [done|].
    by rewrite Hrun.
Qed.

Lemma buildSql_state (this : QueryBuilder) : (buildSql this).2 = this.
Proof.
  unfold buildSql, bind, gets, ret, lift.
  repeat (case_match; simplify_eq/=); done.
Qed.

Lemma empty_callback_adds_nothing_witness :
  currentWhereGroup ((limit 5 : M unit) (nestedBuilder "users")).2 = Some [] ∧
  whereCallback AND (limit 5) (where_ "age" "IS NULL" VNull (new "users")).2 =
    (Ok tt, (where_ "age" "IS NULL" VNull (new "users")).2).
Proof.
  split; [reflexivity|].
  exact (proj1 (proj1 (empty_callback_adds_nothing AND (limit 5)
                         (where_ "age" "IS NULL" VNull (new "users")).2) eq_refl)).
Defined.

(** Claim C8: [buildSql] leaves every field of the builder as it was,
    whether it returns or throws; called again it gives the same result,
    and two calls in a row return the same SQL and the same parameters. *)
Theorem buildSql_reads_only (this : QueryBuilder) :
  (buildSql this).2 = this ∧
  buildSql (buildSql this).2 = buildSql this ∧
  (r1 <- buildSql;; r2 <- buildSql;; ret (r1, r2)) this =
    (match (buildSql this).1 with
     | Ok r => Ok (r, r)
     | Throw e => Throw e
     end, this).
Proof.
  pose proof (buildSql_state this) as Hstate.
  split; [done|]. split; [by rewrite Hstate|].
  unfold bind at 1. destruct (buildSql this) as [[r|e] this'] eqn:Hrun;
    simpl in Hstate; subst this'; [|done].
  unfold bind, ret. by rewrite Hrun.
Qed.

End QueryBuilderFacts.

(** ** Connection: checkout and release around a statement *)

Module ConnectionFacts.
Import Connection ConnectionSpec.

(** Claim C9: [query] on a pool-backed connection releases what it
    checked out, once, whether the statement returns or throws, and
    releases nothing when no connection was checked out; on a
    transaction-bound connection it releases nothing, [releaseConnection]
    does nothing, and the statement runs on the wrapped connection with no
    checkout. *)
Theorem query_release_discipline
    (driver : Driver) (this : Connection) (sql : string)
    (params : option (list value)) (history : list event) :
  let run := query driver this sql params history in
  ∃ new, run.2 = history ++ new ∧
    (isTransactionConnection this = false →
     releases new = checkouts new ∧ (length (checkouts new) ≤ 1)%nat ∧
     executions new = checkouts new ∧
     (∀ p c, pool this = Some p → getConnection driver p history = Ok c →
        new = [Checkout p c; Execute c sql params; Release c] ∧
        run.1 = execute driver c sql params (history ++ [Checkout p c]))) ∧
    (isTransactionConnection this = true →
     releases new = [] ∧
     (∀ connection h, releaseConnection this connection h = h) ∧
     (∀ c, transactionalConnection this = Some c →
        new = [Execute c sql params] ∧
        run.1 = execute driver c sql params history)).
Proof.
  intros run. subst run. unfold query, getActiveConnection, releaseConnection.
  destruct this as [pl tc [|]]; simpl.
  - destruct tc as [c|].
    + exists [Execute c sql params]. split; [done|]. split; [done|].
      intros _. split; [done|]. split; [done|]. by intros ? [= <-].
    + destruct pl as [p|].
      * destruct (getConnection driver p history) as [c|e].
        -- exists [Checkout p c; Execute c sql params].
           split; [by rewrite <- app_assoc|]. split; [done|]. by intros _.
        -- exists []. split; [by rewrite app_nil_r|]. split; [done|]. by intros _.
      * exists []. split; [by rewrite app_nil_r|]. split; [done|]. by intros _.
  - destruct pl as [p|].
    + destruct (getConnection driver p history) as [c|e] eqn:Hget.
      * exists [Checkout p c; Execute c sql params; Release c].
        split; [by rewrite <- !app_assoc|]. split; [|done]. intros _.
        split; [done|]. split; [simpl; lia|]. split; [done|].
        intros p' c' [= <-]. rewrite Hget. by intros [= <-].
      * exists []. split; [by rewrite app_nil_r|]. split; [|done]. intros _.
        split; [done|]. split; [simpl; lia|]. split; [done|].
        intros p' c' [= <-]. by rewrite Hget.
    + exists []. split; [by rewrite app_nil_r|]. split; [|done]. intros _.
      split; [done|]. split; [simpl; lia|]. split; [done|]. done.
Qed.

Lemma query_release_discipline_witness :
  isTransactionConnection (new (PoolOptions 0%nat)) = false ∧
  isTransactionConnection (new (OpenConnection 7%nat)) = true ∧
  ∃ new1 new2,
    (query refusing
       (new (PoolOptions 0%nat)) "SELECT" None []).2 = [] ++ new1 ∧
    releases new1 = checkouts new1 ∧
    (query refusing
       (new (OpenConnection 7%nat)) "SELECT" None []).2 = [] ++ new2 ∧
    releases new2 = [].
Proof.
  split; [reflexivity|]. split; [reflexivity|].
  destruct (query_release_discipline
              refusing
              (new (PoolOptions 0%nat)) "SELECT" None []) as (new1 & H1 & Hpool & _).
  destruct (query_release_discipline
              refusing
              (new (OpenConnection 7%nat)) "SELECT" None []) as (new2 & H2 & _ & Htx).
  exists new1, new2. split; [exact H1|]. split; [exact (proj1 (Hpool eq_refl))|].
  split; [exact H2|]. exact (proj1 (Htx eq_refl)).
Defined.

End ConnectionFacts.

(** ** Model: what [create] inserts and what it returns *)

Module ModelFacts.
Import Connection ConnectionSpec Model ModelSpec.

Lemma getProp_setProp (key : string) (v : value) (o : object) :
  getProp key (setProp key v o) = v.
Proof.
  induction o as [|[k w] o IH]; simpl.
  - by rewrite bool_decide_eq_true_2.
  - case_bool_decide as Hk; simpl.
    + by rewrite bool_decide_eq_true_2.
    + by rewrite bool_decide_eq_false_2.
Qed.

Lemma getProp_setProp_ne (key key' : string) (v : value) (o : object) :
  key ≠ key' → getProp key' (setProp key v o) = getProp key' o.
Proof.
  intros Hne. induction o as [|[k w] o IH]; simpl.
  - by rewrite bool_decide_eq_false_2.
  - case_bool_decide as Hk; simpl.
    + subst k. by rewrite !bool_decide_eq_false_2.
    + by rewrite IH.
Qed.

Lemma query_statements driver conn sql params history r history' :
  query driver conn sql params history = (Ok r, history') →
  statements history' = statements history ++ [(sql, params)].
Proof.
  unfold query, getActiveConnection, releaseConnection, statements.
  destruct conn as [pl tc tx]; simpl.
  repeat (case_match; simplify_eq/=); intros; simplify_eq/=;
    rewrite ?omap_app; simpl; by rewrite ?app_nil_r.
Qed.

Lemma current_setField (key : string) (f : field) (fs : list (string * field))
    (m : list value) :
  current (mkStored (setField key f fs) m) = setProp key (read m f) (current (mkStored fs m)).
Proof.
  unfold current. simpl. induction fs as [|[k g] fs IH]; [done|]. simpl.
  case_bool_decide; simpl; [done|]. by rewrite IH.
Qed.

Lemma current_assign (key : string) (v : value) (instance : Stored) :
  current (assign key v instance) = setProp key v (current instance).
Proof. destruct instance as [fs m]. apply current_setField. Qed.

Lemma keys_current (fs : list (string * field)) (m m' : list value) :
  keys (current (mkStored fs m')) = keys (current (mkStored fs m)).
Proof. unfold keys, current. simpl. by rewrite !map_map. Qed.

Lemma current_untouched (fs : list (string * field)) (m m' : list value) :
  (∀ key l, (key, Nested l) ∈ fs → m' !! l = m !! l) →
  current (mkStored fs m') = current (mkStored fs m).
Proof.
  unfold current. simpl. intros Hcells.
  induction fs as [|[k g] fs IH]; [done|]. simpl. f_equal.
  - f_equal. destruct g as [v|l]; [done|]. simpl.
    by rewrite (Hcells k l) by left.
  - apply IH. intros key l Hin. apply (Hcells key l). by right.
Qed.

(** Claim C10: [create(data)] returns exactly when the beforeCreate
    hooks, the INSERT and the afterCreate hooks succeed.  The columns of
    the INSERT are the keys of [data]; its values are those [data] has once
    the beforeCreate hooks have run: the values [data] came with when the
    hooks left the nested values of [data] as they were, whatever they
    assigned on the draft.  The returned record is the draft the hooks
    left, with the insert id assigned.  With a beforeCreate hook that
    assigns property [key], the returned record has the hook's value while
    the statement carries the values [data] came with. *)
Theorem create_inserts_data_as_the_hooks_left_it
    (driver : Driver) (this : Model) (data : Stored) (history : list event)
    (table key : string) (v : value) (conn : Connection) :
  (∀ inst history',
     create driver this data history = (Ok inst, history') ↔
     ∃ draft conn result,
       runHooks this beforeCreate data = (Ok tt, draft) ∧
       connection this = Ok conn ∧
       query driver conn
         (insertSql (tableName this) (current (mkStored (fields data) (memory draft))))
         (Some (values (current (mkStored (fields data) (memory draft))))) history
         = (Ok result, history') ∧
       runHooks this afterCreate (assign "id" (insertId result) draft) = (Ok tt, inst)) ∧
  (∀ inst history',
     create driver this data history = (Ok inst, history') →
     ∃ draft,
       runHooks this beforeCreate data = (Ok tt, draft) ∧
       statements history' =
         statements history ++
         [(insertSql (tableName this) (current (mkStored (fields data) (memory draft))),
           Some (values (current (mkStored (fields data) (memory draft)))))] ∧
       keys (current (mkStored (fields data) (memory draft))) = keys (current data) ∧
       ((∀ key l, (key, Nested l) ∈ fields data →
                  memory draft !! l = memory data !! l) →
        current (mkStored (fields data) (memory draft)) = current data)) ∧
  (key ≠ "id" →
   ∀ result history',
     query driver conn (insertSql table (current data)) (Some (values (current data)))
       history = (Ok result, history') →
     let hooked :=
       addHook beforeCreate (λ instance, (Ok tt, assign key v instance))
         (mkModel table (Some conn) (λ _, None)) in
     ∃ inst,
       create driver hooked data history = (Ok inst, history') ∧
       getProp key (current inst) = v ∧
       getProp "id" (current inst) = insertId result ∧
       statements history' =
         statements history ++
         [(insertSql table (current data), Some (values (current data)))]).
Proof.
  assert (mkStored (fields data) (memory data) = data) as Hdata by by destruct data.
  assert (∀ inst history',
     create driver this data history = (Ok inst, history') ↔
     ∃ draft conn result,
       runHooks this beforeCreate data = (Ok tt, draft) ∧
       connection this = Ok conn ∧
       query driver conn
         (insertSql (tableName this) (current (mkStored (fields data) (memory draft))))
         (Some (values (current (mkStored (fields data) (memory draft))))) history
         = (Ok result, history') ∧
       runHooks this afterCreate (assign "id" (insertId result) draft) = (Ok tt, inst))
    as Hcreate.
  { intros inst history'. unfold create. rewrite Hdata. split.
    - destruct (runHooks this beforeCreate data) as [[[]|e] draft] eqn:Hbefore; [|done].
      destruct (connection this) as [conn'|e] eqn:Hconn; [|done].
      destruct (query driver conn' _ _ history) as [[result|e] h'] eqn:Hquery; [|done].
      destruct (runHooks this afterCreate _) as [[[]|e] inst'] eqn:Hafter; [|done].
      intros [= <- <-]. by exists draft, conn', result.
    - intros (draft & conn' & result & -> & -> & -> & ->). done. }
  split; [exact Hcreate|]. split.
  - intros inst history' (draft & conn' & result & Hbefore & _ & Hquery & _)%Hcreate.
    exists draft. split; [done|]. split; [by eapply query_statements|].
    split; [apply keys_current|].
    intros Hcells. rewrite <- Hdata at 2. by apply current_untouched.
  - intros Hkey result history' Hquery hooked.
    exists (assign "id" (insertId result) (assign key v data)).
    split; [|split; [|split]].
    + unfold create. subst hooked. destruct data as [fs m]. simpl in *.
      by rewrite Hquery.
    + by rewrite !current_assign, getProp_setProp_ne, getProp_setProp.
    + by rewrite current_assign, getProp_setProp.
    + by eapply query_statements.
Qed.

Lemma create_inserts_data_as_the_hooks_left_it_witness :
  "title" ≠ "id" ∧
  ∃ inst,
    create accepting
      (addHook beforeCreate (λ instance, (Ok tt, assign "title" (VStr "u") instance))
         (mkModel "posts" (Some (new (PoolOptions 0%nat))) (λ _, None)))
      post [] =
    (Ok inst,
     [Checkout 0%nat 3%nat;
      Execute 3%nat "INSERT INTO posts (title, tags) VALUES (?, ?)"
        (Some [VStr "t"; VArr [VStr "a"]]);
      Release 3%nat]) ∧
    getProp "title" (current inst) = VStr "u" ∧
    getProp "id" (current inst) = VNum 7.
Proof.
  split; [done|].
  destruct (proj2 (proj2 (create_inserts_data_as_the_hooks_left_it accepting
              (mkModel "posts" None (λ _, None)) post []
              "posts" "title" (VStr "u") (new (PoolOptions 0%nat))))
            ltac:(done) (Header 7 1)
            [Checkout 0%nat 3%nat;
             Execute 3%nat "INSERT INTO posts (title, tags) VALUES (?, ?)"
               (Some [VStr "t"; VArr [VStr "a"]]);
             Release 3%nat]
            eq_refl) as (inst & Hcreate & Htitle & Hid & _).
  exists inst. split; [exact Hcreate|]. split; [exact Htitle|exact Hid].
Defined.

(** A beforeCreate hook that appends to the array of tags, which the draft
    shares with [data], changes the row that is inserted: the INSERT
    carries the array with the tag the hook added, not the array [data]
    came with. *)
Lemma create_inserts_what_a_hook_pushed :
  let hooked :=
    addHook beforeCreate (push "tags" (VStr "b"))
      (mkModel "posts" (Some (new (PoolOptions 0%nat))) (λ _, None)) in
  values (current post) = [VStr "t"; VArr [VStr "a"]] ∧
  statements (create accepting hooked post []).2 =
    [("INSERT INTO posts (title, tags) VALUES (?, ?)",
      Some [VStr "t"; VArr [VStr "a"; VStr "b"]])] ∧
  statements (create accepting hooked post []).2 ≠
    [("INSERT INTO posts (title, tags) VALUES (?, ?)", Some (values (current post)))].
Proof. by vm_compute. Qed.

End ModelFacts.

(** ** MigrationRunner: apply order, rollback order, missing definitions *)

Module MigrationRunnerFacts.
Import MigrationRunner MigrationRunnerSpec.

Section WithDatabase.
Context {U : Type}.
Implicit Types (dir : Directory U) (w : World U) (m : Migration U).

Lemma loadMigrations_fold dir (files : list string) (acc : list (Migration U)) :
  name <$>
    foldl (λ migrations file,
             match require dir file with
             | Ok migrationModule =>
                 migrations ++
                   [mkMigration (parseName file) (moduleUp migrationModule)
                      (moduleDown migrationModule)]
             | Throw _ => migrations
             end) acc files
  = (name <$> acc) ++
    (parseName <$> filter (λ file, isOk (require dir file) = true) files).
Proof.
  revert acc. induction files as [|file files IH]; intros acc; simpl.
  - by rewrite app_nil_r.
  - rewrite IH. rewrite filter_cons.
    destruct (require dir file) as [mm|e].
    + rewrite decide_True by done. rewrite fmap_app. simpl. by rewrite <- app_assoc.
    + rewrite decide_False by done. done.
Qed.

Lemma loadMigrations_names dir :
  name <$> loadMigrations dir = parseName <$> loadedFiles dir.
Proof. apply (loadMigrations_fold dir (migrationFiles dir) []). Qed.

Lemma loadedFiles_sorted dir : StronglySorted String.le (loadedFiles dir).
Proof.
  unfold loadedFiles.
  assert (StronglySorted String.le (migrationFiles dir)) as Hs.
  { apply StronglySorted_merge_sort; apply _. }
  revert Hs. generalize (migrationFiles dir). intros files Hs.
  induction Hs as [|file files Hs IH Hall]; [constructor|].
  rewrite filter_cons. case_decide; [|done].
  constructor; [done|].
  apply Forall_forall. intros x [_ Hx]%list_elem_of_filter.
  by eapply Forall_forall in Hall.
Qed.

Lemma loadedFiles_listed dir file :
  file ∈ loadedFiles dir ↔
  file ∈ readdir dir ∧ (endsWith file ".ts" || endsWith file ".js" = true) ∧
  isOk (require dir file) = true.
Proof.
  unfold loadedFiles, migrationFiles.
  rewrite list_elem_of_filter, merge_sort_Permutation, list_elem_of_filter. tauto.
Qed.

Lemma pending_cons_applied m available applied :
  name m ∈ applied → pending (m :: available) applied = pending available applied.
Proof. intros Hin. unfold pending. rewrite filter_cons, decide_False; [done|]. by intros []. Qed.

Lemma pending_cons_new m available applied :
  name m ∉ applied → pending (m :: available) applied = m :: pending available applied.
Proof. intros Hin. unfold pending. by rewrite filter_cons, decide_True. Qed.

(** The loop of [migrateUp], whatever it settles to. *)
Lemma upLoop_spec (ran : list string) (available : list (Migration U)) :
  ∀ w,
    let run := upLoop available ran w in
    let todo := pending available ran in
    match run.1 with
    | Ok _ =>
        history run.2 = history w ++ upEvents (name <$> todo) ∧
        ledger run.2 = ledger w ++ (name <$> todo)
    | Throw e =>
        ∃ done m rest,
          todo = done ++ m :: rest ∧
          ledger run.2 = ledger w ++ (name <$> done) ∧
          ((history run.2 = history w ++ upEvents (name <$> done) ++ [RunUp (name m)] ∧
            ∃ u, (up m u).1 = Throw e) ∨
           (history run.2 =
              history w ++ upEvents (name <$> done) ++ [RunUp (name m); InsertRow (name m)] ∧
            name m ∈ ledger w ++ (name <$> done)))
    end.
Proof.
  induction available as [|m available IH]; intros w; simpl.
  - by rewrite !app_nil_r.
  - case_bool_decide as Hran.
    + rewrite pending_cons_applied by done. apply IH.
    + rewrite pending_cons_new by done. unfold call.
      destruct (up m (user w)) as [[[]|e] u'] eqn:Hup; simpl.
      * unfold insertRow. simpl. case_bool_decide as Hdup; simpl.
        -- exists [], m, (pending available ran). split; [done|].
           split; [by rewrite app_nil_r|]. right. simpl.
           split; [by rewrite <- app_assoc|]. by rewrite app_nil_r.
        -- specialize (IH (mkWorld (ledger w ++ [name m]) u'
                            ((history w ++ [RunUp (name m)]) ++ [InsertRow (name m)]))).
           simpl in IH.
           destruct (upLoop available ran _) as [[[]|e] w'] eqn:Hrest; simpl in *.
           ++ destruct IH as [-> ->]. by rewrite <- !app_assoc.
           ++ destruct IH as (done & m' & rest & -> & -> & Hhist).
              exists (m :: done), m', rest. split; [done|].
              split; [by rewrite <- app_assoc|]. simpl.
              destruct Hhist as [[-> Hfail]|[-> Hdup']]; [left|right];
                (split; [by rewrite <- !app_assoc|]); [done|].
              by rewrite <- app_assoc in Hdup'.
      * exists [], m, (pending available ran). split; [done|].
        split; [by rewrite app_nil_r|]. left. split; [done|].
        exists (user w). by rewrite Hup.
Qed.

Lemma getRanMigrations_elem_of w (n : string) :
  n ∈ getRanMigrations w ↔ n ∈ ledger w.
Proof. unfold getRanMigrations. by rewrite merge_sort_Permutation. Qed.

Lemma pending_ran w (available : list (Migration U)) :
  pending available (getRanMigrations w) = pending available (ledger w).
Proof.
  unfold pending. apply list_filter_iff. intros m.
  by rewrite getRanMigrations_elem_of.
Qed.

(** [new Map(...)] of the available migrations gives, for a name, a
    migration of that name. *)
Lemma newMap_keyed (ms : list (Migration U)) :
  ∀ acc : gmap string (Migration U),
    (∀ n m, acc !! n = Some m → name m = n) →
    ∀ n m, newMapFrom acc (map (λ m, (name m, m)) ms) !! n = Some m → name m = n.
Proof.
  unfold newMapFrom.
  induction ms as [|m0 ms IH]; intros acc Hacc n m; simpl; [apply Hacc|].
  apply IH. intros n' m'. simpl.
  destruct (decide (name m0 = n')) as [<-|Hne].
  - rewrite lookup_insert_eq. by intros [= <-].
  - rewrite lookup_insert_ne by done. apply Hacc.
Qed.

Lemma availableMigrationsMap_keyed dir (n : string) m :
  availableMigrationsMap dir !! n = Some m → name m = n.
Proof. apply newMap_keyed. intros n' m'. by rewrite lookup_empty. Qed.

Lemma defined_cons_Some (defs : gmap string (Migration U)) n names m :
  defs !! n = Some m → defined defs (n :: names) = n :: defined defs names.
Proof. intros H. unfold defined. rewrite filter_cons, decide_True; [done|]. by rewrite H. Qed.

Lemma defined_cons_None (defs : gmap string (Migration U)) n names :
  defs !! n = None → defined defs (n :: names) = defined defs names.
Proof.
  intros H. unfold defined. rewrite filter_cons, decide_False; [done|].
  rewrite H. by intros [? [=]].
Qed.

Lemma downEvents_cons_Some (defs : gmap string (Migration U)) n names m :
  defs !! n = Some m →
  downEvents defs (n :: names) = [RunDown n; DeleteRow n] ++ downEvents defs names.
Proof. intros H. unfold downEvents. rewrite bind_cons. by rewrite H. Qed.

Lemma downEvents_cons_None (defs : gmap string (Migration U)) n names :
  defs !! n = None →
  downEvents defs (n :: names) = [Warn n] ++ downEvents defs names.
Proof. intros H. unfold downEvents. rewrite bind_cons. by rewrite H. Qed.

Lemma filter_not_elem_of_nil (l : list string) : filter (λ x, x ∉ []) l = l.
Proof.
  induction l as [|x l IHl]; [done|].
  rewrite filter_cons, decide_True; [by f_equal|]. apply not_elem_of_nil.
Qed.

Lemma filter_not_elem_of_cons (n : string) (names l : list string) :
  filter (λ x, x ∉ names) (filter (λ x, x ≠ n) l) = filter (λ x, x ∉ n :: names) l.
Proof.
  rewrite list_filter_filter. apply list_filter_iff. intros x.
  rewrite not_elem_of_cons. tauto.
Qed.

(** The loop of [migrateDown], whatever it settles to. *)
Lemma downLoop_spec (defs : gmap string (Migration U))
    (Hkeyed : ∀ n m, defs !! n = Some m → name m = n) (names : list string) :
  ∀ w,
    let run := downLoop defs names w in
    match run.1 with
    | Ok _ =>
        history run.2 = history w ++ downEvents defs names ∧
        ledger run.2 = filter (λ x, x ∉ defined defs names) (ledger w)
    | Throw e =>
        ∃ done n rest m,
          names = done ++ n :: rest ∧ defs !! n = Some m ∧
          (∃ u, (down m u).1 = Throw e) ∧
          history run.2 = history w ++ downEvents defs done ++ [RunDown n] ∧
          ledger run.2 = filter (λ x, x ∉ defined defs done) (ledger w)
    end.
Proof.
  induction names as [|n names IH]; intros w; simpl.
  - rewrite app_nil_r. split; [done|]. by rewrite filter_not_elem_of_nil.
  - destruct (defs !! n) as [m|] eqn:Hn.
    + pose proof (Hkeyed n m Hn) as Hname. rewrite Hname. unfold call.
      destruct (down m (user w)) as [[[]|e] u'] eqn:Hdown; simpl.
      * specialize (IH (mkWorld (filter (λ x, x ≠ n) (ledger w)) u'
                          ((history w ++ [RunDown n]) ++ [DeleteRow n]))).
        simpl in IH.
        destruct (downLoop defs names _) as [[[]|e] w'] eqn:Hrest; simpl in *.
        -- destruct IH as [-> ->]. rewrite (downEvents_cons_Some _ _ _ _ Hn).
           split; [by rewrite <- !app_assoc|].
           by rewrite (defined_cons_Some _ _ _ _ Hn), filter_not_elem_of_cons.
        -- destruct IH as (done & n' & rest & m' & -> & Hn' & Hfail & -> & ->).
           exists (n :: done), n', rest, m'. split; [done|]. split; [done|].
           split; [done|]. rewrite (downEvents_cons_Some _ _ _ _ Hn).
           split; [by rewrite <- !app_assoc|].
           by rewrite (defined_cons_Some _ _ _ _ Hn), filter_not_elem_of_cons.
      * exists [], n, names, m. split; [done|]. split; [done|].
        split; [exists (user w); by rewrite Hdown|]. split; [done|].
        by rewrite filter_not_elem_of_nil.
    + simpl.
      specialize (IH (mkWorld (ledger w) (user w) (history w ++ [Warn n]))).
      simpl in IH.
      destruct (downLoop defs names _) as [[[]|e] w'] eqn:Hrest; simpl in *.
      * destruct IH as [-> ->]. rewrite (downEvents_cons_None _ _ _ Hn).
        split; [by rewrite <- !app_assoc|]. by rewrite (defined_cons_None _ _ _ Hn).
      * destruct IH as (done & n' & rest & m' & -> & Hn' & Hfail & -> & ->).
        exists (n :: done), n', rest, m'. split; [done|]. split; [done|].
        split; [done|]. rewrite (downEvents_cons_None _ _ _ Hn).
        split; [by rewrite <- !app_assoc|]. by rewrite (defined_cons_None _ _ _ Hn).
Qed.

Lemma downLoop_returns (defs : gmap string (Migration U))
    (Hkeyed : ∀ n m, defs !! n = Some m → name m = n) (names : list string) w :
  (∀ n m u, n ∈ names → defs !! n = Some m → (down m u).1 = Ok tt) →
  (downLoop defs names w).1 = Ok tt.
Proof.
  intros Hdowns. pose proof (downLoop_spec defs Hkeyed names w) as Hspec.
  simpl in Hspec. destruct (downLoop defs names w).1 as [[]|e]; [done|].
  destruct Hspec as (done & n & rest & m & -> & Hn & [u Hfail] & _).
  rewrite (Hdowns n m u) in Hfail; [done| |done].
  apply elem_of_app. right. left.
Qed.

Lemma migrationsToRollback_last (ran : list string) (steps : Z) :
  0 < steps →
  migrationsToRollback ran steps = reverse (drop (length ran - Z.to_nat steps) ran).
Proof.
  intros Hsteps. unfold migrationsToRollback, slice0.
  rewrite (proj2 (Z.ltb_ge steps 0)) by lia.
  rewrite take_reverse, length_reverse. do 2 f_equal. lia.
Qed.

Lemma getRanMigrations_sorted w : Sorted String.le (getRanMigrations w).
Proof. apply Sorted_merge_sort; apply _. Qed.

Lemma getRanMigrations_perm w : getRanMigrations w ≡ₚ ledger w.
Proof. apply merge_sort_Permutation. Qed.

Lemma migrateDown_loop dir steps w :
  migrateDown dir steps w =
  downLoop (availableMigrationsMap dir)
    (migrationsToRollback (getRanMigrations w) steps) w.
Proof.
  unfold migrateDown. case_bool_decide as Hempty; [|done].
  apply length_zero_iff_nil in Hempty. rewrite Hempty.
  unfold migrationsToRollback, slice0. by rewrite reverse_nil, take_nil.
Qed.

Lemma runAll_app (ps qs : list (U → result unit * U)) (u : U) :
  runAll (ps ++ qs) u =
  match runAll ps u with
  | (Ok _, u') => runAll qs u'
  | (Throw e, u') => (Throw e, u')
  end.
Proof.
  revert u. induction ps as [|p ps IH]; intros u; [done|]. simpl.
  destruct (p u) as [[[]|e] u']; [apply IH|done].
Qed.

(** What the loop of [migrateUp] does to the user's tables, the ledger
    and the history, by the migration it stops at. *)
Lemma upLoop_effects (ran : list string) (available : list (Migration U)) :
  ∀ w,
    let run := upLoop available ran w in
    let todo := pending available ran in
    match run.1 with
    | Ok _ =>
        runAll (up <$> todo) (user w) = (Ok tt, user run.2)
    | Throw e =>
        ∃ done m rest,
          todo = done ++ m :: rest ∧
          (runAll (up <$> done) (user w)).1 = Ok tt ∧
          user run.2 = (up m (runAll (up <$> done) (user w)).2).2 ∧
          ledger run.2 = ledger w ++ (name <$> done) ∧
          (((up m (runAll (up <$> done) (user w)).2).1 = Throw e ∧
            history run.2 = history w ++ upEvents (name <$> done) ++ [RunUp (name m)]) ∨
           ((up m (runAll (up <$> done) (user w)).2).1 = Ok tt ∧
            name m ∈ ledger w ++ (name <$> done) ∧
            history run.2 =
              history w ++ upEvents (name <$> done) ++ [RunUp (name m); InsertRow (name m)]))
    end.
Proof.
  induction available as [|m available IH]; intros w; simpl; [done|].
  case_bool_decide as Hran.
  - rewrite pending_cons_applied by done. apply IH.
  - rewrite pending_cons_new by done. unfold call.
    destruct (up m (user w)) as [[[]|e] u'] eqn:Hup; simpl.
    + unfold insertRow. simpl. case_bool_decide as Hdup; simpl.
      * exists [], m, (pending available ran). simpl. rewrite Hup, !app_nil_r. simpl.
        do 4 (split; [done|]). right. split; [done|]. split; [done|].
        by rewrite <- app_assoc.
      * specialize (IH (mkWorld (ledger w ++ [name m]) u'
                          ((history w ++ [RunUp (name m)]) ++ [InsertRow (name m)]))).
        simpl in IH. rewrite Hup.
        destruct (upLoop available ran _) as [[[]|e] w'] eqn:Hrest; simpl in *; [done|].
        destruct IH as (done & m' & rest & -> & Hdone & Huser & -> & Hstop).
        exists (m :: done), m', rest. simpl. rewrite Hup.
        split; [done|]. split; [done|]. split; [done|].
        split; [by rewrite <- app_assoc|].
        destruct Hstop as [[Hfail ->]|(Hok & Hdup' & ->)]; [left|right].
        -- split; [done|]. by rewrite <- !app_assoc.
        -- split; [done|]. split; [by rewrite <- app_assoc in Hdup'|].
           by rewrite <- !app_assoc.
    + exists [], m, (pending available ran). simpl. rewrite Hup, !app_nil_r. simpl.
      do 4 (split; [done|]). by left.
Qed.

(** With pending migrations of distinct names, none of them in the ledger,
    the loop of [migrateUp] settles as their [up] procedures do, run one
    after the other, and leaves the user's tables as they leave them. *)
Lemma upLoop_runAll (ran : list string) (available : list (Migration U)) w :
  NoDup (name <$> pending available ran) →
  (∀ m, m ∈ pending available ran → name m ∉ ledger w) →
  let run := upLoop available ran w in
  (run.1, user run.2) = runAll (up <$> pending available ran) (user w).
Proof.
  intros Hnodup Hnew run. subst run.
  pose proof (upLoop_effects ran available w) as Heff. simpl in Heff.
  destruct (upLoop available ran w) as [[[]|e] w'] eqn:Hrun; simpl in *; [done|].
  destruct Heff as (done & m & rest & Htodo & Hdone & Huser & _ & Hstop).
  rewrite Htodo, fmap_app, runAll_app.
  destruct (runAll (up <$> done) (user w)) as [[[]|e'] u] eqn:Hrun'; [|done].
  simpl in *. destruct Hstop as [[Hfail _]|(_ & Hdup & _)].
  - destruct (up m u) as [[[]|e''] u'']; simpl in *; congruence.
  - exfalso. apply elem_of_app in Hdup as [Hdup|Hdup].
    + apply (Hnew m); [|done]. rewrite Htodo. apply elem_of_app. right. left.
    + rewrite Htodo, fmap_app, fmap_cons in Hnodup.
      apply NoDup_app in Hnodup as (_ & Hapart & _). apply (Hapart _ Hdup). left.
Qed.

(** The loop of [migrateDown] settles as the [down] procedures of the
    entries that have a definition do, run one after the other, and leaves
    the user's tables as they leave them. *)
Lemma downLoop_runAll (defs : gmap string (Migration U)) (names : list string) :
  ∀ w,
    let run := downLoop defs names w in
    (run.1, user run.2) = runAll (downsOf defs names) (user w).
Proof.
  unfold downsOf.
  induction names as [|n names IH]; intros w; simpl; [done|].
  destruct (defs !! n) as [m|] eqn:Hn; simpl.
  - unfold call. destruct (down m (user w)) as [[[]|e] u'] eqn:Hdown; simpl; [|done].
    apply (IH (mkWorld _ _ _)).
  - apply (IH (mkWorld _ _ _)).
Qed.

(** Claim C4: [migrateUp] runs the [up] procedures of the pending
    migrations on the user's tables in the order [loadMigrations] returns
    them in, which is the order of the file names, and stops at the first
    that fails, leaving in the ledger the migrations completed before it.
    That order is not the ascending order of the names: of two migrations
    made in the same second, [users] and [users-roles], it applies
    [users-roles] first; and [migrateDown(1)], which goes by the names,
    then rolls back [users-roles], the migration applied first. *)
Theorem migrateUp_runs_in_file_order (dir : Directory U) (w : World U) :
  let todo := pending (loadMigrations dir) (ledger w) in
  let run := migrateUp dir w in
  (name <$> loadMigrations dir = parseName <$> loadedFiles dir ∧
   StronglySorted String.le (loadedFiles dir)) ∧
  (NoDup (name <$> todo) →
   (run.1, user run.2) = runAll (up <$> todo) (user w) ∧
   ∃ done rest,
     todo = done ++ rest ∧ ledger run.2 = ledger w ++ (name <$> done) ∧
     (runAll (up <$> done) (user w)).1 = Ok tt ∧
     (run.1 = Ok tt →
      rest = [] ∧ history run.2 = history w ++ upEvents (name <$> todo)) ∧
     (∀ e, run.1 = Throw e →
      ∃ m rest',
        rest = m :: rest' ∧
        (up m (runAll (up <$> done) (user w)).2).1 = Throw e ∧
        history run.2 = history w ++ upEvents (name <$> done) ++ [RunUp (name m)])) ∧
  (let applied := migrateUp twoFiles start in
   let undone := migrateDown twoFiles 1 applied.2 in
   applied.1 = Ok tt ∧
   user applied.2 = ["up 20240101120000_users-roles"; "up 20240101120000_users"] ∧
   String.le "20240101120000_users" "20240101120000_users-roles" ∧
   "20240101120000_users" ≠ "20240101120000_users-roles" ∧
   undone.1 = Ok tt ∧
   user undone.2 = user applied.2 ++ ["down 20240101120000_users-roles"] ∧
   ledger undone.2 = ["20240101120000_users"]).
Proof.
  intros todo run. subst todo run. split; [|split].
  - split; [apply loadMigrations_names|apply loadedFiles_sorted].
  - intros Hnodup. unfold migrateUp. rewrite <- pending_ran in *.
    assert (∀ m, m ∈ pending (loadMigrations dir) (getRanMigrations w) →
                 name m ∉ ledger w) as Hnew.
    { intros m [Hm _]%list_elem_of_filter. by rewrite <- getRanMigrations_elem_of. }
    split; [by apply upLoop_runAll|].
    pose proof (upLoop_effects (getRanMigrations w) (loadMigrations dir) w) as Heff.
    pose proof (upLoop_spec (getRanMigrations w) (loadMigrations dir) w) as Hspec.
    simpl in Heff, Hspec.
    destruct (upLoop (loadMigrations dir) (getRanMigrations w) w)
      as [[[]|e] w'] eqn:Hrun; simpl in *.
    + destruct Hspec as [Hhistory Hledger].
      exists (pending (loadMigrations dir) (getRanMigrations w)), [].
      rewrite app_nil_r, Heff. by repeat split.
    + destruct Heff as (done & m & rest & Htodo & Hdone & _ & Hledger & Hstop).
      exists done, (m :: rest). do 3 (split; [done|]). split; [done|].
      intros e' [= <-]. exists m, rest. split; [done|].
      destruct Hstop as [[Hfail Hhistory]|(_ & Hdup & _)]; [done|].
      exfalso. apply elem_of_app in Hdup as [Hdup|Hdup].
      * apply (Hnew m); [|done]. rewrite Htodo. apply elem_of_app. right. left.
      * rewrite Htodo, fmap_app, fmap_cons in Hnodup.
        apply NoDup_app in Hnodup as (_ & Hapart & _). apply (Hapart _ Hdup). left.
  - by vm_compute.
Qed.

(** Claim C5: for positive [steps], [migrateDown(steps)] selects the last
    [steps] names of the ledger in ascending order and goes through them in
    descending order; it runs on the user's tables the [down] procedures of
    the selected entries that have a definition, one after the other, and
    stops at the first that fails.  With {A, B, C} applied, definitions
    for B and C and their [down] procedures succeeding,
    [migrateDown(2)] rolls back C, then B, and leaves {A}. *)
Theorem migrateDown_rolls_back_last_steps
    (dir : Directory U) (w : World U) (steps : Z) (a b c : string) :
  0 < steps →
  let ran := getRanMigrations w in
  let selected := migrationsToRollback ran steps in
  let defs := availableMigrationsMap dir in
  let run := migrateDown dir steps w in
  (Sorted String.le ran ∧ ran ≡ₚ ledger w) ∧
  selected = reverse (drop (length ran - Z.to_nat steps) ran) ∧
  (run.1, user run.2) = runAll (downsOf defs selected) (user w) ∧
  (run.1 = Ok tt →
   history run.2 = history w ++ downEvents defs selected ∧
   ledger run.2 = filter (λ x, x ∉ defined defs selected) (ledger w)) ∧
  (∀ e, run.1 = Throw e →
   ∃ done n rest,
     selected = done ++ n :: rest ∧
     history run.2 = history w ++ downEvents defs done ++ [RunDown n] ∧
     ledger run.2 = filter (λ x, x ∉ defined defs done) (ledger w)) ∧
  (steps = 2 → ledger w ≡ₚ [a; b; c] →
   String.le a b → String.le b c → a ≠ b → b ≠ c →
   ∀ mb mc, defs !! b = Some mb → defs !! c = Some mc →
   (down mc (user w)).1 = Ok tt → (down mb (down mc (user w)).2).1 = Ok tt →
   run.1 = Ok tt ∧
   user run.2 = (down mb (down mc (user w)).2).2 ∧
   history run.2 = history w ++ [RunDown c; DeleteRow c; RunDown b; DeleteRow b] ∧
   ledger run.2 = [a]).
Proof.
  intros Hsteps ran selected defs run.
  pose proof (downLoop_spec defs (availableMigrationsMap_keyed dir) selected w) as Hspec.
  pose proof (downLoop_runAll defs selected w) as Heff.
  simpl in Hspec, Heff.
  assert (run = downLoop defs selected w) as Hrun by apply migrateDown_loop.
  rewrite <- Hrun in Hspec, Heff.
  split; [split; [apply getRanMigrations_sorted|apply getRanMigrations_perm]|].
  split; [by apply migrationsToRollback_last|].
  split; [done|]. split; [|split].
  - intros Hok. by rewrite Hok in Hspec.
  - intros e He. rewrite He in Hspec.
    destruct Hspec as (done & n & rest & m & Hsel & _ & _ & Hhistory & Hledger).
    by exists done, n, rest.
  - intros -> Hperm Hab Hbc Hne_ab Hne_bc mb mc Hb Hc Hdownc Hdownb.
    assert (a ≠ c) as Hne_ac.
    { intros <-. apply Hne_ab. by apply (anti_symm String.le). }
    assert (getRanMigrations w = [a; b; c]) as Hran.
    { apply (Sorted_unique String.le); [apply getRanMigrations_sorted| |].
      - repeat constructor; done.
      - by rewrite getRanMigrations_perm. }
    assert (selected = [c; b]) as Hsel.
    { subst selected ran. by rewrite Hran. }
    rewrite Hsel in Hspec, Heff.
    assert (runAll (downsOf defs [c; b]) (user w) =
            (Ok tt, (down mb (down mc (user w)).2).2)) as Hdowns.
    { unfold downsOf. simpl. rewrite Hb, Hc. simpl.
      destruct (down mc (user w)) as [[[]|e] u1]; simpl in *; [|done].
      by destruct (down mb u1) as [[[]|e] u2]. }
    rewrite Hdowns in Heff. injection Heff as Hok Huser.
    rewrite Hok in Hspec. destruct Hspec as [Hhist Hled].
    split; [done|]. split; [done|].
    rewrite (downEvents_cons_Some _ _ _ _ Hc), (downEvents_cons_Some _ _ _ _ Hb) in Hhist.
    split; [done|].
    rewrite Hled, (defined_cons_Some _ _ _ _ Hc), (defined_cons_Some _ _ _ _ Hb).
    change (defined defs []) with (@nil string).
    apply Permutation_singleton_r. rewrite Hperm.
    rewrite !filter_cons, filter_nil.
    rewrite decide_True, !decide_False; [done|..];
      first [ by rewrite !not_elem_of_cons; split_and!; try apply not_elem_of_nil
            | intros Hout; apply Hout; rewrite !elem_of_cons; by auto ].
Qed.

(** Claim C6: for a selected ledger entry [n] with no definition among
    the available migrations, [migrateDown] calls no [down] and issues no
    DELETE for [n], the rows of [n] in the ledger stay as they are, and the
    loop goes on with the entries after [n]: when the [down]s of the
    selected entries that have a definition succeed, it returns, has warned
    about [n], and has rolled back every one of those entries. *)
Theorem migrateDown_skips_missing_definition dir w (steps : Z) (n : string) :
  let selected := migrationsToRollback (getRanMigrations w) steps in
  let defs := availableMigrationsMap dir in
  let run := migrateDown dir steps w in
  n ∈ selected → defs !! n = None →
  ∃ new,
    history run.2 = history w ++ new ∧
    (RunDown n ∉ new) ∧ (DeleteRow n ∉ new) ∧
    filter (λ x, x = n) (ledger run.2) = filter (λ x, x = n) (ledger w) ∧
    n ∈ ledger run.2 ∧
    (∀ rest w0,
       downLoop defs (n :: rest) w0 =
       downLoop defs rest (mkWorld (ledger w0) (user w0) (history w0 ++ [Warn n]))) ∧
    ((∀ k m u, k ∈ selected → defs !! k = Some m → (down m u).1 = Ok tt) →
     run.1 = Ok tt ∧ Warn n ∈ new ∧
     ∀ k, k ∈ selected → is_Some (defs !! k) →
          RunDown k ∈ new ∧ DeleteRow k ∈ new ∧ k ∉ ledger run.2).
Proof.
  intros selected defs run Hsel Hn.
  pose proof (downLoop_spec defs (availableMigrationsMap_keyed dir) selected w) as Hspec.
  simpl in Hspec.
  assert (run = downLoop defs selected w) as Hrun by apply migrateDown_loop.
  rewrite <- Hrun in Hspec.
  assert (n ∈ ledger w) as Hledger.
  { apply getRanMigrations_elem_of. subst selected.
    unfold migrationsToRollback, slice0 in Hsel.
    apply elem_of_take in Hsel as (i & Hi & _).
    apply list_elem_of_lookup_2 in Hi. by rewrite elem_of_reverse in Hi. }
  assert (∀ names, n ∉ defined defs names) as Hundefined.
  { intros names [Hdef _]%list_elem_of_filter. rewrite Hn in Hdef. by destruct Hdef. }
  assert (∀ names ev, ev ∈ downEvents defs names →
            ∃ k, k ∈ names ∧
                 match defs !! k with
                 | Some _ => ev = RunDown k ∨ ev = DeleteRow k
                 | None => ev = Warn k
                 end) as Hevents.
  { intros names ev (k & Hev & Hk)%list_elem_of_bind. exists k. split; [done|].
    destruct (defs !! k).
    - apply elem_of_cons in Hev as [->|Hev%list_elem_of_singleton]; auto.
    - by apply list_elem_of_singleton in Hev. }
  assert (∀ names ev, (ev = RunDown n ∨ ev = DeleteRow n) → ev ∉ downEvents defs names)
    as Hquiet.
  { intros names ev Hev (k & _ & Hk)%Hevents.
    destruct (defs !! k) eqn:Hdk; [|destruct Hev; by subst].
    assert (k = n) as -> by (destruct Hev, Hk; by simplify_eq).
    by rewrite Hn in Hdk. }
  assert (∀ (names l : list string),
            filter (λ x, x = n) (filter (λ x, x ∉ defined defs names) l)
            = filter (λ x, x = n) l) as Hkeep.
  { intros names l. rewrite list_filter_filter. apply list_filter_iff.
    intros x. split; [tauto|]. intros ->. split; [done|apply Hundefined]. }
  assert (∀ names, n ∈ filter (λ x, x ∉ defined defs names) (ledger w)) as Hstays.
  { intros names. apply list_elem_of_filter. split; [apply Hundefined|done]. }
  destruct run.1 as [[]|e] eqn:Hres.
  - destruct Hspec as [Hhist Hled]. exists (downEvents defs selected).
    split; [done|]. split; [by apply Hquiet; left|]. split; [by apply Hquiet; right|].
    split; [by rewrite Hled, Hkeep|]. split; [by rewrite Hled|].
    split; [intros rest w0; simpl; by rewrite Hn|].
    intros _. split; [done|]. split.
    + apply list_elem_of_bind. exists n. rewrite Hn. split; [left|done].
    + intros k Hk [m Hm]. split; [|split].
      * apply list_elem_of_bind. exists k. rewrite Hm. split; [left|done].
      * apply list_elem_of_bind. exists k. rewrite Hm. split; [right; left|done].
      * rewrite Hled. intros [Hnot _]%list_elem_of_filter. apply Hnot.
        apply list_elem_of_filter. split; [by rewrite Hm|done].
  - destruct Hspec as (done & k & rest & m & Hsplit & Hk & [u Hfail] & Hhist & Hled).
    exists (downEvents defs done ++ [RunDown k]).
    split; [done|]. split; [|split].
    + intros [Hin|Hin%list_elem_of_singleton]%elem_of_app.
      * by eapply Hquiet; [left|].
      * by simplify_eq.
    + intros [Hin|Hin%list_elem_of_singleton]%elem_of_app; [|done].
      by eapply Hquiet; [right|].
    + split; [by rewrite Hled, Hkeep|]. split; [by rewrite Hled|].
      split; [intros rest' w0; simpl; by rewrite Hn|].
      intros Hdowns. rewrite (Hdowns k m u) in Hfail; [done| |done].
      rewrite Hsplit. apply elem_of_app. right. left.
Qed.

End WithDatabase.

Lemma threeFiles_loaded :
  loadMigrations threeFiles =
  [mkMigration "001_a" idle idle; mkMigration "002_b" idle idle;
   mkMigration "003_c" idle idle].
Proof. by vm_compute. Qed.

Lemma migrateUp_runs_in_file_order_witness :
  NoDup (name <$> pending (loadMigrations brokenUp) (ledger start)) ∧
  (migrateUp brokenUp start).1 = Throw (Error "up failed") ∧
  user (migrateUp brokenUp start).2 = ["up 001_a"; "up 002_b, in part"] ∧
  ledger (migrateUp brokenUp start).2 = ["001_a"].
Proof.
  assert (NoDup (name <$> pending (loadMigrations brokenUp) (ledger start)))
    as Hnodup by (apply (bool_decide_unpack _); vm_compute; exact I).
  split; [exact Hnodup|].
  destruct (proj1 (proj2 (migrateUp_runs_in_file_order brokenUp start))
              Hnodup) as [Hrun _].
  assert (runAll (up <$> pending (loadMigrations brokenUp) (ledger start))
            (user start)
          = (Throw (Error "up failed"), ["up 001_a"; "up 002_b, in part"])) as Hall
    by (by vm_compute).
  rewrite Hall in Hrun.
  split; [exact (f_equal fst Hrun)|]. split; [exact (f_equal snd Hrun)|reflexivity].
Defined.

Lemma migrateDown_rolls_back_last_steps_witness :
  0 < 2 ∧
  ledger threeRows
    ≡ₚ ["001_a"; "002_b"; "003_c"] ∧
  (migrateDown threeLogged 2
     threeRows).1 = Ok tt ∧
  user (migrateDown threeLogged 2
          threeRows).2 =
    ["down 003_c"; "down 002_b"] ∧
  ledger (migrateDown threeLogged 2
            threeRows).2 = ["001_a"].
Proof.
  assert (ledger threeRows
          ≡ₚ ["001_a"; "002_b"; "003_c"]) as Hperm by apply Permutation_swap.
  split; [lia|]. split; [exact Hperm|].
  destruct (proj2 (proj2 (proj2 (proj2 (proj2
              (migrateDown_rolls_back_last_steps
                 threeLogged
                 threeRows 2
                 "001_a" "002_b" "003_c" ltac:(lia))))))
            eq_refl Hperm ltac:(by vm_compute) ltac:(by vm_compute)
            ltac:(done) ltac:(done)
            (mkMigration "002_b" (record "up 002_b") (record "down 002_b"))
            (mkMigration "003_c" (record "up 003_c") (record "down 003_c"))
            ltac:(by vm_compute) ltac:(by vm_compute) eq_refl eq_refl)
    as (Hok & Huser & _ & Hledger).
  split; [exact Hok|]. split; [exact Huser|exact Hledger].
Defined.

(** With {A, B, C} applied and no file for B, [migrateDown(2)] rolls back
    C only and leaves {A, B}. *)
Lemma migrateDown_leaves_the_entry_without_a_file :
  let run := migrateDown twoOfThreeLogged 2
               threeRows in
  run.1 = Ok tt ∧
  user run.2 = ["down 003_c"] ∧
  history run.2 = [RunDown "003_c"; DeleteRow "003_c"; Warn "002_b"] ∧
  ledger run.2 = ["002_b"; "001_a"] ∧
  ledger run.2 ≠ ["001_a"].
Proof. by vm_compute. Qed.

Lemma migrateDown_skips_missing_definition_witness :
  "002_b" ∈ migrationsToRollback
              (getRanMigrations (mkWorld ["001_a"; "002_b"; "003_c"] tt [])) 2 ∧
  availableMigrationsMap twoOfThree !! "002_b" = None ∧
  "002_b" ∈ ledger (migrateDown twoOfThree 2 (mkWorld ["001_a"; "002_b"; "003_c"] tt [])).2.
Proof.
  assert ("002_b" ∈ migrationsToRollback
            (getRanMigrations (mkWorld ["001_a"; "002_b"; "003_c"] tt [])) 2) as Hsel.
  { replace (migrationsToRollback _ 2) with ["003_c"; "002_b"] by (by vm_compute).
    right. left. }
  assert (availableMigrationsMap twoOfThree !! "002_b" = None) as Hnone
    by (by vm_compute).
  split; [exact Hsel|]. split; [exact Hnone|].
  destruct (migrateDown_skips_missing_definition twoOfThree
              (mkWorld ["001_a"; "002_b"; "003_c"] tt []) 2 "002_b" Hsel Hnone)
    as (new & _ & _ & _ & _ & Hin & _).
  exact Hin.
Defined.

End MigrationRunnerFacts.

(** ** QueryBuilder: when compilation throws, and the sections of the
       statement *)

Module CompileFacts.
Import QueryBuilder QueryBuilderSpec CompileSpec StringFacts QueryBuilderFacts.
Local Open Scope builder_scope.

Lemma append_empty_r (s : string) : s +:+ "" = s.
Proof. induction s as [|a s IH]; [done|]. by rewrite append_cons, IH. Qed.

Lemma isOk_true {A} (r : result A) : isOk r = true ↔ ∃ a, r = Ok a.
Proof.
  destruct r as [a|e]; simpl.
  - split; [by exists a|done].
  - split; [done|]. by intros [a Ha].
Qed.

Lemma buildWhereClause_returns (cs : list WhereClause) :
  isOk (buildWhereClause cs) = true ↔ Forall (λ c, isOk (clauseBody c) = true) cs.
Proof.
  destruct cs as [|c cs]; [done|]. rewrite isOk_true. split.
  - intros [[sql params] (first & rest & Hc & Hrest & _)%buildWhereClause_cons].
    constructor; [by rewrite Hc|].
    clear Hc. induction Hrest as [|d r cs rest Hd _ IH]; constructor; [by rewrite Hd|done].
  - intros [[first Hc]%isOk_true Hcs]%Forall_cons.
    assert (∃ rest, Forall2 (λ d r, clauseBody d = Ok r) cs rest) as [rest Hrest].
    { clear Hc. induction Hcs as [|d cs [r Hd]%isOk_true _ [rest IH]].
      - by exists [].
      - exists (r :: rest). by constructor. }
    eexists (_, _). apply buildWhereClause_cons. by exists first, rest.
Qed.

Lemma operatorPart_returns (operator : string) (v : value) b column :
  isOk (operatorPart operator v) = wellTyped (Basic b column operator v).
Proof.
  unfold operatorPart. simpl.
  repeat case_match; try done; by destruct v.
Qed.

Lemma clauseBody_returns (c : WhereClause) : isOk (clauseBody c) = wellTyped c.
Proof.
  induction c as [b column operator v|b inner IH|b sql ps] using WhereClause_nested_ind.
  - rewrite <- (operatorPart_returns operator v b column). simpl.
    by destruct (operatorPart operator v) as [[]|].
  - simpl. transitivity (isOk (buildWhereClause inner)).
    { by destruct (buildWhereClause inner) as [[]|]. }
    apply Bool.eq_true_iff_eq. rewrite buildWhereClause_returns, forallb_forall.
    rewrite Forall_forall. split.
    + intros H c Hc%list_elem_of_In. rewrite Forall_forall in IH.
      rewrite <- IH by done. by apply H.
    + intros H c Hc. rewrite Forall_forall in IH. rewrite IH by done.
      by apply H, list_elem_of_In.
  - done.
Qed.

Lemma forEach_throws cb (cs : list WhereClause) :
  ∀ index parts params e,
    forEach cb cs index parts params = Throw e →
    ∃ c i, c ∈ cs ∧ cb c i = Throw e.
Proof.
  induction cs as [|c cs IH]; intros index parts params e; [done|].
  rewrite forEach_unfold.
  destruct (cb c index) as [[part pushed]|e'] eqn:Hc.
  - intros (d & i & Hd & Hthrow)%IH. exists d, i. split; [by right|done].
  - intros [= <-]. exists c, index. split; [left|done].
Qed.

Lemma buildWhereClause_throws_TypeError (cs : list WhereClause) (e : exn) :
  buildWhereClause cs = Throw e → ∃ msg, e = TypeError msg.
Proof.
  revert e.
  enough (Forall (λ c, ∀ i e, callback c i = Throw e → ∃ msg, e = TypeError msg) cs)
    as Hall.
  { intros e. unfold buildWhereClause, buildWith.
    destruct (forEach callback cs 0 [] []) as [[parts params]|e'] eqn:Hloop; [done|].
    intros [= <-]. apply forEach_throws in Hloop as (c & i & Hc & Hthrow).
    rewrite Forall_forall in Hall. by eapply Hall. }
  apply Forall_forall. intros c _.
  induction c as [b column operator v|b inner IH|b sql ps] using WhereClause_nested_ind;
    intros i e; simpl.
  - unfold operatorPart, elements, index.
    repeat case_match; intros; simplify_eq; eauto.
  - destruct (buildWith callback inner) as [[nestedSql nestedParams]|e'] eqn:Hinner;
      [done|]. intros [= <-].
    unfold buildWith in Hinner.
    destruct (forEach callback inner 0 [] []) as [[parts params]|e''] eqn:Hloop;
      [done|]. injection Hinner as <-.
    apply forEach_throws in Hloop as (c & j & Hc & Hthrow).
    rewrite Forall_forall in IH. by eapply IH.
  - done.
Qed.

Lemma foldl_joins (joins : list JoinClause) (sql : string) (params : list value) :
  foldl (λ '(sql, params) j,
           (sql +:+ " " +:+ joinTypeText (joinType j) +:+ " JOIN " +:+ joinTable j
                +:+ " ON " +:+ joinOn j,
            params ++ joinParams j))
        (sql, params) joins
  = (sql +:+ foldr String.append "" (map joinText joins),
     params ++ concat (map joinParams joins)).
Proof.
  revert sql params. induction joins as [|j joins IH]; intros sql params; simpl.
  - by rewrite append_empty_r, app_nil_r.
  - rewrite IH. by rewrite append_assoc, <- app_assoc.
Qed.

Lemma foldl_havings (havings : list WhereClause) (parts : list string)
    (params : list value) :
  foldl (λ '(havingParts, params) h,
           (havingParts ++ [columnText h +:+ " " +:+ operatorText h +:+ " ?"],
            params ++ [valueOf h]))
        (parts, params) havings
  = (parts ++ map (λ h, columnText h +:+ " " +:+ operatorText h +:+ " ?") havings,
     params ++ map valueOf havings).
Proof.
  revert parts params. induction havings as [|h havings IH]; intros parts params; simpl.
  - by rewrite !app_nil_r.
  - rewrite IH. by rewrite <- !app_assoc.
Qed.

Lemma buildSql_closed (this : QueryBuilder) :
  (buildSql this).1 =
  match whereSection this with
  | Ok (whereText, whereParams) =>
      Ok (selectText this +:+ joinsText this +:+ whereText +:+ groupByText this
            +:+ havingText this +:+ orderByText this +:+ limitText this
            +:+ offsetText this,
          joinsParams this ++ whereParams ++ havingParams this ++ pagingParams this)
  | Throw e => Throw e
  end.
Proof.
  unfold buildSql, bind, gets, ret, lift.
  unfold whereSection, selectText, joinsText, groupByText, havingText, orderByText,
    limitText, offsetText, joinsParams, havingParams, pagingParams.
  rewrite foldl_joins.
  destruct this as [table cols wheres lim off orders groups havings joins cur]; simpl.
  destruct wheres as [|c wheres]; simpl;
    [|destruct (buildWhereClause (c :: wheres)) as [[whereSql whereParams]|e]; simpl;
      [|done]];
    destruct groups as [|g groups]; simpl;
    destruct havings as [|h havings]; simpl; rewrite ?foldl_havings;
    destruct orders as [|o orders]; simpl;
    destruct lim as [lim|]; simpl; destruct off as [off|]; simpl;
    rewrite ?append_assoc, ?append_empty_r, <- ?app_assoc, ?app_nil_r;
    reflexivity.
Qed.

Lemma buildWhereClause_isOk (cs : list WhereClause) :
  isOk (buildWhereClause cs) = forallb wellTyped cs.
Proof.
  apply Bool.eq_true_iff_eq.
  rewrite buildWhereClause_returns, forallb_forall, Forall_forall. split.
  - intros H c Hc%list_elem_of_In. rewrite <- clauseBody_returns. by apply H.
  - intros H c Hc. rewrite clauseBody_returns. by apply H, list_elem_of_In.
Qed.

Lemma buildSql_isOk (this : QueryBuilder) :
  isOk (buildSql this).1 = forallb wellTyped (whereClauses this).
Proof.
  rewrite buildSql_closed. unfold whereSection.
  destruct (whereClauses this) as [|c cs] eqn:Hwhere; [done|].
  rewrite <- (buildWhereClause_isOk (c :: cs)).
  by destruct (buildWhereClause (c :: cs)) as [[whereSql whereParams]|e].
Qed.

(** [buildWhereClause], and [buildSql] with it, returns exactly when every
    clause is well typed, at any depth: IN and NOT IN need an array,
    BETWEEN and NOT BETWEEN a value that is neither [null] nor
    [undefined].  What it throws otherwise is a TypeError, and [buildSql]
    throws nothing else. *)
Theorem compilation_throws_on_ill_typed_values
    (cs : list WhereClause) (this : QueryBuilder) :
  isOk (buildWhereClause cs) = forallb wellTyped cs ∧
  (∀ e, buildWhereClause cs = Throw e → ∃ msg, e = TypeError msg) ∧
  isOk (buildSql this).1 = forallb wellTyped (whereClauses this) ∧
  (∀ e, (buildSql this).1 = Throw e → ∃ msg, e = TypeError msg).
Proof.
  split; [apply buildWhereClause_isOk|].
  split; [apply buildWhereClause_throws_TypeError|].
  split; [apply buildSql_isOk|].
  rewrite buildSql_closed. unfold whereSection.
  destruct (whereClauses this) as [|c cs'] eqn:Hwhere; [done|].
  destruct (buildWhereClause (c :: cs')) as [[whereSql whereParams]|e'] eqn:Hbuild;
    [done|].
  intros e [= <-]. by eapply buildWhereClause_throws_TypeError.
Qed.

Lemma compilation_throws_on_ill_typed_values_witness :
  buildWhereClause [Basic AND "ids" "IN" (VNum 1)] =
    Throw (TypeError "value.map is not a function") ∧
  ∃ msg, TypeError "value.map is not a function" = TypeError msg.
Proof.
  split; [reflexivity|].
  exact (proj1 (proj2 (compilation_throws_on_ill_typed_values
                         [Basic AND "ids" "IN" (VNum 1)] (new "users")))
           _ eq_refl).
Defined.

(** The statement [buildSql] returns is its sections in a fixed order,
    whatever the order of the calls that filled them: SELECT and FROM, the
    joins in the order they were added, WHERE, GROUP BY, HAVING, ORDER BY,
    LIMIT, OFFSET; its parameters are those of the joins, of WHERE, of
    HAVING, then the limit and the offset. *)
Theorem buildSql_sections (this : QueryBuilder) :
  (buildSql this).1 =
  match whereSection this with
  | Ok (whereText, whereParams) =>
      Ok (selectText this +:+ joinsText this +:+ whereText +:+ groupByText this
            +:+ havingText this +:+ orderByText this +:+ limitText this
            +:+ offsetText this,
          joinsParams this ++ whereParams ++ havingParams this ++ pagingParams this)
  | Throw e => Throw e
  end.
Proof. apply buildSql_closed. Qed.

Lemma forallb_sum_zero {A} (f : A → nat) (l : list A) :
  forallb (λ x, Nat.eqb (f x) 0) l = true → sum_list (map f l) = 0%nat.
Proof.
  induction l as [|x l IH]; [done|]. simpl.
  intros [Hx%Nat.eqb_eq Hl]%andb_prop. rewrite Hx. by rewrite IH.
Qed.

Lemma placeholders_concat (texts : list string) :
  placeholders (foldr String.append "" texts) = sum_list (map placeholders texts).
Proof.
  induction texts as [|t texts IH]; [done|]. simpl.
  by rewrite placeholders_append, IH.
Qed.

Lemma joinsText_placeholders (joins : list JoinClause) :
  forallb (λ j, unmarked (joinTable j) &&
                Nat.eqb (placeholders (joinOn j)) (length (joinParams j))) joins = true →
  placeholders (foldr String.append "" (map joinText joins))
  = length (concat (map joinParams joins)).
Proof.
  induction joins as [|j joins IH]; [done|]. simpl.
  intros [[Htable%Nat.eqb_eq Hon%Nat.eqb_eq]%andb_prop Hjoins]%andb_prop.
  rewrite placeholders_append, length_app, IH by done.
  unfold joinText. rewrite !placeholders_append, Htable, Hon.
  assert (placeholders (joinTypeText (joinType j)) = 0%nat) as -> by by destruct (joinType j).
  literal_placeholders. lia.
Qed.

Lemma havingText_placeholders (havings : list WhereClause) :
  forallb (λ h, unmarked (columnText h) && unmarked (operatorText h)) havings = true →
  sum_list (map placeholders
              (map (λ h, columnText h +:+ " " +:+ operatorText h +:+ " ?") havings))
  = length (map valueOf havings).
Proof.
  induction havings as [|h havings IH]; [done|]. simpl.
  intros [[Hcol%Nat.eqb_eq Hop%Nat.eqb_eq]%andb_prop Hhavings]%andb_prop.
  rewrite IH by done. rewrite !placeholders_append, Hcol, Hop.
  literal_placeholders. lia.
Qed.

Lemma orderByText_placeholders (orders : list (string * Direction)) :
  forallb (λ o, unmarked o.1) orders = true →
  sum_list (map placeholders (map (λ o, o.1 +:+ " " +:+ directionText o.2) orders))
  = 0%nat.
Proof.
  induction orders as [|o orders IH]; [done|]. simpl.
  intros [Hcol%Nat.eqb_eq Horders]%andb_prop.
  rewrite IH by done. rewrite !placeholders_append, Hcol.
  assert (placeholders (directionText o.2) = 0%nat) as -> by by destruct (o.2).
  literal_placeholders. lia.
Qed.

(** On a plan with no [?] in its identifiers, with balanced joins and
    raw fragments, and with none of the ordinary comparison operators in its
    predicates, the statement [buildSql] returns has exactly one placeholder
    for every parameter; so has the text [buildWhereClause] returns for
    such predicates. *)
Theorem placeholders_match_parameters
    (this : QueryBuilder) (cs : list WhereClause) :
  (forallb (λ c, balanced c && Nat.eqb (plainBasics c) 0) cs = true →
   ∀ sql params, buildWhereClause cs = Ok (sql, params) →
                 placeholders sql = length params) ∧
  (markedOnlyForParameters this = true →
   ∀ sql params, (buildSql this).1 = Ok (sql, params) →
                 placeholders sql = length params).
Proof.
  assert (∀ cs', forallb (λ c, balanced c && Nat.eqb (plainBasics c) 0) cs' = true →
            ∀ sql params, buildWhereClause cs' = Ok (sql, params) →
                          placeholders sql = length params) as Hwhere.
  { intros cs' Hcs sql params Hbuild.
    assert (forallb balanced cs' = true ∧
            forallb (λ c, Nat.eqb (plainBasics c) 0) cs' = true) as [Hbal Hplain].
    { clear Hbuild. induction cs' as [|c cs' IH]; [done|]. simpl in *.
      apply andb_prop in Hcs as [[Hb Hp]%andb_prop Hcs].
      destruct (IH Hcs) as [-> ->]. by rewrite Hb, Hp. }
    pose proof (placeholder_deficit cs' sql params Hbal Hbuild) as Hdeficit.
    rewrite (forallb_sum_zero plainBasics) in Hdeficit by done. lia. }
  split; [apply Hwhere|].
  unfold markedOnlyForParameters.
  intros [[[[[[Htable%Nat.eqb_eq Hcols]%andb_prop Hjoins]%andb_prop Hwheres]%andb_prop
             Hgroups]%andb_prop Hhavings]%andb_prop Horders]%andb_prop sql params.
  rewrite buildSql_closed.
  destruct (whereSection this) as [[whereText whereParams]|e] eqn:Hsection; [|done].
  intros [= <- <-].
  assert (placeholders whereText = length whereParams) as Hw.
  { unfold whereSection in Hsection.
    destruct (whereClauses this) as [|c cs'] eqn:Hcs; [by simplify_eq|].
    destruct (buildWhereClause (c :: cs')) as [[whereSql ps]|e] eqn:Hbuild; [|done].
    simplify_eq. rewrite placeholders_append. literal_placeholders.
    by rewrite (Hwhere _ Hwheres _ _ Hbuild). }
  rewrite !placeholders_append, !length_app, Hw.
  unfold selectText, joinsText, joinsParams.
  rewrite !placeholders_append, Htable, placeholders_join by done.
  rewrite (forallb_sum_zero placeholders) by done.
  rewrite joinsText_placeholders by done.
  assert (placeholders (groupByText this) = 0%nat) as ->.
  { unfold groupByText. destruct (groupByColumns this) as [|g groups] eqn:Hg; [done|].
    rewrite placeholders_append, placeholders_join by done.
    by rewrite (forallb_sum_zero placeholders). }
  assert (placeholders (havingText this) = length (havingParams this)) as ->.
  { unfold havingText, havingParams.
    destruct (havingConditions this) as [|h havings] eqn:Hh; [done|].
    rewrite placeholders_append, placeholders_join by done.
    by rewrite havingText_placeholders. }
  assert (placeholders (orderByText this) = 0%nat) as ->.
  { unfold orderByText. destruct (orderByConditions this) as [|o orders] eqn:Ho; [done|].
    rewrite placeholders_append, placeholders_join by done.
    by rewrite orderByText_placeholders. }
  unfold limitText, offsetText, pagingParams.
  destruct (limitValue this), (offsetValue this); literal_placeholders; simpl;
    first [reflexivity | lia].
Qed.

Lemma placeholders_match_parameters_witness :
  markedOnlyForParameters
    ((whereIn "status" [VStr "active"; VStr "pending"];;
      whereBetween "age" (VNum 18) (VNum 30);;
      whereRaw "score > ?" [VNum 5];;
      having "total" ">" (VNum 1);; limit 10;; offset 20) (new "users")).2 = true ∧
  placeholders
    "SELECT * FROM users WHERE status IN (?, ?) AND age BETWEEN ? AND ? AND (score > ?) HAVING total > ? LIMIT ? OFFSET ?"
  = length [VStr "active"; VStr "pending"; VNum 18; VNum 30; VNum 5; VNum 1;
            VNum 10; VNum 20].
Proof.
  split; [reflexivity|].
  exact (proj2 (placeholders_match_parameters
           ((whereIn "status" [VStr "active"; VStr "pending"];;
             whereBetween "age" (VNum 18) (VNum 30);;
             whereRaw "score > ?" [VNum 5];;
             having "total" ">" (VNum 1);; limit 10;; offset 20) (new "users")).2 [])
         eq_refl _ _ eq_refl).
Defined.

Lemma bind_assoc {A B C} (m : M A) (k : A → M B) (h : B → M C) (this : QueryBuilder) :
  bind (bind m k) h this = bind m (λ x, bind (k x) h) this.
Proof. unfold bind. by destruct (m this) as [[a|e] this']. Qed.

(** Two calls that write to different parts of the plan can be chained in
    either order: the builder ends up the same, and so does what [buildSql]
    returns. *)
Theorem calls_on_different_parts_commute (c1 c2 : call) (this : QueryBuilder) :
  writes c1 ≠ writes c2 →
  (run c1;; run c2) this = (run c2;; run c1) this ∧
  (run c1;; run c2;; buildSql) this = (run c2;; run c1;; buildSql) this.
Proof.
  intros Hparts.
  assert ((run c1;; run c2) this = (run c2;; run c1) this) as Hswap.
  { destruct this as [table cols wheres lim off orders groups havings joins cur].
    destruct c1, c2; try done;
      unfold bind, run, select, addWhere, limit, offset, orderBy, groupBy, having, modify;
      simpl; destruct cur; reflexivity. }
  split; [done|].
  rewrite <- !(bind_assoc (run _) (λ _, run _) (λ _, buildSql)).
  unfold bind at 1 3. by rewrite Hswap.
Qed.

Lemma calls_on_different_parts_commute_witness :
  writes (Limit 5) ≠ writes (AddWhere (Basic AND "age" "IS NULL" VNull)) ∧
  (limit 5;; whereNull "age") (new "users") = (whereNull "age";; limit 5) (new "users").
Proof.
  split; [done|].
  exact (proj1 (calls_on_different_parts_commute (Limit 5)
                  (AddWhere (Basic AND "age" "IS NULL" VNull)) (new "users")
                  ltac:(done))).
Defined.




(** The methods for IN, NOT IN, BETWEEN, NOT BETWEEN, IS NULL, IS NOT NULL
    and raw SQL never make compilation throw: after any of them [buildSql]
    returns if it returned before, whatever the arguments.  An empty list
    of values under [whereIn] is compiled as it stands, to [IN ()] with no
    parameter. *)
Theorem convenience_methods_compile
    (this : QueryBuilder) (table column sql : string) (vs ps : list value)
    (lo hi : value) :
  (forallb wellTyped (whereClauses this) = true →
   Forall (λ method : M unit, isOk (buildSql (method this).2).1 = true)
     [whereIn column vs; orWhereIn column vs; whereNotIn column vs;
      orWhereNotIn column vs; whereNull column; orWhereNull column;
      whereNotNull column; orWhereNotNull column; whereBetween column lo hi;
      orWhereBetween column lo hi; whereNotBetween column lo hi;
      orWhereNotBetween column lo hi; whereRaw sql ps; orWhereRaw sql ps]) ∧
  ((whereIn column vs;; buildSql) (new table)).1 =
    Ok (("SELECT * FROM " +:+ table) +:+ " WHERE " +:+ column +:+ " IN ("
          +:+ join ", " (map (λ _, "?") vs) +:+ ")", vs) ∧
  ((whereIn column [];; buildSql) (new table)).1 =
    Ok (("SELECT * FROM " +:+ table) +:+ " WHERE " +:+ column +:+ " IN ()", []).
Proof.
  split; [|split; reflexivity].
  intros Hwell.
  assert (∀ c, wellTyped c = true →
               isOk (buildSql (addWhere c this).2).1 = true) as Hadd.
  { intros c Hc.
    rewrite buildSql_isOk. unfold addWhere. destruct (currentWhereGroup this); simpl; [done|].
    rewrite forallb_app, Hwell. simpl. by rewrite Hc. }
  repeat (constructor; [by apply Hadd|]). constructor.
Qed.

Lemma convenience_methods_compile_witness :
  forallb wellTyped (whereClauses (where_ "age" ">" (VNum 18) (new "users")).2) = true ∧
  isOk (buildSql (whereIn "status" [] (where_ "age" ">" (VNum 18) (new "users")).2).2).1
  = true.
Proof.
  split; [reflexivity|].
  exact (Forall_inv (proj1 (convenience_methods_compile
           (where_ "age" ">" (VNum 18) (new "users")).2 "users" "status" "" [] []
           VNull VNull) eq_refl)).
Defined.

End CompileFacts.


(** ** QueryBuilder: what the terminal operations send and return *)

Module TerminalFacts.
Import QueryBuilder QueryBuilderSpec CompileSpec Connection ConnectionSpec Terminal.
Import TerminalSpec.
Import StringFacts QueryBuilderFacts CompileFacts.

(** [first()] assigns limit 1 to the builder and leaves it there: a limit
    set before is ignored, and a later [get()] on the same builder fetches
    one row at most.  The statement it sends ends with the LIMIT
    placeholder, bound to 1, and the OFFSET placeholder when an offset is
    set.  It returns the first row, and null, not an error, when the driver
    returns no row. *)
Theorem first_assigns_limit_one
    (driver : Driver) (connection : Connection) (this : QueryBuilder)
    (history : list event) :
  let run := first driver connection this history in
  run.1.2 = set_limitValue (Some 1) this ∧
  (∀ n, first driver connection (limit n this).2 history = run) ∧
  (∀ history', get driver connection run.1.2 history'
               = get driver connection (set_limitValue (Some 1) this) history') ∧
  (∀ e, (buildSql (set_limitValue (Some 1) this)).1 = Throw e →
        run = (Throw e, set_limitValue (Some 1) this, history)) ∧
  (∀ sql params, (buildSql (set_limitValue (Some 1) this)).1 = Ok (sql, params) →
     (∃ whereText whereParams,
        whereSection this = Ok (whereText, whereParams) ∧
        sql = selectText this +:+ joinsText this +:+ whereText +:+ groupByText this
                +:+ havingText this +:+ orderByText this +:+ " LIMIT ?"
                +:+ offsetText this ∧
        params = joinsParams this ++ whereParams ++ havingParams this ++
                 VNum 1 :: match offsetValue this with
                           | Some n => [VNum n]
                           | None => []
                           end) ∧
     run.2 = (query driver connection sql (Some params) history).2 ∧
     run.1.1 = match (query driver connection sql (Some params) history).1 with
               | Ok (Rows (row :: _)) => Ok (Some row)
               | Ok _ => Ok None
               | Throw e => Throw e
               end).
Proof.
  intros run.
  pose proof (buildSql_state (set_limitValue (Some 1) this)) as Hstate.
  assert (run.1.2 = set_limitValue (Some 1) this) as Hafter.
  { subst run. unfold first, get. simpl.
    destruct (buildSql (set_limitValue (Some 1) this)) as [[[sql params]|e] this'];
      simpl in Hstate; subst this'; [|done].
    by destruct (query driver connection sql (Some params) history) as [[r|e] h]. }
  split; [done|]. split; [done|]. split; [by rewrite Hafter|].
  clear Hafter. subst run. unfold first, get. simpl. split.
  - intros e He.
    destruct (buildSql (set_limitValue (Some 1) this)) as [[[sql params]|e'] this'];
      simpl in *; by simplify_eq.
  - intros sql params Hbuild.
    pose proof (buildSql_closed (set_limitValue (Some 1) this)) as Hclosed.
    rewrite Hbuild in Hclosed.
    destruct (buildSql (set_limitValue (Some 1) this)) as [[[sql' params']|e] this'];
      simpl in *; simplify_eq.
    split.
    + change (whereSection (set_limitValue (Some 1) this)) with (whereSection this)
        in Hclosed.
      destruct (whereSection this) as [[whereText whereParams]|e]; [|done].
      exists whereText, whereParams. split; [done|].
      by injection Hclosed as -> ->.
    + destruct (query driver connection sql (Some params) history)
        as [[[[|row rows]|id rows]|e] h]; done.
Qed.

Lemma first_assigns_limit_one_witness :
  (buildSql (set_limitValue (Some 1) (limit 10 (QueryBuilder.new "users")).2)).1
    = Ok ("SELECT * FROM users LIMIT ?", [VNum 1]) ∧
  (first answering pooled (limit 10 (QueryBuilder.new "users")).2 []).1.1
    = Ok (Some userRow) ∧
  (first empty pooled (limit 10 (QueryBuilder.new "users")).2 []).1.1 = Ok None.
Proof.
  split; [reflexivity|]. split.
  - exact (proj2 (proj2 (proj2 (proj2 (proj2 (proj2
             (first_assigns_limit_one answering pooled
                (limit 10 (QueryBuilder.new "users")).2 []))))
             "SELECT * FROM users LIMIT ?" [VNum 1] eq_refl))).
  - exact (proj2 (proj2 (proj2 (proj2 (proj2 (proj2
             (first_assigns_limit_one empty pooled
                (limit 10 (QueryBuilder.new "users")).2 []))))
             "SELECT * FROM users LIMIT ?" [VNum 1] eq_refl))).
Defined.



End TerminalFacts.


(** ** Model: hooks, lookups, updates and deletions *)

Module CrudFacts.
Import QueryBuilder QueryBuilderSpec CompileSpec Connection ConnectionSpec Terminal.
Import TerminalSpec Model ModelSpec ModelCrud StringFacts QueryBuilderFacts CompileFacts.
Import ModelFacts.

Lemma runHookList_app (hs1 hs2 : list ModelHook) (instance : Stored) :
  runHookList (hs1 ++ hs2) instance =
  match runHookList hs1 instance with
  | (Ok _, instance') => runHookList hs2 instance'
  | (Throw e, instance') => (Throw e, instance')
  end.
Proof.
  revert instance. induction hs1 as [|h hs1 IH]; intros instance; [done|].
  simpl. destruct (h instance) as [[[]|e] instance']; [apply IH|done].
Qed.

(** Hooks run in the order they were added, each on the instance the one
    before left; a hook that fails ends the run, and the hooks after it are
    not called.  A hook added for one event does not run for another. *)
Theorem hooks_run_in_registration_order
    (this : Model) (type other : HookType) (hook : ModelHook) (instance : Stored)
    (hs1 hs2 : list ModelHook) :
  runHooks (addHook type hook this) type instance =
    match runHooks this type instance with
    | (Ok _, instance') =>
        match hook instance' with
        | (Ok _, instance'') => (Ok tt, instance'')
        | (Throw e, instance'') => (Throw e, instance'')
        end
    | (Throw e, instance') => (Throw e, instance')
    end ∧
  (other ≠ type →
   runHooks (addHook type hook this) other instance = runHooks this other instance) ∧
  (∀ e instance', runHookList hs1 instance = (Throw e, instance') →
                  runHookList (hs1 ++ hs2) instance = (Throw e, instance')) ∧
  (∀ instance', runHookList hs1 instance = (Ok tt, instance') →
                runHookList (hs1 ++ hs2) instance = runHookList hs2 instance').
Proof.
  split; [|split; [|split]].
  - unfold runHooks, addHook. simpl. rewrite decide_True by done.
    rewrite runHookList_app. destruct (hooks this type) as [hs|]; simpl.
    + destruct (runHookList hs instance) as [[[]|e] instance']; [|done].
      simpl. by destruct (hook instance') as [[[]|e] instance''].
    + by destruct (hook instance) as [[[]|e] instance''].
  - intros Hother. unfold runHooks, addHook. simpl. by rewrite decide_False.
  - intros e instance' H. by rewrite runHookList_app, H.
  - intros instance' H. by rewrite runHookList_app, H.
Qed.

Lemma hooks_run_in_registration_order_witness :
  afterCreate ≠ beforeCreate ∧
  runHooks
    (addHook beforeCreate (λ o, (Ok tt, assign "name" (VStr "z") o))
       (addHook beforeCreate (λ o, (Ok tt, assign "name" (VStr "y") o))
          (mkModel "users" None (λ _, None))))
    beforeCreate (stored [("name", VStr "x")]) = (Ok tt, stored [("name", VStr "z")]) ∧
  runHooks
    (addHook beforeCreate (λ o, (Ok tt, assign "name" (VStr "y") o))
       (mkModel "users" None (λ _, None)))
    afterCreate (stored [("name", VStr "x")]) = (Ok tt, stored [("name", VStr "x")]).
Proof.
  split; [done|]. split; [reflexivity|].
  rewrite (proj1 (proj2 (hooks_run_in_registration_order
             (mkModel "users" None (λ _, None)) beforeCreate afterCreate
             (λ o, (Ok tt, assign "name" (VStr "y") o)) (stored [("name", VStr "x")])
             [] []))
           ltac:(done)).
  reflexivity.
Defined.

(** The INSERT of [create], the UPDATE of [update] and the DELETE of
    [delete] have exactly one placeholder for every parameter they are sent
    with, when the table name and the keys of the data hold no [?]. *)
Theorem written_statements_are_balanced (table : string) (data : object) (id : Z) :
  unmarked table = true → forallb unmarked (keys data) = true →
  placeholders (insertSql table data) = length (values data) ∧
  placeholders (updateSql table data) = length (values data ++ [VNum id]) ∧
  placeholders (deleteSql table) = length [VNum id].
Proof.
  intros Htable%Nat.eqb_eq Hkeys.
  unfold insertSql, updateSql, deleteSql, values, keys in *.
  rewrite !placeholders_append, Htable, !placeholders_join by done.
  rewrite (forallb_sum_zero placeholders) by done.
  rewrite length_app, !length_map. literal_placeholders.
  assert (sum_list (map placeholders (map (λ _ : string, "?") (map fst data)))
          = length data) as ->.
  { clear. induction data as [|kv data IH]; [done|]. simpl. by rewrite IH. }
  assert (sum_list (map placeholders (map (λ key, key +:+ " = ?") (map fst data)))
          = length data) as ->.
  { clear Htable. induction data as [|kv data IH]; [done|]. simpl in *.
    apply andb_prop in Hkeys as [Hk%Nat.eqb_eq Hkeys].
    rewrite IH by done. rewrite placeholders_append, Hk. literal_placeholders. lia. }
  simpl. lia.
Qed.

Lemma written_statements_are_balanced_witness :
  unmarked "users" = true ∧
  forallb unmarked (keys [("name", VStr "x"); ("age", VNum 3)]) = true ∧
  placeholders "UPDATE users SET name = ?, age = ? WHERE id = ?" = 3%nat.
Proof.
  split; [reflexivity|]. split; [reflexivity|].
  exact (proj1 (proj2 (written_statements_are_balanced "users"
                         [("name", VStr "x"); ("age", VNum 3)] 5 eq_refl eq_refl))).
Defined.

Lemma findById_builder (table : string) (id : Z) :
  buildSql (set_limitValue (Some 1) (where_ "id" "=" (VNum id) (QueryBuilder.new table)).2)
  = (Ok ("SELECT * FROM " +:+ table +:+ " WHERE id = LIMIT ?", [VNum id; VNum 1]),
     set_limitValue (Some 1) (where_ "id" "=" (VNum id) (QueryBuilder.new table)).2).
Proof.
  transitivity
    (Ok ((("SELECT * FROM " +:+ table) +:+ " WHERE id =") +:+ " LIMIT ?",
         [VNum id; VNum 1]) : result (string * list value),
     set_limitValue (Some 1) (where_ "id" "=" (VNum id) (QueryBuilder.new table)).2);
    [reflexivity|].
  by rewrite !append_assoc.
Qed.

Lemma findById_query (driver : Driver) (this : Model) (id : Z) (history : list event)
    (conn : Connection) :
  connection this = Ok conn →
  findById driver this id history =
  (match (query driver conn
            ("SELECT * FROM " +:+ Model.tableName this +:+ " WHERE id = LIMIT ?")
            (Some [VNum id; VNum 1]) history).1 with
   | Ok results => Ok (firstRow results)
   | Throw e => Throw e
   end,
   (query driver conn
      ("SELECT * FROM " +:+ Model.tableName this +:+ " WHERE id = LIMIT ?")
      (Some [VNum id; VNum 1]) history).2).
Proof.
  intros Hconn. unfold findById, first, get. rewrite Hconn.
  change (limit 1 ?b).2 with (set_limitValue (Some 1) b).
  rewrite findById_builder.
  by destruct (query driver conn _ _ history) as [[r|e] h].
Qed.

(** [findById(id)] sends one statement, the text
    [SELECT * FROM table WHERE id = LIMIT ?] with the parameters [id] and 1:
    two parameters for one placeholder.  It returns the first row the driver
    answers with, and null when it answers with none; on a model with no
    connection it throws and sends nothing. *)
Theorem findById_statement
    (driver : Driver) (this : Model) (id : Z) (history : list event) :
  (∀ e, connection this = Throw e →
        findById driver this id history = (Throw e, history)) ∧
  (∀ conn, connection this = Ok conn →
     let sql := "SELECT * FROM " +:+ Model.tableName this +:+ " WHERE id = LIMIT ?" in
     let sent := query driver conn sql (Some [VNum id; VNum 1]) history in
     findById driver this id history =
       (match sent.1 with
        | Ok results => Ok (firstRow results)
        | Throw e => Throw e
        end, sent.2) ∧
     (unmarked (Model.tableName this) = true → placeholders sql = 1%nat)).
Proof.
  split.
  - intros e He. unfold findById. by rewrite He.
  - intros conn Hconn sql sent. split; [by apply findById_query|].
    intros Htable%Nat.eqb_eq. subst sql.
    rewrite !placeholders_append, Htable. by literal_placeholders.
Qed.

Lemma findById_statement_witness :
  connection (mkModel "users" (Some pooled) (λ _, None)) = Ok pooled ∧
  unmarked "users" = true ∧
  findById answering (mkModel "users" (Some pooled) (λ _, None)) 5 [] =
    (Ok (Some userRow),
     [Checkout 0%nat 3%nat;
      Execute 3%nat "SELECT * FROM users WHERE id = LIMIT ?" (Some [VNum 5; VNum 1]);
      Release 3%nat]) ∧
  placeholders "SELECT * FROM users WHERE id = LIMIT ?" = 1%nat.
Proof.
  split; [reflexivity|]. split; [reflexivity|].
  destruct (proj2 (findById_statement answering
                     (mkModel "users" (Some pooled) (λ _, None)) 5 [])
              pooled eq_refl) as [Hfind Hmarks].
  split; [exact Hfind|exact (Hmarks eq_refl)].
Defined.

Lemma current_stored (o : object) (m : list value) :
  current (mkStored (fields (stored o)) m) = o.
Proof.
  unfold current, stored. simpl. induction o as [|[k v] o IH]; [done|].
  simpl. by rewrite IH.
Qed.

Lemma getProp_merge_other (key : string) (existing data : list (string * field))
    (m : list value) :
  key ∉ data.*1 →
  getProp key (current (mkStored (merge existing data) m)) =
  getProp key (current (mkStored existing m)).
Proof.
  unfold merge. revert existing.
  induction data as [|[k f] data IH]; intros existing Hkey; [done|].
  simpl in *. apply not_elem_of_cons in Hkey as [Hk Hkey].
  rewrite IH by done. rewrite current_setField. by apply getProp_setProp_ne.
Qed.

Lemma getProp_merge_data (key : string) (f : field)
    (existing data : list (string * field)) (m : list value) :
  NoDup data.*1 → (key, f) ∈ data →
  getProp key (current (mkStored (merge existing data) m)) = read m f.
Proof.
  unfold merge. revert existing.
  induction data as [|[k g] data IH]; intros existing Hnodup Hin.
  - by apply elem_of_nil in Hin.
  - simpl in *. apply NoDup_cons in Hnodup as [Hk Hnodup].
    apply elem_of_cons in Hin as [[= -> ->]|Hin].
    + fold (merge (setField k g existing) data).
      rewrite getProp_merge_other by done. rewrite current_setField.
      apply getProp_setProp.
    + by apply IH.
Qed.

(** [update(id, data)] without the record, that is when the lookup
    answers null or fails, sends nothing after the lookup, runs no hook and
    returns false or fails as the lookup did.  With the record it hands the
    beforeUpdate hooks the record with the properties of [data] laid over
    it, and then sends the UPDATE with the columns of [data], the values
    [data] has once those hooks have run, and the id: the values [data]
    came with when the hooks left the nested values of [data] as they
    were, whatever they assigned on the instance.  It returns whether a row
    was affected, and runs the afterUpdate hooks only then. *)
Theorem update_sends_the_data
    (driver : Driver) (this : Model) (id : Z) (data : Stored) (history : list event) :
  (∀ h, findById driver this id history = (Ok None, h) →
        update driver this id data history = (Ok false, h)) ∧
  (∀ e h, findById driver this id history = (Throw e, h) →
          update driver this id data history = (Throw e, h)) ∧
  (∀ existing key f,
     let updatedInstance :=
       mkStored (merge (fields (stored existing)) (fields data)) (memory data) in
     (key ∉ keys (current data) →
      getProp key (current updatedInstance) = getProp key existing) ∧
     (NoDup (keys (current data)) → (key, f) ∈ fields data →
      getProp key (current updatedInstance) = read (memory data) f)) ∧
  (∀ existing h1 draft conn result h2,
     findById driver this id history = (Ok (Some existing), h1) →
     runHooks this beforeUpdate
       (mkStored (merge (fields (stored existing)) (fields data)) (memory data))
       = (Ok tt, draft) →
     connection this = Ok conn →
     let sent := current (mkStored (fields data) (memory draft)) in
     query driver conn (updateSql (Model.tableName this) sent)
       (Some (values sent ++ [VNum id])) h1 = (Ok result, h2) →
     statements h2 =
       statements h1 ++
       [(updateSql (Model.tableName this) sent, Some (values sent ++ [VNum id]))] ∧
     update driver this id data history =
       (if affected result
        then match (runHooks this afterUpdate draft).1 with
             | Ok _ => Ok true
             | Throw e => Throw e
             end
        else Ok false, h2) ∧
     keys sent = keys (current data) ∧
     ((∀ key l, (key, Nested l) ∈ fields data →
                memory draft !! l = memory data !! l) →
      sent = current data)).
Proof.
  assert (∀ fs m, keys (current (mkStored fs m)) = fs.*1) as Hkeys.
  { intros fs m. unfold keys, current. simpl. by rewrite map_map. }
  split; [|split; [|split]].
  - intros h Hfind. unfold update. by rewrite Hfind.
  - intros e h Hfind. unfold update. by rewrite Hfind.
  - intros existing key f updatedInstance. subst updatedInstance.
    destruct data as [fs m]. rewrite Hkeys. cbn [fields memory]. split.
    + intros Hkey. by rewrite getProp_merge_other, current_stored.
    + apply getProp_merge_data.
  - intros existing h1 draft conn result h2 Hfind Hbefore Hconn sent Hquery.
    split; [by eapply query_statements|]. split; [|split].
    + unfold update. rewrite Hfind, Hbefore, Hconn. fold sent. rewrite Hquery.
      destruct (affected result); [|done].
      by destruct (runHooks this afterUpdate draft) as [[[]|e] o].
    + subst sent. destruct data as [fs m]. apply keys_current.
    + intros Hcells. subst sent. destruct data as [fs m]. by apply current_untouched.
Qed.

Lemma update_sends_the_data_witness :
  findById answering (mkModel "users" (Some pooled) (λ _, None)) 5 [] =
    (Ok (Some userRow),
     [Checkout 0%nat 3%nat;
      Execute 3%nat "SELECT * FROM users WHERE id = LIMIT ?" (Some [VNum 5; VNum 1]);
      Release 3%nat]) ∧
  statements
    (update answering
       (addHook beforeUpdate (push "tags" (VStr "b"))
          (mkModel "users" (Some pooled) (λ _, None))) 5 post []).2 =
    [("SELECT * FROM users WHERE id = LIMIT ?", Some [VNum 5; VNum 1]);
     ("UPDATE users SET title = ?, tags = ? WHERE id = ?",
      Some [VStr "t"; VArr [VStr "a"; VStr "b"]; VNum 5])] ∧
  getProp "name" (current
    (mkStored (merge (fields (stored userRow)) (fields post)) (memory post))) = VStr "x".
Proof.
  split; [reflexivity|]. split; [reflexivity|].
  exact (proj1 (proj1 (proj2 (proj2 (update_sends_the_data answering
                  (mkModel "users" (Some pooled) (λ _, None)) 5 post []))) userRow
                  "name" (Plain VNull))
           ltac:(apply (bool_decide_unpack _); vm_compute; exact I)).
Defined.

(** [delete(id)] without the record sends nothing after the lookup, runs
    no hook and returns false or fails as the lookup did.  With the record
    it sends the DELETE with the id once the beforeDelete hooks have
    succeeded; it returns whether a row was affected, and runs the
    afterDelete hooks only then. *)
Theorem delete_needs_the_record
    (driver : Driver) (this : Model) (id : Z) (history : list event) :
  (∀ h, findById driver this id history = (Ok None, h) →
        delete driver this id history = (Ok false, h)) ∧
  (∀ e h, findById driver this id history = (Throw e, h) →
          delete driver this id history = (Throw e, h)) ∧
  (∀ existing h1 e draft,
     findById driver this id history = (Ok (Some existing), h1) →
     runHooks this beforeDelete (stored existing) = (Throw e, draft) →
     delete driver this id history = (Throw e, h1)) ∧
  (∀ existing h1 draft conn result h2,
     findById driver this id history = (Ok (Some existing), h1) →
     runHooks this beforeDelete (stored existing) = (Ok tt, draft) →
     connection this = Ok conn →
     query driver conn (deleteSql (Model.tableName this)) (Some [VNum id]) h1
       = (Ok result, h2) →
     statements h2 =
       statements h1 ++ [(deleteSql (Model.tableName this), Some [VNum id])] ∧
     delete driver this id history =
       (if affected result
        then match (runHooks this afterDelete draft).1 with
             | Ok _ => Ok true
             | Throw e => Throw e
             end
        else Ok false, h2)).
Proof.
  split; [|split; [|split]].
  - intros h Hfind. unfold delete. by rewrite Hfind.
  - intros e h Hfind. unfold delete. by rewrite Hfind.
  - intros existing h1 e draft Hfind Hbefore. unfold delete. by rewrite Hfind, Hbefore.
  - intros existing h1 draft conn result h2 Hfind Hbefore Hconn Hquery.
    split; [by eapply query_statements|].
    unfold delete. rewrite Hfind, Hbefore, Hconn, Hquery.
    destruct (affected result); [|done].
    by destruct (runHooks this afterDelete draft) as [[[]|e] o].
Qed.

Lemma delete_needs_the_record_witness :
  findById empty (mkModel "users" (Some pooled) (λ _, None)) 5 [] =
    (Ok None,
     [Checkout 0%nat 3%nat;
      Execute 3%nat "SELECT * FROM users WHERE id = LIMIT ?" (Some [VNum 5; VNum 1]);
      Release 3%nat]) ∧
  delete empty (mkModel "users" (Some pooled) (λ _, None)) 5 [] =
    (Ok false,
     [Checkout 0%nat 3%nat;
      Execute 3%nat "SELECT * FROM users WHERE id = LIMIT ?" (Some [VNum 5; VNum 1]);
      Release 3%nat]).
Proof.
  split; [reflexivity|].
  exact (proj1 (delete_needs_the_record empty (mkModel "users" (Some pooled) (λ _, None))
                  5 []) _ eq_refl).
Defined.

End CrudFacts.


(** ** Connection and FastOrm: transactions and shutdown *)

Module TransactionFacts.
Import Connection ConnectionSpec FastOrm.

(** [beginTransaction()] on a transaction-bound connection throws without
    touching the driver: transactions do not nest.  On a pool-backed
    connection it checks a connection out, sends START TRANSACTION on it
    and returns it without releasing it; when the pool refuses the
    checkout nothing is sent, and when START TRANSACTION fails the
    connection stays checked out. *)
Theorem beginTransaction_keeps_the_connection
    (driver : Driver) (history : list event) :
  (∀ c, beginTransaction driver (Connection.new (OpenConnection c)) history =
        (Throw (Error "Cannot begin a transaction from a transactional connection."),
         history)) ∧
  (∀ p e, getConnection driver p history = Throw e →
     beginTransaction driver (Connection.new (PoolOptions p)) history =
       (Throw e, history)) ∧
  (∀ p c, getConnection driver p history = Ok c →
     let run := beginTransaction driver (Connection.new (PoolOptions p)) history in
     run.2 = history ++ [Checkout p c; Execute c "START TRANSACTION" None] ∧
     run.1 = match execute driver c "START TRANSACTION" None
                     (history ++ [Checkout p c]) with
             | Ok _ => Ok c
             | Throw e => Throw e
             end).
Proof.
  split; [done|]. split.
  - intros p e Hget. unfold beginTransaction, getActiveConnection. simpl.
    by rewrite Hget.
  - intros p c Hget. unfold beginTransaction, getActiveConnection, statement. simpl.
    rewrite Hget.
    destruct (execute driver c _ _ _); simpl; by rewrite <- app_assoc.
Qed.

Lemma beginTransaction_keeps_the_connection_witness :
  getConnection refusing 0%nat [] = Ok 3%nat ∧
  beginTransaction refusing (Connection.new (PoolOptions 0%nat)) [] =
    (Throw (Error "ER_PARSE_ERROR"),
     [Checkout 0%nat 3%nat; Execute 3%nat "START TRANSACTION" None]).
Proof.
  split; [reflexivity|].
  destruct (proj2 (proj2 (beginTransaction_keeps_the_connection refusing []))
              0%nat 3%nat eq_refl) as [H2 H1].
  destruct (beginTransaction refusing (Connection.new (PoolOptions 0%nat)) []) as [r h].
  simpl in *. by rewrite H1, H2.
Defined.

(** [transaction(callback)] once START TRANSACTION has succeeded on the
    checked-out connection: the callback is handed a connection bound to
    it; when the callback returns, COMMIT is sent and its result returned;
    when the callback or COMMIT throws, ROLLBACK is sent and the error
    thrown again, unless ROLLBACK throws itself, whose error is then the
    one thrown; on each of these ways the connection is released last,
    once.  When the transaction could not begin, its error is thrown and
    nothing is rolled back or released. *)
Theorem transaction_commits_or_rolls_back
    (driver : Driver) (R : Type) (p : Pool) (callback : Connection → IO R)
    (history : list event) :
  (∀ e h, beginTransaction driver (Connection.new (PoolOptions p)) history = (Throw e, h) →
     transaction driver (FastOrm.new p) callback history = (Throw e, h)) ∧
  (∀ c h1, beginTransaction driver (Connection.new (PoolOptions p)) history = (Ok c, h1) →
     (∀ result h2 answer,
        callback (Connection.new (OpenConnection c)) h1 = (Ok result, h2) →
        execute driver c "COMMIT" None h2 = Ok answer →
        transaction driver (FastOrm.new p) callback history =
          (Ok result, h2 ++ [Execute c "COMMIT" None; Release c])) ∧
     (∀ result h2 e,
        callback (Connection.new (OpenConnection c)) h1 = (Ok result, h2) →
        execute driver c "COMMIT" None h2 = Throw e →
        transaction driver (FastOrm.new p) callback history =
          (match execute driver c "ROLLBACK" None (h2 ++ [Execute c "COMMIT" None]) with
           | Ok _ => Throw e
           | Throw e' => Throw e'
           end,
           h2 ++ [Execute c "COMMIT" None; Execute c "ROLLBACK" None; Release c])) ∧
     (∀ e h2,
        callback (Connection.new (OpenConnection c)) h1 = (Throw e, h2) →
        transaction driver (FastOrm.new p) callback history =
          (match execute driver c "ROLLBACK" None h2 with
           | Ok _ => Throw e
           | Throw e' => Throw e'
           end,
           h2 ++ [Execute c "ROLLBACK" None; Release c]))).
Proof.
  split.
  - intros e h Hbegin. unfold transaction, FastOrm.new. cbn [connection]. by rewrite Hbegin.
  - intros c h1 Hbegin. split; [|split].
    + intros result h2 answer Hcall Hcommit.
      unfold transaction, FastOrm.new, commitTransaction, statement, releaseConnection.
      cbn [connection].
      rewrite Hbegin, Hcall, Hcommit. simpl. by rewrite <- app_assoc.
    + intros result h2 e Hcall Hcommit.
      unfold transaction, FastOrm.new, commitTransaction, rollbackTransaction, statement,
        releaseConnection.
      cbn [connection]. rewrite Hbegin, Hcall, Hcommit. simpl.
      destruct (execute driver c "ROLLBACK" None _); simpl; by rewrite <- !app_assoc.
    + intros e h2 Hcall.
      unfold transaction, FastOrm.new, rollbackTransaction, statement, releaseConnection.
      cbn [connection].
      rewrite Hbegin, Hcall. simpl.
      destruct (execute driver c "ROLLBACK" None _); simpl; by rewrite <- !app_assoc.
Qed.

Lemma transaction_commits_or_rolls_back_witness :
  beginTransaction accepting (Connection.new (PoolOptions 0%nat)) [] =
    (Ok 3%nat, [Checkout 0%nat 3%nat; Execute 3%nat "START TRANSACTION" None]) ∧
  transaction accepting (FastOrm.new 0%nat)
    (λ trx, query accepting trx "DELETE FROM t" None) [] =
    (Ok (Header 7 1),
     [Checkout 0%nat 3%nat; Execute 3%nat "START TRANSACTION" None;
      Execute 3%nat "DELETE FROM t" None;
      Execute 3%nat "COMMIT" None; Release 3%nat]).
Proof.
  split; [reflexivity|].
  exact (proj1 (proj2 (transaction_commits_or_rolls_back accepting QueryResult 0%nat
                         (λ trx, query accepting trx "DELETE FROM t" None) [])
                  3%nat _ eq_refl)
           (Header 7 1) _ (Header 7 1) eq_refl eq_refl).
Defined.

(** [end()] forgets the pool: afterwards [query] and [beginTransaction]
    throw without touching the driver, and a second [end()] changes
    nothing.  On a transaction-bound connection, which has no pool,
    [end()] changes nothing and statements still run. *)
Theorem end_closes_the_pool (driver : Driver) (history : list event) :
  (∀ this, end_ (end_ this) = end_ this) ∧
  (∀ p sql params,
     query driver (end_ (Connection.new (PoolOptions p))) sql params history =
       (Throw (Error "No active database connection or pool available."), history)) ∧
  (∀ p,
     beginTransaction driver (end_ (Connection.new (PoolOptions p))) history =
       (Throw (Error "No active database connection or pool available."), history)) ∧
  (∀ p callback,
     transaction (R := unit) driver (disconnect (FastOrm.new p)) callback history =
       (Throw (Error "No active database connection or pool available."), history)) ∧
  (∀ c, end_ (Connection.new (OpenConnection c)) = Connection.new (OpenConnection c)).
Proof.
  split; [by intros [[p|] tc b]|]. done.
Qed.

End TransactionFacts.


(** ** MigrationRunner: runs one after the other *)

Module LedgerFacts.
Import MigrationRunner MigrationRunnerSpec MigrationRunnerFacts LedgerSpec.

Section WithDatabase.
Context {U : Type}.

Lemma upLoop_nothing_pending (ran : list string) (available : list (Migration U)) w :
  pending available ran = [] → upLoop available ran w = (Ok tt, w).
Proof.
  induction available as [|m available IH]; [done|]. simpl.
  case_bool_decide as Hran.
  - rewrite pending_cons_applied by done. apply IH.
  - by rewrite pending_cons_new.
Qed.

Lemma upLoop_returned_distinct (ran : list string) (available : list (Migration U)) :
  ∀ w,
    (upLoop available ran w).1 = Ok tt →
    NoDup (name <$> pending available ran) ∧
    ∀ n, n ∈ name <$> pending available ran → n ∉ ledger w.
Proof.
  induction available as [|m available IH]; intros w; simpl.
  - intros _. split; [constructor|]. by intros n ?%elem_of_nil.
  - case_bool_decide as Hran.
    + rewrite pending_cons_applied by done. apply IH.
    + rewrite pending_cons_new by done. unfold call.
      destruct (up m (user w)) as [[[]|e] u']; simpl; [|done].
      unfold insertRow. simpl. case_bool_decide as Hdup; simpl; [done|].
      intros [Hnodup Hfresh]%IH. simpl in Hfresh. split.
      * apply NoDup_cons. split; [|done]. intros Hin.
        apply (Hfresh _ Hin), elem_of_app. right. left.
      * intros n [->|Hin]%elem_of_cons; [done|].
        intros Hn. apply (Hfresh _ Hin), elem_of_app. by left.
Qed.

Lemma upLoop_stops_at_shared_name (ran : list string) (available : list (Migration U)) :
  ∀ w done m rest,
    pending available ran = done ++ m :: rest →
    NoDup (name <$> done) →
    (∀ n, n ∈ name <$> done → n ∉ ledger w) →
    name m ∈ ledger w ++ (name <$> done) →
    (runAll (up <$> done ++ [m]) (user w)).1 = Ok tt →
    let run := upLoop available ran w in
    (∃ e, run.1 = Throw e) ∧
    user run.2 = (runAll (up <$> done ++ [m]) (user w)).2 ∧
    ledger run.2 = ledger w ++ (name <$> done) ∧
    history run.2 =
      history w ++ upEvents (name <$> done) ++ [RunUp (name m); InsertRow (name m)].
Proof.
  induction available as [|m0 available IH]; intros w done m rest Htodo Hnodup Hfresh Hdup Hups.
  - by destruct done.
  - simpl. case_bool_decide as Hran.
    + rewrite pending_cons_applied in Htodo by done. by apply (IH w done m rest).
    + rewrite pending_cons_new in Htodo by done. unfold call.
      destruct done as [|d done]; simpl in *.
      * injection Htodo as -> Hrest. rewrite app_nil_r in Hdup.
        destruct (up m (user w)) as [[[]|e] u']; simpl in *; [|done].
        unfold insertRow. simpl. rewrite bool_decide_eq_true_2 by done. simpl.
        rewrite app_nil_r. split; [by eexists|]. split; [done|]. split; [done|].
        by rewrite <- app_assoc.
      * injection Htodo as -> Hrest.
        destruct (up d (user w)) as [[[]|e] u']; simpl in *; [|done].
        unfold insertRow. simpl.
        rewrite bool_decide_eq_false_2 by (apply Hfresh; left). simpl.
        apply NoDup_cons in Hnodup as [Hd Hnodup].
        destruct (IH (mkWorld (ledger w ++ [name d]) u'
                        ((history w ++ [RunUp (name d)]) ++ [InsertRow (name d)]))
                    done m rest Hrest Hnodup) as (Hthrow & Huser & Hledger & Hhistory);
          simpl.
        -- intros n Hn [Hin|Hin%list_elem_of_singleton]%elem_of_app.
           ++ apply (Hfresh n); [by right|done].
           ++ by subst n.
        -- rewrite <- app_assoc. simpl.
           apply elem_of_app in Hdup as [Hdup|Hdup]; [apply elem_of_app; by left|].
           apply elem_of_app. right. done.
        -- done.
        -- simpl in *. destruct (upLoop available ran _) as [r w']. simpl in *.
           split; [done|]. split; [done|]. rewrite Hledger, Hhistory.
           split; [by rewrite <- app_assoc|]. by rewrite <- !app_assoc.
Qed.

Lemma newMapFrom_lookup_other (ms : list (Migration U)) :
  ∀ (acc : gmap string (Migration U)) n,
    n ∉ name <$> ms → newMapFrom acc (map (λ m, (name m, m)) ms) !! n = acc !! n.
Proof.
  unfold newMapFrom.
  induction ms as [|m ms IH]; intros acc n Hn; [done|]. simpl in *.
  apply not_elem_of_cons in Hn as [Hne Hn].
  rewrite IH by done. by rewrite lookup_insert_ne.
Qed.

Lemma newMapFrom_lookup_distinct (ms : list (Migration U)) :
  ∀ (acc : gmap string (Migration U)) m,
    NoDup (name <$> ms) → m ∈ ms →
    newMapFrom acc (map (λ m, (name m, m)) ms) !! name m = Some m.
Proof.
  induction ms as [|m0 ms IH]; intros acc m Hnodup Hm; [by apply elem_of_nil in Hm|].
  simpl in Hnodup. apply NoDup_cons in Hnodup as [Hm0 Hnodup].
  apply elem_of_cons in Hm as [->|Hm].
  - unfold newMapFrom. simpl. fold (newMapFrom (<[name m0:=m0]> acc) (map (λ m, (name m, m)) ms)).
    rewrite newMapFrom_lookup_other by done. by rewrite lookup_insert_eq.
  - by apply (IH (<[name m0:=m0]> acc)).
Qed.

Lemma pending_after (available : list (Migration U)) (applied : list string) :
  pending available (applied ++ (name <$> pending available applied)) = [].
Proof.
  destruct (pending available (applied ++ (name <$> pending available applied)))
    as [|m rest] eqn:Hrest; [done|].
  assert (m ∈ m :: rest) as Hm by left. rewrite <- Hrest in Hm.
  apply list_elem_of_filter in Hm as [Hnew Hm]. destruct Hnew.
  apply elem_of_app.
  destruct (decide (name m ∈ applied)) as [Hin|Hout]; [by left|right].
  apply list_elem_of_fmap_2. by apply list_elem_of_filter.
Qed.

Lemma pending_perm (available : list (Migration U)) (l1 l2 : list string) :
  l1 ≡ₚ l2 → pending available l1 = pending available l2.
Proof.
  intros Hperm. unfold pending. apply list_filter_iff. intros m. by rewrite Hperm.
Qed.

Lemma newMapFrom_defined (ms : list (Migration U)) :
  ∀ (acc : gmap string (Migration U)) n,
    n ∈ name <$> ms ∨ is_Some (acc !! n) →
    is_Some (newMapFrom acc (map (λ m, (name m, m)) ms) !! n).
Proof.
  unfold newMapFrom.
  induction ms as [|m ms IH]; intros acc n Hn; simpl in *.
  - destruct Hn as [Hn|Hn]; [by apply elem_of_nil in Hn|done].
  - apply IH. destruct Hn as [[->|Hn]%elem_of_cons|Hn]; [right|by left|right].
    + by rewrite lookup_insert_eq.
    + destruct (decide (name m = n)) as [->|Hne].
      * by rewrite lookup_insert_eq.
      * by rewrite lookup_insert_ne.
Qed.

Lemma availableMigrationsMap_defined (dir : Directory U) (n : string) :
  n ∈ name <$> loadMigrations dir → is_Some (availableMigrationsMap dir !! n).
Proof. intros Hn. apply newMapFrom_defined. by left. Qed.

Lemma getRanMigrations_perm_eq (w w' : World U) :
  ledger w ≡ₚ ledger w' → getRanMigrations w = getRanMigrations w'.
Proof.
  intros Hperm. unfold getRanMigrations.
  apply (Sorted_unique String.le).
  - apply Sorted_merge_sort, _.
  - apply Sorted_merge_sort, _.
  - by rewrite !merge_sort_Permutation.
Qed.

Lemma migrationsToRollback_all (ran : list string) (steps : Z) :
  Z.of_nat (length ran) ≤ steps → migrationsToRollback ran steps = reverse ran.
Proof.
  intros Hsteps. unfold migrationsToRollback, slice0. rewrite length_reverse.
  destruct (steps <? 0) eqn:Hneg; [apply Z.ltb_lt in Hneg; lia|].
  apply take_ge. rewrite length_reverse. lia.
Qed.

Lemma migrationsToRollback_negative (ran : list string) (steps : Z) :
  steps < 0 → migrationsToRollback ran steps = reverse (drop (Z.to_nat (- steps)) ran).
Proof.
  intros Hsteps. unfold migrationsToRollback, slice0.
  rewrite (proj2 (Z.ltb_lt steps 0)) by done.
  rewrite take_reverse, !length_reverse. f_equal.
  destruct (decide (- steps ≤ Z.of_nat (length ran))) as [Hle|Hgt].
  - f_equal. lia.
  - rewrite !drop_ge; [done|lia|lia].
Qed.

Lemma defined_all (defs : gmap string (Migration U)) (names : list string) :
  (∀ n, n ∈ names → is_Some (defs !! n)) → defined defs names = names.
Proof.
  intros Hall. unfold defined.
  induction names as [|n names IH]; [done|].
  rewrite filter_cons_True by (apply Hall; left).
  f_equal. apply IH. intros k Hk. apply Hall. by right.
Qed.

(** [migrateUp()] a second time, after a run that returned, does nothing:
    it finds nothing pending, calls no [up], writes no ledger row and
    returns. *)
Theorem migrateUp_twice_does_nothing (dir : Directory U) (w : World U) :
  (migrateUp dir w).1 = Ok tt →
  pending (loadMigrations dir) (ledger (migrateUp dir w).2) = [] ∧
  migrateUp dir (migrateUp dir w).2 = (Ok tt, (migrateUp dir w).2).
Proof.
  intros Hok. unfold migrateUp in *.
  pose proof (upLoop_spec (getRanMigrations w) (loadMigrations dir) w) as Hspec.
  simpl in Hspec. rewrite Hok in Hspec. destruct Hspec as [_ Hledger].
  rewrite pending_ran in Hledger.
  assert (pending (loadMigrations dir)
            (ledger (upLoop (loadMigrations dir) (getRanMigrations w) w).2) = [])
    as Hnone by (rewrite Hledger; apply pending_after).
  split; [done|].
  apply upLoop_nothing_pending. by rewrite pending_ran.
Qed.

(** [migrateUp()] returns only when the pending migrations have distinct
    names.  With a pending migration that has the name of one before it
    (two files with one name, such as [a.js] and [a.ts]), and the [up]
    procedures succeeding, it runs the [up] of both on the user's tables
    and then fails at the INSERT of the second ledger row: the migrations
    before stay applied, and the second [up] has run without a row. *)
Theorem migrateUp_fails_on_a_shared_name (dir : Directory U) (w : World U) :
  let todo := pending (loadMigrations dir) (ledger w) in
  let run := migrateUp dir w in
  (run.1 = Ok tt → NoDup (name <$> todo)) ∧
  (∀ done m rest,
     todo = done ++ m :: rest → NoDup (name <$> done) → name m ∈ name <$> done →
     (runAll (up <$> done ++ [m]) (user w)).1 = Ok tt →
     (∃ e, run.1 = Throw e) ∧
     user run.2 = (runAll (up <$> done ++ [m]) (user w)).2 ∧
     ledger run.2 = ledger w ++ (name <$> done) ∧
     history run.2 =
       history w ++ upEvents (name <$> done) ++ [RunUp (name m); InsertRow (name m)]).
Proof.
  intros todo run. subst todo run. unfold migrateUp. rewrite <- pending_ran.
  split.
  - by intros [Hnodup _]%upLoop_returned_distinct.
  - intros done m rest Htodo Hnodup Hdup Hups.
    apply (upLoop_stops_at_shared_name _ _ w done m rest); try done.
    + intros n Hn. rewrite <- getRanMigrations_elem_of.
      apply list_elem_of_fmap in Hn as (d & -> & Hd).
      assert (d ∈ pending (loadMigrations dir) (getRanMigrations w)) as Hpending
        by (rewrite Htodo; apply elem_of_app; by left).
      by apply list_elem_of_filter in Hpending as [Hout _].
    + apply elem_of_app. by right.
Qed.

Lemma newMapFrom_elem_of (ms : list (Migration U)) :
  ∀ (acc : gmap string (Migration U)) n m,
    newMapFrom acc (map (λ m, (name m, m)) ms) !! n = Some m →
    m ∈ ms ∨ acc !! n = Some m.
Proof.
  unfold newMapFrom.
  induction ms as [|m' ms IH]; intros acc n m Hm; simpl in *; [by right|].
  apply IH in Hm as [Hm|Hm]; [left; by right|].
  destruct (decide (name m' = n)) as [<-|Hne].
  - rewrite lookup_insert_eq in Hm. injection Hm as <-. left. left.
  - rewrite lookup_insert_ne in Hm by done. by right.
Qed.

Lemma availableMigrationsMap_elem_of (dir : Directory U) (n : string) m :
  availableMigrationsMap dir !! n = Some m → m ∈ loadMigrations dir.
Proof. intros [Hm|Hm]%newMapFrom_elem_of; [done|by rewrite lookup_empty in Hm]. Qed.

Lemma pending_nil (available : list (Migration U)) : pending available [] = available.
Proof.
  unfold pending. induction available as [|m available IH]; [done|].
  rewrite filter_cons_True by apply not_elem_of_nil. by rewrite IH.
Qed.

Lemma downEvents_all (defs : gmap string (Migration U)) (names : list string) :
  (∀ n, n ∈ names → is_Some (defs !! n)) →
  downEvents defs names = names ≫= λ n, [RunDown n; DeleteRow n].
Proof.
  intros Hall. induction names as [|n names IH]; [done|].
  destruct (Hall n ltac:(left)) as [m Hm].
  rewrite (downEvents_cons_Some _ _ _ _ Hm), IH; [done|].
  intros k Hk. apply Hall. by right.
Qed.

Lemma migrationsToRollback_subseteq (ran : list string) (steps : Z) (n : string) :
  n ∈ migrationsToRollback ran steps → n ∈ ran.
Proof.
  unfold migrationsToRollback, slice0. intros Hn%subseteq_take.
  by apply elem_of_reverse.
Qed.

Lemma migrationsToRollback_NoDup (ran : list string) (steps : Z) :
  NoDup ran → NoDup (migrationsToRollback ran steps).
Proof.
  intros Hnodup. unfold migrationsToRollback, slice0.
  eapply (sublist_NoDup _ (reverse ran)); [by rewrite reverse_Permutation|apply sublist_take].
Qed.

(** What [migrateDown(steps)] selects depends on the names in the ledger
    only, not on the order in which they were applied.  With
    [steps] zero it does nothing; with [steps] at least the number of
    ledger rows it selects every row, newest name first; with a negative
    [steps] it selects every row but the [-steps] oldest names. *)
Theorem migrateDown_selection (dir : Directory U) (w : World U) (steps : Z) :
  let ran := getRanMigrations w in
  let selected := migrationsToRollback ran steps in
  (∀ w' : World U, ledger w' ≡ₚ ledger w →
     migrationsToRollback (getRanMigrations w') steps = selected) ∧
  (steps = 0 → migrateDown dir steps w = (Ok tt, w)) ∧
  (Z.of_nat (length (ledger w)) ≤ steps → selected = reverse ran) ∧
  (steps < 0 → selected = reverse (drop (Z.to_nat (- steps)) ran)).
Proof.
  intros ran selected. subst ran selected. split; [|split; [|split]].
  - intros w' Hperm. by rewrite (getRanMigrations_perm_eq w' w).
  - intros ->. rewrite migrateDown_loop. unfold migrationsToRollback, slice0. simpl.
    by rewrite Z.min_l, take_0 by lia.
  - intros Hsteps. apply migrationsToRollback_all.
    by rewrite (Permutation_length (getRanMigrations_perm w)).
  - apply migrationsToRollback_negative.
Qed.

(** [migrateUp()] on an empty ledger and then [migrateDown(steps)] with
    [steps] at least the number of migrations, when [migrateUp] returns and
    the [down] procedures succeed: the [up] procedures have run on the
    user's tables in the order of the files, then the [down] procedure of
    every migration in descending order of the names, each after its row
    was found in the ledger, and the ledger is empty again. *)
Theorem migrateDown_undoes_migrateUp (dir : Directory U) (w : World U) (steps : Z) :
  let applied := migrateUp dir w in
  let undone := migrateDown dir steps applied.2 in
  let defs := availableMigrationsMap dir in
  let names := name <$> loadMigrations dir in
  ledger w = [] → applied.1 = Ok tt →
  Z.of_nat (length (loadMigrations dir)) ≤ steps →
  (∀ m u, m ∈ loadMigrations dir → (down m u).1 = Ok tt) →
  ledger applied.2 = names ∧
  runAll (up <$> loadMigrations dir) (user w) = (Ok tt, user applied.2) ∧
  (∀ m, m ∈ loadMigrations dir → defs !! name m = Some m) ∧
  undone.1 = Ok tt ∧ ledger undone.2 = [] ∧
  runAll (downsOf defs (reverse (merge_sort String.le names))) (user applied.2)
    = (Ok tt, user undone.2) ∧
  history undone.2 =
    history applied.2 ++
    (reverse (merge_sort String.le names) ≫= λ n, [RunDown n; DeleteRow n]).
Proof.
  intros applied undone defs names Hempty Hok Hsteps Hdowns.
  subst applied undone defs names.
  pose proof (upLoop_spec (getRanMigrations w) (loadMigrations dir) w) as Hup.
  pose proof (upLoop_effects (getRanMigrations w) (loadMigrations dir) w) as Heff.
  pose proof (upLoop_returned_distinct (getRanMigrations w) (loadMigrations dir) w)
    as Hdistinct.
  simpl in Hup, Heff. unfold migrateUp in *. rewrite Hok in Hup, Heff.
  destruct Hup as [_ Hledger]. destruct (Hdistinct Hok) as [Hnodup _]. clear Hdistinct.
  rewrite pending_ran, Hempty, pending_nil in *. simpl in Hledger.
  set (w1 := (upLoop (loadMigrations dir) (getRanMigrations w) w).2) in *.
  split; [done|]. split; [done|].
  split.
  { intros m Hm. by apply newMapFrom_lookup_distinct. }
  rewrite migrateDown_loop.
  assert (migrationsToRollback (getRanMigrations w1) steps = reverse (getRanMigrations w1))
    as Hselected.
  { apply migrationsToRollback_all.
    rewrite (Permutation_length (getRanMigrations_perm w1)), Hledger, length_fmap. lia. }
  rewrite Hselected.
  assert (∀ n, n ∈ reverse (getRanMigrations w1) →
               is_Some (availableMigrationsMap dir !! n)) as Hall.
  { intros n Hn%elem_of_reverse%getRanMigrations_elem_of.
    apply availableMigrationsMap_defined. by rewrite <- Hledger. }
  pose proof (downLoop_spec (availableMigrationsMap dir)
                (availableMigrationsMap_keyed dir) (reverse (getRanMigrations w1)) w1)
    as Hdown.
  pose proof (downLoop_runAll (availableMigrationsMap dir)
                (reverse (getRanMigrations w1)) w1) as Hdowneff.
  simpl in Hdown, Hdowneff.
  rewrite (downLoop_returns (availableMigrationsMap dir)
             (availableMigrationsMap_keyed dir)) in Hdown, Hdowneff |- *.
  2, 3, 4: intros n m u _ Hm; apply Hdowns; by eapply availableMigrationsMap_elem_of.
  destruct Hdown as [Hhistory Hrows]. split; [done|]. split; [|split].
  - rewrite Hrows, defined_all by done.
    match goal with |- ?l = [] => destruct l as [|n rest] eqn:Hrest end; [done|].
    assert (n ∈ n :: rest) as Hn by left. rewrite <- Hrest in Hn.
    apply list_elem_of_filter in Hn as [Hout Hn]. destruct Hout.
    by apply elem_of_reverse, getRanMigrations_elem_of.
  - rewrite Hdowneff. unfold getRanMigrations. by rewrite Hledger.
  - rewrite Hhistory, downEvents_all by done.
    unfold getRanMigrations. by rewrite Hledger.
Qed.

(** A [down] that fails stops [migrateDown(steps)] where it is: on a
    ledger without repeated names, the rows of the entries rolled back
    before it are gone, and the row of the failing entry, the rows of the
    entries selected after it and the rows not selected are all kept. *)
Theorem migrateDown_stops_at_failing_down
    (dir : Directory U) (w : World U) (steps : Z) (e : exn) :
  let selected := migrationsToRollback (getRanMigrations w) steps in
  let defs := availableMigrationsMap dir in
  let run := migrateDown dir steps w in
  NoDup (ledger w) → run.1 = Throw e →
  ∃ done n rest m,
    selected = done ++ n :: rest ∧ defs !! n = Some m ∧
    (∃ u, (down m u).1 = Throw e) ∧
    history run.2 = history w ++ downEvents defs done ++ [RunDown n] ∧
    (∀ k, k ∈ done → is_Some (defs !! k) → k ∉ ledger run.2) ∧
    n ∈ ledger run.2 ∧
    (∀ k, k ∈ rest → k ∈ ledger run.2) ∧
    (∀ k, k ∈ ledger w → k ∉ selected → k ∈ ledger run.2).
Proof.
  intros selected defs run Hnodup He. subst selected defs run.
  rewrite migrateDown_loop in *.
  pose proof (downLoop_spec (availableMigrationsMap dir)
                (availableMigrationsMap_keyed dir)
                (migrationsToRollback (getRanMigrations w) steps) w) as Hspec.
  simpl in Hspec. rewrite He in Hspec.
  destruct Hspec as (done & n & rest & m & Hsel & Hn & Hfail & Hhistory & Hrows).
  exists done, n, rest, m. do 4 (split; [done|]).
  assert (NoDup (done ++ n :: rest)) as Hdistinct.
  { rewrite <- Hsel. apply migrationsToRollback_NoDup.
    by rewrite (getRanMigrations_perm w). }
  apply NoDup_app in Hdistinct as (_ & Hapart & _).
  assert (∀ k, k ∈ done ++ n :: rest → k ∈ ledger w) as Hin.
  { intros k Hk. rewrite <- Hsel in Hk.
    by apply migrationsToRollback_subseteq, getRanMigrations_elem_of in Hk. }
  assert (∀ k, k ∈ defined (availableMigrationsMap dir) done → k ∈ done) as Hdefined.
  { intros k Hk. unfold defined in Hk. by apply list_elem_of_filter in Hk as [_ Hk]. }
  rewrite Hrows. split; [|split; [|split]].
  - intros k Hk Hsome [Hout _]%list_elem_of_filter. apply Hout.
    unfold defined. by apply list_elem_of_filter.
  - apply list_elem_of_filter. split.
    + intros Hk%Hdefined. apply (Hapart n Hk). left.
    + apply Hin, elem_of_app. right. left.
  - intros k Hk. apply list_elem_of_filter. split.
    + intros Hk'%Hdefined. apply (Hapart k Hk'). by right.
    + apply Hin, elem_of_app. right. by right.
  - intros k Hk Hout. apply list_elem_of_filter. split; [|done].
    intros Hk'%Hdefined. apply Hout. rewrite Hsel. apply elem_of_app. by left.
Qed.

End WithDatabase.

Lemma migrateUp_twice_does_nothing_witness :
  (migrateUp threeFiles (mkWorld ["001_a"] tt [])).1 = Ok tt ∧
  ledger (migrateUp threeFiles (mkWorld ["001_a"] tt [])).2 = ["001_a"; "002_b"; "003_c"] ∧
  migrateUp threeFiles (migrateUp threeFiles (mkWorld ["001_a"] tt [])).2 =
    (Ok tt, (migrateUp threeFiles (mkWorld ["001_a"] tt [])).2).
Proof.
  split; [reflexivity|]. split; [reflexivity|].
  exact (proj2 (migrateUp_twice_does_nothing threeFiles (mkWorld ["001_a"] tt [])
                  eq_refl)).
Defined.

Lemma migrateUp_fails_on_a_shared_name_witness :
  pending (loadMigrations sharedName) (ledger start) =
    [mkMigration "a" (record "up a") (record "down a")] ++
    mkMigration "a" (record "up a") (record "down a") :: [] ∧
  (∃ e, (migrateUp sharedName start).1 = Throw e) ∧
  user (migrateUp sharedName start).2 = ["up a"; "up a"] ∧
  ledger (migrateUp sharedName start).2 = ["a"].
Proof.
  assert (pending (loadMigrations sharedName) (ledger start) =
          [mkMigration "a" (record "up a") (record "down a")] ++
          mkMigration "a" (record "up a") (record "down a") :: []) as Htodo
    by (by vm_compute).
  split; [exact Htodo|].
  destruct (proj2 (migrateUp_fails_on_a_shared_name sharedName start)
              _ _ _ Htodo) as (Hthrow & Huser & Hledger & _).
  - apply (bool_decide_unpack _). vm_compute. exact I.
  - left.
  - reflexivity.
  - split; [exact Hthrow|]. split; [exact Huser|exact Hledger].
Defined.

Lemma migrateDown_selection_witness :
  (-1 < 0) ∧
  migrationsToRollback (getRanMigrations (mkWorld ["002_b"; "001_a"; "003_c"] tt [])) (-1)
    = ["003_c"; "002_b"] ∧
  migrateDown threeFiles 0 (mkWorld ["002_b"; "001_a"; "003_c"] tt [])
    = (Ok tt, mkWorld ["002_b"; "001_a"; "003_c"] tt []).
Proof.
  split; [lia|].
  destruct (migrateDown_selection threeFiles
              (mkWorld ["002_b"; "001_a"; "003_c"] tt []) (-1)) as (_ & _ & _ & Hneg).
  destruct (migrateDown_selection threeFiles
              (mkWorld ["002_b"; "001_a"; "003_c"] tt []) 0) as (_ & Hzero & _ & _).
  split; [rewrite Hneg by lia; reflexivity|exact (Hzero eq_refl)].
Defined.

Lemma migrateDown_undoes_migrateUp_witness :
  ledger start = [] ∧
  (migrateUp threeLogged
     start).1 = Ok tt ∧
  Z.of_nat (length (loadMigrations
                      threeLogged)) ≤ 5 ∧
  ledger (migrateDown threeLogged 5
            (migrateUp threeLogged
               start).2).2 = [] ∧
  runAll [record "down 003_c"; record "down 002_b"; record "down 001_a"]
    ["up 001_a"; "up 002_b"; "up 003_c"] =
  (Ok tt,
   user (migrateDown threeLogged 5
           (migrateUp threeLogged
              start).2).2).
Proof.
  assert (Z.of_nat (length (loadMigrations
            threeLogged)) ≤ 5) as Hsteps
    by (by vm_compute).
  split; [reflexivity|]. split; [reflexivity|]. split; [exact Hsteps|].
  destruct (migrateDown_undoes_migrateUp
              threeLogged
              start 5 eq_refl eq_refl Hsteps)
    as (_ & _ & _ & _ & Hledger & Huser & _).
  - intros m u Hm.
    assert (loadMigrations threeLogged =
            [mkMigration "001_a" (record "up 001_a") (record "down 001_a");
             mkMigration "002_b" (record "up 002_b") (record "down 002_b");
             mkMigration "003_c" (record "up 003_c") (record "down 003_c")]) as Hloaded
      by (by vm_compute).
    rewrite Hloaded in Hm.
    rewrite !elem_of_cons, elem_of_nil in Hm.
    destruct Hm as [->|[->|[->|[]]]]; reflexivity.
  - split; [exact Hledger|]. exact Huser.
Defined.

Lemma migrateDown_stops_at_failing_down_witness :
  NoDup (ledger (mkWorld ["001_a"; "002_b"; "003_c"] tt [])) ∧
  (migrateDown brokenDown 3 (mkWorld ["001_a"; "002_b"; "003_c"] tt [])).1
    = Throw (Error "down failed") ∧
  ledger (migrateDown brokenDown 3 (mkWorld ["001_a"; "002_b"; "003_c"] tt [])).2
    = ["001_a"; "002_b"] ∧
  ∃ n, n ∈ ledger (migrateDown brokenDown 3 (mkWorld ["001_a"; "002_b"; "003_c"] tt [])).2.
Proof.
  assert (NoDup (ledger (mkWorld ["001_a"; "002_b"; "003_c"] tt []))) as Hnodup
    by (apply (bool_decide_unpack _); vm_compute; exact I).
  split; [exact Hnodup|]. split; [reflexivity|]. split; [reflexivity|].
  destruct (migrateDown_stops_at_failing_down brokenDown
              (mkWorld ["001_a"; "002_b"; "003_c"] tt []) 3 (Error "down failed")
              Hnodup eq_refl) as (done & n & rest & m & _ & _ & _ & _ & _ & Hkept & _).
  exists n. exact Hkept.
Defined.

End LedgerFacts.


(** ** MigrationRunner: new migration files *)

Module MigrationFilesFacts.
Import MigrationRunner MigrationRunnerSpec MigrationRunnerFacts.
Import MigrationFiles MigrationFilesSpec StringFacts.

Lemma stripSeparators_digit (a : ascii) (s : string) :
  isDigit a = true → stripSeparators (String a s) = String a (stripSeparators s).
Proof.
  intros Ha. simpl.
  assert (bool_decide (a = "-"%char) || bool_decide (a = ":"%char)
          || bool_decide (a = "."%char) = false) as ->; [|done].
  repeat case_bool_decide; subst; done.
Qed.

Lemma stripSeparators_append (s t : string) :
  stripSeparators (s +:+ t) = stripSeparators s +:+ stripSeparators t.
Proof.
  induction s as [|a s IH]; [done|]. rewrite append_cons. simpl.
  destruct (_ || _); [done|]. by rewrite append_cons, IH.
Qed.

Lemma stripSeparators_digits (n : nat) (s : string) :
  digits n s = true → stripSeparators s = s.
Proof.
  revert s. induction n as [|n IH]; intros [|a s] Hs; try done.
  simpl in Hs. apply andb_prop in Hs as [Ha Hs].
  by rewrite stripSeparators_digit, (IH s).
Qed.

Lemma length_append (s t : string) :
  String.length (s +:+ t) = (String.length s + String.length t)%nat.
Proof. induction s as [|a s IH]; [done|]. rewrite append_cons. simpl. by rewrite IH. Qed.

Lemma substring_append_l (s t : string) :
  String.substring 0 (String.length s) (s +:+ t) = s.
Proof.
  induction s as [|a s IH]; [by destruct t|]. rewrite append_cons. simpl. by rewrite IH.
Qed.

Lemma substring_all (s : string) : String.substring 0 (String.length s) s = s.
Proof. induction s as [|a s IH]; [done|]. simpl. by rewrite IH. Qed.

Lemma substring_append_r (s t : string) :
  String.substring (String.length s) (String.length t) (s +:+ t) = t.
Proof.
  induction s as [|a s IH]; [apply substring_all|]. by rewrite append_cons.
Qed.

Lemma endsWith_append (s suffix : string) : endsWith (s +:+ suffix) suffix = true.
Proof.
  unfold endsWith. rewrite length_append.
  replace (String.length s + String.length suffix - String.length suffix)%nat
    with (String.length s) by lia.
  rewrite substring_append_r, String.eqb_refl, andb_true_r.
  apply Nat.leb_le. lia.
Qed.

Lemma parseName_append (s : string) :
  s ≠ "" → parseName (s +:+ ".ts") = s.
Proof.
  intros Hs. unfold parseName. rewrite length_append. simpl.
  destruct s as [|a s]; [done|]. simpl String.length.
  replace (S (String.length s) + 3 <=? 3)%nat with false
    by (symmetry; apply Nat.leb_gt; lia).
  replace (S (String.length s) + 3 - 3)%nat with (String.length (String a s))
    by (simpl; lia).
  apply substring_append_l.
Qed.

Lemma compare_append (t1 t2 r1 r2 : string) :
  String.length t1 = String.length t2 → t1 ≠ t2 →
  String.compare (t1 +:+ r1) (t2 +:+ r2) = String.compare t1 t2.
Proof.
  revert t2. induction t1 as [|a t1 IH]; intros [|b t2] Hlen Hne; try done.
  rewrite !append_cons. simpl.
  destruct (Ascii.compare a b) eqn:Hab; [|done|done].
  apply Ascii.compare_eq_iff in Hab as ->.
  apply IH; [by injection Hlen|]. by intros ->.
Qed.

Lemma upTo_spec (p q : path) : q ∈ upTo p ↔ ∃ n, (1 ≤ n ≤ length p)%nat ∧ q = take n p.
Proof.
  unfold upTo. rewrite list_elem_of_fmap. split.
  - intros (n & -> & Hn). exists n. split; [|done].
    apply elem_of_seq in Hn. lia.
  - intros (n & Hn & ->). exists n. split; [done|]. apply elem_of_seq. lia.
Qed.

Lemma mkdir_again (dir : path) (fs fs1 : FileSystem) :
  mkdir dir fs = (Ok tt, fs1) →
  files fs1 = files fs ∧
  (∀ q, q ∈ upTo dir → q ∈ directories fs1) ∧
  (∀ fs2, directories fs2 = directories fs1 → blocked fs2 dir = false →
          mkdir dir fs2 = (Ok tt, fs2)).
Proof.
  unfold mkdir. destruct (blocked fs dir) eqn:Hblocked; [done|].
  intros [= <-]. simpl. split; [done|].
  assert (∀ q, q ∈ upTo dir →
               q ∈ directories fs ++ filter (λ q, q ∉ directories fs) (upTo dir))
    as Hthere.
  { intros q Hq. apply elem_of_app.
    destruct (decide (q ∈ directories fs)) as [Hin|Hout]; [by left|right].
    by apply list_elem_of_filter. }
  split; [done|].
  intros [ds fl] Hds Hfree. simpl in Hds. subst ds. rewrite Hfree. f_equal.
  simpl. f_equal.
  match goal with |- ?l ++ ?k = ?l => assert (k = []) as ->; [|by rewrite app_nil_r] end.
  match goal with |- ?k = [] => destruct k as [|q rest] eqn:Hrest end; [done|].
  assert (q ∈ q :: rest) as Hq by left. rewrite <- Hrest in Hq.
  apply list_elem_of_filter in Hq as [Hout Hq]. destruct Hout. by apply Hthere.
Qed.

Lemma writeFile_returns (p : path) (fs fs2 : FileSystem) :
  writeFile p fs = (Ok tt, fs2) →
  isDirectory fs p = false ∧ isDirectory fs (removelast p) = true ∧
  directories fs2 = directories fs ∧ p ∈ files fs2 ∧
  (∀ q, q ∈ files fs2 ↔ q ∈ files fs ∨ q = p) ∧
  writeFile p fs2 = (Ok tt, fs2).
Proof.
  destruct fs as [ds fl]. unfold writeFile, isDirectory. simpl.
  case_bool_decide as Hdir; [done|].
  case_bool_decide as Hparent; [|by case_match].
  intros [= <-]. simpl.
  rewrite (bool_decide_eq_false_2 _ Hdir), (bool_decide_eq_true_2 _ Hparent).
  do 3 (split; [done|]).
  destruct (decide (p ∈ fl)) as [Hin|Hout].
  - rewrite !(bool_decide_eq_true_2 (p ∈ fl)) by done. split; [done|]. split; [|done].
    intros q. split; [by left|]. by intros [?| ->].
  - rewrite (bool_decide_eq_false_2 (p ∈ fl)) by done.
    assert (p ∈ fl ++ [p]) as Hin by (apply elem_of_app; right; left).
    rewrite (bool_decide_eq_true_2 (p ∈ fl ++ [p])) by done.
    split; [done|]. split; [|done].
    intros q. by rewrite elem_of_app, list_elem_of_singleton.
Qed.

Lemma writeFile_throws (p : path) (fs fs2 : FileSystem) (e : exn) :
  writeFile p fs = (Throw e, fs2) → fs2 = fs.
Proof.
  unfold writeFile. repeat case_match; by intros [= <- <-] || by intros [=].
Qed.

(** Making the same file a second time changes nothing. *)
Lemma createMigrationFile_again (dir : path) (iso iso' name : string) (fs : FileSystem) :
  fileName iso' name = fileName iso name →
  createMigrationFile dir iso' name (createMigrationFile dir iso name fs).2 =
  createMigrationFile dir iso name fs.
Proof.
  intros Hfile. unfold createMigrationFile. rewrite Hfile.
  set (p := pathJoin dir (fileName iso name)).
  destruct (mkdir dir fs) as [[[]|e] fs1] eqn:Hmkdir; simpl.
  - destruct (mkdir_again dir fs fs1 Hmkdir) as (Hfiles & Hdirs & Hagain).
    assert (blocked fs1 dir = false) as Hfree.
    { unfold mkdir in Hmkdir. destruct (blocked fs dir) eqn:Hb; [done|].
      unfold blocked in *. by rewrite Hfiles. }
    destruct (writeFile p fs1) as [[[]|e] fs2] eqn:Hwrite; simpl.
    + destruct (writeFile_returns p fs1 fs2 Hwrite)
        as (Hnodir & _ & Hsame & _ & Hin & Hrewrite).
      rewrite (Hagain fs2 Hsame), Hrewrite; [done|].
      unfold blocked in *. apply bool_decide_eq_false. intros Hex.
      apply Exists_exists in Hex as (q & Hq & Hfile2).
      apply Hin in Hfile2 as [Hold| ->].
      * apply bool_decide_eq_false in Hfree. apply Hfree, Exists_exists. by exists q.
      * unfold isDirectory in Hnodir. apply bool_decide_eq_false in Hnodir.
        apply Hnodir. right. by apply Hdirs.
    + pose proof (writeFile_throws _ _ _ _ Hwrite) as ->.
      by rewrite (Hagain fs1 eq_refl Hfree), Hwrite.
  - assert (fs1 = fs) as ->
      by (unfold mkdir in Hmkdir; destruct (blocked fs dir); by simplify_eq).
    by rewrite Hmkdir.
Qed.

Lemma split_plain (s : string) : plain s = true → split s = [s].
Proof.
  unfold plain. induction s as [|a s IH]; [done|]. simpl.
  destruct (Ascii.eqb a "/"); [done|]. simpl. intros Hs. by rewrite IH.
Qed.

Lemma split_append (s t : string) :
  plain s = true → split (s +:+ "/" +:+ t) = s :: split t.
Proof.
  unfold plain. induction s as [|a s IH]; [done|]. rewrite append_cons. simpl.
  destruct (Ascii.eqb a "/"); [done|]. simpl. intros Hs. by rewrite IH.
Qed.

Lemma plain_append (s t : string) : plain (s +:+ t) = plain s && plain t.
Proof.
  unfold plain. rewrite countChar_append.
  destruct (countChar "/" s), (countChar "/" t); done.
Qed.

Lemma follow_name (p : path) (segment : string) :
  (3 ≤ String.length segment)%nat ∨ countChar "_" segment ≠ 0%nat →
  follow p segment = p ++ [segment].
Proof.
  intros Hname. unfold follow.
  rewrite bool_decide_eq_false_2, bool_decide_eq_false_2; [done|..].
  - intros ->. destruct Hname as [Hname|Hname]; [simpl in Hname; lia|done].
  - intros [-> | ->]; (destruct Hname as [Hname|Hname]; [simpl in Hname; lia|done]).
Qed.

Lemma follow_file (p : path) (s : string) : follow p (s +:+ ".ts") = p ++ [s +:+ ".ts"].
Proof. apply follow_name. left. rewrite length_append. simpl. lia. Qed.

Lemma follow_stamped (p : path) (s t : string) :
  follow p (s +:+ "_" +:+ t) = p ++ [s +:+ "_" +:+ t].
Proof. apply follow_name. right. rewrite !countChar_append. simpl. lia. Qed.

Lemma fileName_file (iso name : string) :
  fileName iso name = (timestamp iso +:+ "_" +:+ name) +:+ ".ts".
Proof. unfold fileName. by rewrite !append_assoc. Qed.

Lemma mkdir_files (dir : path) (fs : FileSystem) : files (mkdir dir fs).2 = files fs.
Proof. unfold mkdir. by destruct (blocked fs dir). Qed.

Lemma mkdir_below (dir : path) (fs : FileSystem) (segment : string) :
  isDirectory (mkdir dir fs).2 (dir ++ [segment]) = isDirectory fs (dir ++ [segment]).
Proof.
  unfold mkdir. destruct (blocked fs dir); [done|]. unfold isDirectory. simpl.
  apply bool_decide_ext. rewrite elem_of_app, list_elem_of_filter, upTo_spec.
  split; [|tauto]. intros [?|[?|[_ (n & Hn & Heq)]]]; [tauto|tauto|].
  apply (f_equal length) in Heq. rewrite length_app, length_take in Heq. simpl in Heq. lia.
Qed.

(** The timestamp [createMigrationFile] puts in front of the name is not
    [YYYYMMDDHHmmss]: it keeps the [T] of the ISO text and has room for
    the first digit of the seconds only.  So two files made for one name
    within the same ten seconds have the same file name, and the second
    is written over the first. *)
Theorem timestamp_keeps_the_T
    (year month day hours minutes seconds millis : string) :
  digits 4 year = true → digits 2 month = true → digits 2 day = true →
  digits 2 hours = true → digits 2 minutes = true → digits 2 seconds = true →
  digits 3 millis = true →
  timestamp (toISOString year month day hours minutes seconds millis) =
    year +:+ month +:+ day +:+ "T" +:+ hours +:+ minutes +:+ String.substring 0 1 seconds ∧
  ∀ migrationsDir seconds' millis' name files,
    digits 2 seconds' = true → digits 3 millis' = true →
    String.substring 0 1 seconds' = String.substring 0 1 seconds →
    let first := createMigrationFile migrationsDir
                   (toISOString year month day hours minutes seconds millis) name files in
    let second := createMigrationFile migrationsDir
                    (toISOString year month day hours minutes seconds' millis') name
                    first.2 in
    second.1 = first.1 ∧ second.2 = first.2.
Proof.
  intros Hy Hmo Hd Hh Hmi Hs Hms.
  assert (∀ s' ms', digits 2 s' = true → digits 3 ms' = true →
            timestamp (toISOString year month day hours minutes s' ms') =
            year +:+ month +:+ day +:+ "T" +:+ hours +:+ minutes +:+
            String.substring 0 1 s') as Hshape.
  { clear seconds millis Hs Hms. intros seconds millis Hs Hms.
    unfold timestamp, toISOString. rewrite !stripSeparators_append.
    rewrite (stripSeparators_digits 4 year), (stripSeparators_digits 2 month),
      (stripSeparators_digits 2 day), (stripSeparators_digits 2 hours),
      (stripSeparators_digits 2 minutes), (stripSeparators_digits 2 seconds),
      (stripSeparators_digits 3 millis) by done.
    change (stripSeparators "-") with "". change (stripSeparators ":") with "".
    change (stripSeparators ".") with "". change (stripSeparators "T") with "T".
    change (stripSeparators "Z") with "Z".
    destruct year as [|y1 [|y2 [|y3 [|y4 [|]]]]];
      simpl in Hy; rewrite ?andb_false_r in Hy; try discriminate Hy.
    destruct month as [|o1 [|o2 [|]]];
      simpl in Hmo; rewrite ?andb_false_r in Hmo; try discriminate Hmo.
    destruct day as [|d1 [|d2 [|]]];
      simpl in Hd; rewrite ?andb_false_r in Hd; try discriminate Hd.
    destruct hours as [|h1 [|h2 [|]]];
      simpl in Hh; rewrite ?andb_false_r in Hh; try discriminate Hh.
    destruct minutes as [|m1 [|m2 [|]]];
      simpl in Hmi; rewrite ?andb_false_r in Hmi; try discriminate Hmi.
    destruct seconds as [|s1 [|s2 [|]]];
      simpl in Hs; rewrite ?andb_false_r in Hs; try discriminate Hs.
    destruct millis as [|l1 [|l2 [|l3 [|]]]];
      simpl in Hms; rewrite ?andb_false_r in Hms; try discriminate Hms.
    rewrite ?andb_true_r in *.
    repeat match goal with H : _ && _ = true |- _ => apply andb_prop in H as [? ?] end.
    reflexivity. }
  split; [by apply Hshape|].
  intros migrationsDir seconds' millis' name files Hs' Hms' Hsame first second.
  assert (fileName (toISOString year month day hours minutes seconds' millis') name =
          fileName (toISOString year month day hours minutes seconds millis) name)
    as Hfile by (unfold fileName; by rewrite !Hshape, Hsame).
  subst first second. by rewrite createMigrationFile_again.
Qed.

Lemma timestamp_keeps_the_T_witness :
  digits 4 "2024" = true ∧ digits 2 "01" = true ∧ digits 2 "12" = true ∧
  digits 2 "34" = true ∧ digits 2 "56" = true ∧ digits 3 "789" = true ∧
  timestamp "2024-01-01T12:34:56.789Z" = "20240101T12345".
Proof.
  do 6 (split; [reflexivity|]).
  exact (proj1 (timestamp_keeps_the_T "2024" "01" "01" "12" "34" "56" "789"
                  eq_refl eq_refl eq_refl eq_refl eq_refl eq_refl eq_refl)).
Defined.

(** The file [createMigrationFile] makes.  When it returns, the directory
    is there and the file is at the path [path.join] gives for the name.
    For a file name with no [/] in it that is a file of the directory,
    listed by [readdir]: a migration for [loadMigrations], listed under
    its file name without the extension once it can be loaded.  A name
    with a [/] in it is not kept by [path.join]: for [a/b] the file goes
    to a directory below, and the call fails when that directory is not
    there; for [/../x] the file is [x.ts], with no timestamp.  And files
    whose timestamps differ, and have the same length, sort in the order of
    their timestamps, whatever their names are. *)
Theorem created_file_is_loaded {U : Type}
    (dir : Directory U) (migrationsDir : path) (iso name : string) (fs : FileSystem) :
  let created := createMigrationFile migrationsDir iso name fs in
  (∀ p, created.1 = Ok p →
     p = pathJoin migrationsDir (fileName iso name) ∧ p ∈ files created.2 ∧
     ∀ q, q ∈ upTo migrationsDir → q ∈ directories created.2) ∧
  (plain (fileName iso name) = true →
   pathJoin migrationsDir (fileName iso name) = migrationsDir ++ [fileName iso name] ∧
   (isOk created.1 = true →
    fileName iso name ∈ readdir migrationsDir created.2 ∧
    (MigrationRunner.readdir dir = readdir migrationsDir created.2 →
     isOk (require dir (fileName iso name)) = true →
     (timestamp iso +:+ "_" +:+ name) ∈ MigrationRunner.name <$> loadMigrations dir))) ∧
  (∀ a b,
     name = a +:+ "/" +:+ b →
     plain (timestamp iso) = true → plain a = true → plain b = true →
     pathJoin migrationsDir (fileName iso name) =
       migrationsDir ++ [timestamp iso +:+ "_" +:+ a; b +:+ ".ts"] ∧
     (isDirectory fs (migrationsDir ++ [timestamp iso +:+ "_" +:+ a]) = false →
      isOk created.1 = false ∧ files created.2 = files fs)) ∧
  (∀ x,
     name = "/../" +:+ x → plain (timestamp iso) = true → plain x = true →
     pathJoin migrationsDir (fileName iso name) = migrationsDir ++ [x +:+ ".ts"]) ∧
  (∀ iso' name',
     String.length (timestamp iso) = String.length (timestamp iso') →
     timestamp iso ≠ timestamp iso' →
     (String.le (fileName iso name) (fileName iso' name') ↔
      String.le (timestamp iso) (timestamp iso'))).
Proof.
  intros created. subst created.
  assert (∀ p, (createMigrationFile migrationsDir iso name fs).1 = Ok p →
     p = pathJoin migrationsDir (fileName iso name) ∧
     p ∈ files (createMigrationFile migrationsDir iso name fs).2 ∧
     ∀ q, q ∈ upTo migrationsDir →
          q ∈ directories (createMigrationFile migrationsDir iso name fs).2) as Hreturns.
  { intros p. unfold createMigrationFile.
    destruct (mkdir migrationsDir fs) as [[[]|e] fs1] eqn:Hmkdir; [|done].
    destruct (writeFile _ fs1) as [[[]|e] fs2] eqn:Hwrite; [|done].
    simpl. intros [= <-].
    destruct (mkdir_again _ _ _ Hmkdir) as (_ & Hdirs & _).
    destruct (writeFile_returns _ _ _ Hwrite) as (_ & _ & Hsame & Hin & _).
    split; [done|]. split; [done|]. intros q Hq. rewrite Hsame. by apply Hdirs. }
  split; [exact Hreturns|]. split; [|split; [|split]].
  - intros Hplain.
    assert (pathJoin migrationsDir (fileName iso name) =
            migrationsDir ++ [fileName iso name]) as Hpath.
    { unfold pathJoin. rewrite split_plain by done. simpl.
      rewrite fileName_file. apply follow_file. }
    split; [done|]. intros Hok.
    destruct (createMigrationFile migrationsDir iso name fs) as [[p|e] fs2] eqn:Hcreated;
      [|done].
    destruct (Hreturns p eq_refl) as (-> & Hin & _). simpl in *.
    assert (fileName iso name ∈ readdir migrationsDir fs2) as Hlisted.
    { unfold readdir. apply list_elem_of_omap.
      exists (migrationsDir ++ [fileName iso name]). split.
      - apply elem_of_app. right. by rewrite <- Hpath.
      - rewrite bool_decide_eq_true_2; [apply last_snoc|].
        split; [by destruct migrationsDir|apply removelast_last]. }
    split; [done|]. intros Hdir Hload. rewrite loadMigrations_names.
    apply list_elem_of_fmap. exists (fileName iso name). split.
    + rewrite fileName_file, parseName_append; [done|].
      intros Hempty. apply (f_equal String.length) in Hempty.
      rewrite !length_append in Hempty. simpl in Hempty. lia.
    + apply loadedFiles_listed. split; [by rewrite Hdir|]. split; [|done].
      by rewrite fileName_file, endsWith_append.
  - intros a b -> Hts Ha Hb.
    assert (pathJoin migrationsDir (fileName iso (a +:+ "/" +:+ b)) =
            migrationsDir ++ [timestamp iso +:+ "_" +:+ a; b +:+ ".ts"]) as Hpath.
    { unfold pathJoin, fileName.
      replace (timestamp iso +:+ "_" +:+ (a +:+ "/" +:+ b) +:+ ".ts")
        with ((timestamp iso +:+ "_" +:+ a) +:+ "/" +:+ (b +:+ ".ts"))
        by by rewrite !append_assoc.
      rewrite split_append by (rewrite !plain_append, Hts, Ha; done).
      rewrite split_plain by (rewrite plain_append, Hb; done).
      simpl. rewrite follow_stamped, follow_file. by rewrite <- app_assoc. }
    split; [done|]. intros Hmissing.
    unfold createMigrationFile. rewrite Hpath.
    pose proof (mkdir_files migrationsDir fs) as Hfiles.
    pose proof (mkdir_below migrationsDir fs (timestamp iso +:+ "_" +:+ a)) as Hbelow.
    destruct (mkdir migrationsDir fs) as [[[]|e] fs1]; [|done]. simpl in *.
    destruct (writeFile _ fs1) as [[[]|e] fs2] eqn:Hwrite; simpl.
    + destruct (writeFile_returns _ _ _ Hwrite) as (_ & Hparent & _).
      replace (migrationsDir ++ [timestamp iso +:+ "_" +:+ a; b +:+ ".ts"])
        with ((migrationsDir ++ [timestamp iso +:+ "_" +:+ a]) ++ [b +:+ ".ts"])
        in Hparent by by rewrite <- app_assoc.
      rewrite removelast_last in Hparent. congruence.
    + by rewrite (writeFile_throws _ _ _ _ Hwrite).
  - intros x -> Hts Hx. unfold pathJoin, fileName.
    replace (timestamp iso +:+ "_" +:+ ("/../" +:+ x) +:+ ".ts")
      with ((timestamp iso +:+ "_" +:+ "") +:+ "/" +:+ ".." +:+ "/" +:+ (x +:+ ".ts"))
      by (rewrite !append_assoc; reflexivity).
    rewrite split_append by (rewrite !plain_append, Hts; done).
    rewrite (split_append "..") by done.
    rewrite split_plain by (rewrite plain_append, Hx; done).
    simpl. rewrite follow_stamped. unfold follow at 2. simpl.
    rewrite removelast_last. apply follow_file.
  - intros iso' name' Hlen Hne. unfold String.le, String.leb, fileName.
    by rewrite compare_append.
Qed.

Lemma created_file_is_loaded_witness :
  plain (fileName "2024-01-01T12:34:56.789Z" "users") = true ∧
  (createMigrationFile ["app"; "migrations"] "2024-01-01T12:34:56.789Z" "users"
     (mkFileSystem [] [])).1 = Ok ["app"; "migrations"; "20240101T12345_users.ts"] ∧
  "20240101T12345_users.ts" ∈
    readdir ["app"; "migrations"]
      (createMigrationFile ["app"; "migrations"] "2024-01-01T12:34:56.789Z" "users"
         (mkFileSystem [] [])).2 ∧
  isDirectory (mkFileSystem [] []) (["app"; "migrations"] ++ ["20240101T12345_a"]) = false ∧
  isOk (createMigrationFile ["app"; "migrations"] "2024-01-01T12:34:56.789Z" "a/b"
          (mkFileSystem [] [])).1 = false.
Proof.
  split; [reflexivity|]. split; [reflexivity|].
  destruct (created_file_is_loaded (mkDirectory [] (λ _, Ok (mkModule idle idle)))
              ["app"; "migrations"] "2024-01-01T12:34:56.789Z" "users"
              (mkFileSystem [] [])) as (_ & Hplain & _).
  destruct (created_file_is_loaded (mkDirectory [] (λ _, Ok (mkModule idle idle)))
              ["app"; "migrations"] "2024-01-01T12:34:56.789Z" "a/b"
              (mkFileSystem [] [])) as (_ & _ & Hbelow & _).
  split; [exact (proj1 (proj2 (Hplain eq_refl) eq_refl))|].
  split; [reflexivity|].
  exact (proj1 (proj2 (Hbelow "a" "b" eq_refl eq_refl eq_refl eq_refl) eq_refl)).
Defined.



End MigrationFilesFacts.


(** ** TypeMapper and ModelGenerator *)

Module TextFacts.
Import TypeMapper ModelGenerator TextSpec StringFacts.

Lemma lowerChar_lowerChar (a : ascii) : lowerChar (lowerChar a) = lowerChar a.
Proof. destruct a as [[] [] [] [] [] [] [] []]; reflexivity. Qed.

Lemma toLowerCase_toLowerCase (s : string) : toLowerCase (toLowerCase s) = toLowerCase s.
Proof.
  induction s as [|a s IH]; [done|]. simpl. by rewrite lowerChar_lowerChar, IH.
Qed.

Lemma lowerChar_letter (a : ascii) : isLower (lowerChar a) = true → isLetter a = true.
Proof. destruct a as [[] [] [] [] [] [] [] []]; vm_compute; congruence. Qed.

Lemma toLowerCase_letters (s : string) :
  allChars isLower (toLowerCase s) = true → allChars isLetter s = true.
Proof.
  induction s as [|a s IH]; [done|]. simpl.
  intros [Ha Hs]%andb_prop. by rewrite (lowerChar_letter a Ha), IH.
Qed.

Lemma allChars_elem_of (p : ascii → bool) (names : list string) (s : string) :
  forallb (allChars p) names = true → s ∈ names → allChars p s = true.
Proof.
  intros Hall Hs. apply (proj1 (forallb_forall _ _) Hall). by apply list_elem_of_In.
Qed.

(** [mapMySQLTypeToTypeScriptType] looks at the letters of the type name
    only, whatever their case: a type text with anything but letters in
    it, such as a length or a modifier after the name, is typed [any]
    like every name it does not know.  The result is one of five types,
    followed by [| null] exactly when [isNullable] is the text YES. *)
Theorem mapMySQLTypeToTypeScriptType_reads_the_name (mysqlType : string) :
  (∀ isNullable,
     mapMySQLTypeToTypeScriptType (toLowerCase mysqlType) isNullable =
     mapMySQLTypeToTypeScriptType mysqlType isNullable) ∧
  (allChars isLetter mysqlType = false →
   mapMySQLTypeToTypeScriptType mysqlType "NO" = "any") ∧
  mapMySQLTypeToTypeScriptType mysqlType "NO"
    ∈ ["number"; "string"; "Date"; "boolean"; "any"] ∧
  mapMySQLTypeToTypeScriptType mysqlType "YES" =
    mapMySQLTypeToTypeScriptType mysqlType "NO" +:+ " | null" ∧
  (∀ isNullable, isNullable ≠ "YES" →
     mapMySQLTypeToTypeScriptType mysqlType isNullable =
     mapMySQLTypeToTypeScriptType mysqlType "NO").
Proof.
  split; [|split; [|split; [|split]]].
  - intros isNullable. unfold mapMySQLTypeToTypeScriptType.
    by rewrite toLowerCase_toLowerCase.
  - intros Hother. unfold mapMySQLTypeToTypeScriptType.
    assert (∀ names, forallb (allChars isLower) names = true →
                     bool_decide (toLowerCase mysqlType ∈ names) = false) as Hnone.
    { intros names Hnames. apply bool_decide_eq_false. intros Hin.
      pose proof (allChars_elem_of _ _ _ Hnames Hin) as Hlower.
      apply toLowerCase_letters in Hlower. congruence. }
    rewrite !Hnone by reflexivity.
    rewrite (bool_decide_eq_false_2 (toLowerCase mysqlType = "json")); [done|].
    intros Hjson. specialize (Hnone ["json"] eq_refl).
    apply bool_decide_eq_false in Hnone. apply Hnone. rewrite Hjson. left.
  - unfold mapMySQLTypeToTypeScriptType. simpl.
    repeat case_bool_decide; repeat first [by left | right].
  - unfold mapMySQLTypeToTypeScriptType. simpl. done.
  - intros isNullable Hno. unfold mapMySQLTypeToTypeScriptType.
    by rewrite (bool_decide_eq_false_2 (isNullable = "YES")).
Qed.

Lemma mapMySQLTypeToTypeScriptType_reads_the_name_witness :
  allChars isLetter "varchar(255)" = false ∧
  mapMySQLTypeToTypeScriptType "varchar(255)" "NO" = "any" ∧
  mapMySQLTypeToTypeScriptType "VarChar" "NO" = "string".
Proof.
  split; [reflexivity|].
  split; [|reflexivity].
  exact (proj1 (proj2 (mapMySQLTypeToTypeScriptType_reads_the_name "varchar(255)"))
           eq_refl).
Defined.

Lemma join_empty_cons (p : string) (ps : list string) :
  join "" (p :: ps) = p +:+ join "" ps.
Proof. destruct ps; [by rewrite CompileFacts.append_empty_r|done]. Qed.

Lemma isAlnum_isWord (a : ascii) : isAlnum a = true → isWord a = true.
Proof. unfold isAlnum, isWord. intros ->. done. Qed.

Lemma isAlnum_not_underscore (a : ascii) : isAlnum a = true → a ≠ "_"%char.
Proof. by intros Ha ->. Qed.

Lemma replaceUnderscores_cons (a : ascii) (s : string) :
  a ≠ "_"%char →
  replaceUnderscores (String a s) = String a (replaceUnderscores s).
Proof.
  intros Ha. destruct s as [|c s]; [done|].
  change (replaceUnderscores (String a (String c s)))
    with (if bool_decide (a = "_"%char) && isWord c
          then String (upperChar c) (replaceUnderscores s)
          else String a (replaceUnderscores (String c s))).
  by rewrite bool_decide_eq_false_2.
Qed.

Lemma replaceUnderscores_underscore (c : ascii) (s : string) :
  isWord c = true →
  replaceUnderscores (String "_" (String c s)) = String (upperChar c) (replaceUnderscores s).
Proof. intros Hc. simpl. by rewrite Hc. Qed.

Lemma replaceUnderscores_word (w s : string) :
  allChars isAlnum w = true →
  replaceUnderscores (w +:+ s) = w +:+ replaceUnderscores s.
Proof.
  induction w as [|a w IH]; [done|]. intros Hw. simpl in Hw.
  apply andb_prop in Hw as [Ha Hw].
  rewrite !append_cons, replaceUnderscores_cons by by apply isAlnum_not_underscore.
  by rewrite IH.
Qed.

Lemma replaceUnderscores_words (w : string) (ws : list string) :
  forallb word (w :: ws) = true →
  replaceUnderscores (join "_" (w :: ws)) = w +:+ join "" (capitalize <$> ws).
Proof.
  revert w. induction ws as [|w' ws IH]; intros w Hws.
  - simpl in *. rewrite andb_true_r in Hws.
    rewrite <- (CompileFacts.append_empty_r w) at 1. rewrite replaceUnderscores_word; [done|].
    by destruct w.
  - apply andb_prop in Hws as [Hw Hws].
    rewrite join_cons by done. rewrite replaceUnderscores_word by by destruct w.
    f_equal. rewrite fmap_cons, join_empty_cons.
    specialize (IH w' Hws). apply andb_prop in Hws as [Hw' _].
    destruct w' as [|c t]; [done|]. simpl in Hw'. apply andb_prop in Hw' as [Hc Ht].
    remember (join "_" (String c t :: ws)) as rest eqn:Hrest.
    assert (∃ T, rest = String c T) as [T HT].
    { subst rest. destruct ws; [by exists t|].
      exists (t +:+ "_" +:+ join "_" (s :: ws)). by rewrite join_cons. }
    rewrite HT in IH |- *.
    rewrite replaceUnderscores_cons in IH by by apply isAlnum_not_underscore.
    rewrite append_cons in IH. injection IH as IH.
    change ("_" +:+ String c T) with (String "_" (String c T)).
    rewrite replaceUnderscores_underscore by by apply isAlnum_isWord.
    unfold capitalize. rewrite (isAlnum_isWord c Hc). by rewrite append_cons, IH.
Qed.

Lemma capitalize_append (w s : string) :
  word w = true → capitalize (w +:+ s) = capitalize w +:+ s.
Proof.
  destruct w as [|a w]; [done|]. intros _. rewrite append_cons. simpl.
  by destruct (isWord a).
Qed.

Lemma upperChar_upperChar (a : ascii) : upperChar (upperChar a) = upperChar a.
Proof. destruct a as [[] [] [] [] [] [] [] []]; reflexivity. Qed.

Lemma upperChar_alnum (a : ascii) : isAlnum a = true → isAlnum (upperChar a) = true.
Proof. destruct a as [[] [] [] [] [] [] [] []]; vm_compute; congruence. Qed.

Lemma capitalize_word (w : string) : word w = true → word (capitalize w) = true.
Proof.
  destruct w as [|a w]; [done|]. simpl. intros [Ha Hw]%andb_prop.
  rewrite (isAlnum_isWord a Ha). simpl. by rewrite (upperChar_alnum a Ha).
Qed.

Lemma capitalize_capitalize (w : string) : capitalize (capitalize w) = capitalize w.
Proof.
  destruct w as [|a w]; [done|]. simpl.
  destruct (isWord a) eqn:Ha; simpl; [|by rewrite Ha].
  destruct (isWord (upperChar a)); [|done]. by rewrite upperChar_upperChar.
Qed.

Lemma allChars_append (p : ascii → bool) (s t : string) :
  allChars p (s +:+ t) = allChars p s && allChars p t.
Proof.
  induction s as [|a s IH]; [done|]. rewrite append_cons. simpl.
  by rewrite IH, andb_assoc.
Qed.

Lemma allChars_join (ws : list string) :
  forallb word ws = true → allChars isAlnum (join "" ws) = true.
Proof.
  induction ws as [|w ws IH]; [done|]. intros [Hw Hws]%andb_prop.
  rewrite join_empty_cons, allChars_append, IH by done.
  rewrite andb_true_r. by destruct w.
Qed.

(** [toPascalCase] on a snake_case name, words of letters and digits
    joined by single underscores, gives the words with their first
    letters in upper case, joined by nothing.  It gives the same for the
    name that is written that way already, so the models of two such
    tables are written to one file. *)
Theorem toPascalCase_joins_the_words (w : string) (ws : list string) :
  forallb word (w :: ws) = true →
  toPascalCase (join "_" (w :: ws)) = join "" (capitalize <$> w :: ws) ∧
  toPascalCase (join "" (capitalize <$> w :: ws)) = join "" (capitalize <$> w :: ws) ∧
  modelFileName (join "" (capitalize <$> w :: ws)) = modelFileName (join "_" (w :: ws)).
Proof.
  intros Hws.
  assert (toPascalCase (join "_" (w :: ws)) = join "" (capitalize <$> w :: ws)) as Hsnake.
  { unfold toPascalCase. rewrite replaceUnderscores_words by done.
    apply andb_prop in Hws as [Hw _].
    by rewrite capitalize_append, fmap_cons, join_empty_cons. }
  assert (toPascalCase (join "" (capitalize <$> w :: ws)) = join "" (capitalize <$> w :: ws))
    as Hpascal.
  { unfold toPascalCase.
    assert (forallb word (capitalize <$> w :: ws) = true) as Hcap.
    { clear Hsnake. revert Hws. generalize (w :: ws). intros l.
      induction l as [|x l IH]; [done|]. rewrite fmap_cons.
      cbn [forallb]. intros [Hx Hl]%andb_prop.
      by rewrite capitalize_word, IH. }
    rewrite <- (CompileFacts.append_empty_r (join "" _)) at 1.
    rewrite replaceUnderscores_word by by apply allChars_join.
    change (replaceUnderscores "") with "". rewrite CompileFacts.append_empty_r.
    rewrite fmap_cons, join_empty_cons.
    apply andb_prop in Hws as [Hw _].
    by rewrite capitalize_append, capitalize_capitalize by by apply capitalize_word. }
  split; [done|]. split; [done|].
  unfold modelFileName. by rewrite Hsnake, Hpascal.
Qed.

Lemma toPascalCase_joins_the_words_witness :
  forallb word ["user"; "roles"] = true ∧
  toPascalCase "user_roles" = "UserRoles" ∧
  modelFileName "UserRoles" = modelFileName "user_roles".
Proof.
  split; [reflexivity|].
  destruct (toPascalCase_joins_the_words "user" ["roles"] eq_refl) as (Hsnake & _ & Hfile).
  split; [exact Hsnake|exact Hfile].
Defined.

End TextFacts.


